(** * The streaming write pipeline of plotly.plotly.StreamWriter

    A shallow embedding of the [StreamWriter] class of
    [plotly/plotly/plotly.py]: its bounded outbound queue, the two backoff
    routines, the evaluation of a captured server response or worker error,
    the heartbeat, the chunk writer and the read/write worker.

    Conventions of the embedding.
    - The class is written for Python 2: it drives [trollius] (the Python 2
      port of asyncio), hands native [str] objects to the transport, calls
      [Thread.isAlive] and documents its chunks as [str|unicode|dict].  Text
      therefore has the two Python 2 types [str] (bytes) and [unicode] (code
      points), and mixed-type ordering is the CPython 2 one.
    - [time.time()] returns a float; instants and durations are rationals.
      The only arithmetic on them is a subtraction compared with an integer
      and a product of an integer with 0.25, so nothing depends on rounding.
    - A method is a function of the object and of its environment (the
      successive clock readings, the sleeps performed, the calls made on
      transport writers) that returns a value or raises, together with the
      updated object and environment: an attribute assigned before a [raise]
      stays assigned. *)

From Stdlib Require Import ZArith NArith QArith Qpower List Bool Lia Lqa.
From Stdlib Require Import String Ascii HexadecimalString HexadecimalN.
From Stdlib.Strings Require Import Byte.
Import ListNotations.

Set Implicit Arguments.

(* ------------------------------------------------------------------ *)
(** * Python values used by the class *)

Module Py.

(** Python 2 text. *)
Inductive pystring :=
| Str (bs : list byte)        (* str: a byte string *)
| Unicode (cps : list N).     (* unicode: a sequence of code points *)

Definition is_ascii_byte (b : byte) : bool := (Byte.to_N b <? 128)%N.
Definition is_ascii_cp (c : N) : bool := (c <? 128)%N.

Definition byte_of_cp (c : N) : byte :=
  match Byte.of_N c with Some b => b | None => x00 end.

(** [len(s)] *)
Definition len (s : pystring) : nat :=
  match s with
  | Str bs => List.length bs
  | Unicode cps => List.length cps
  end.

(** [s + lit] for an ASCII [str] literal [lit]: a [unicode] left operand
    coerces the literal to [unicode]. *)
Definition add_str (s : pystring) (lit : list byte) : pystring :=
  match s with
  | Str bs => Str (bs ++ lit)
  | Unicode cps => Unicode (cps ++ map Byte.to_N lit)
  end.

(** [format(n, 'x')]: lower-case hexadecimal, no prefix, ["0"] for zero. *)
Definition format_x (n : nat) : list byte :=
  list_byte_of_string (NilZero.string_of_uint (N.to_hex_uint (N.of_nat n))).

Fixpoint list_eqb {A : Type} (eqb : A -> A -> bool) (l1 l2 : list A) : bool :=
  match l1, l2 with
  | [], [] => true
  | x :: l1', y :: l2' => eqb x y && list_eqb eqb l1' l2'
  | _, _ => false
  end.

(** [s == t] on text; a [str] equals a [unicode] when it is ASCII and has
    the same characters. *)
Definition pystring_eqb (s t : pystring) : bool :=
  match s, t with
  | Str a, Str b => list_eqb Byte.eqb a b
  | Unicode a, Unicode b => list_eqb N.eqb a b
  | Str a, Unicode b | Unicode b, Str a =>
      forallb is_ascii_byte a && list_eqb N.eqb (map Byte.to_N a) b
  end.

(** The values that occur as status codes and in the tuples of status
    codes: [None], an int, or a string. *)
Inductive pyval :=
| PyNone
| PyInt (z : Z)
| PyStr (s : pystring).

(** [a == b] *)
Definition py_eqb (a b : pyval) : bool :=
  match a, b with
  | PyNone, PyNone => true
  | PyInt x, PyInt y => (x =? y)%Z
  | PyStr s, PyStr t => pystring_eqb s t
  | _, _ => false
  end.

(** [v in tuple] *)
Definition py_in (v : pyval) (tuple : list pyval) : bool :=
  existsb (py_eqb v) tuple.

(** [v >= n] for an int [n], with the default ordering of CPython 2 for
    operands of different types: [None] is smaller than everything, and a
    number is smaller than a value of any other type. *)
Definition py_ge_int (v : pyval) (n : Z) : bool :=
  match v with
  | PyNone => false
  | PyInt z => (n <=? z)%Z
  | PyStr _ => true
  end.

(** The exception classes that matter here, with the Python 2 hierarchy.
    [TooManyConnectFailures] and [ClosedConnection] are declared in
    [plotly.exceptions]; of their bases only [Exception] is used. *)
Inductive ExcClass :=
| BaseException | KeyboardInterrupt | SystemExit
| Exception | StandardError
| AttributeError | TypeError | LookupError | IndexError
| ValueError | UnicodeError | UnicodeDecodeError | UnicodeEncodeError
| EnvironmentError | IOError | socket_error | socket_timeout
| HTTPException | BadStatusLine
| TimeoutError
| PlotlyError | TooManyConnectFailures | ClosedConnection.

Definition parent (c : ExcClass) : option ExcClass :=
  match c with
  | BaseException => None
  | KeyboardInterrupt | SystemExit | Exception => Some BaseException
  | StandardError | HTTPException | TimeoutError | PlotlyError => Some Exception
  | AttributeError | TypeError | LookupError | ValueError
  | EnvironmentError => Some StandardError
  | IndexError => Some LookupError
  | UnicodeError => Some ValueError
  | UnicodeDecodeError | UnicodeEncodeError => Some UnicodeError
  | IOError => Some EnvironmentError
  | socket_error => Some IOError
  | socket_timeout => Some socket_error
  | BadStatusLine => Some HTTPException
  | TooManyConnectFailures | ClosedConnection => Some PlotlyError
  end.

Definition ExcClass_eqb (c d : ExcClass) : bool :=
  match c, d with
  | BaseException, BaseException | KeyboardInterrupt, KeyboardInterrupt
  | SystemExit, SystemExit | Exception, Exception
  | StandardError, StandardError | AttributeError, AttributeError
  | TypeError, TypeError | LookupError, LookupError
  | IndexError, IndexError | ValueError, ValueError
  | UnicodeError, UnicodeError | UnicodeDecodeError, UnicodeDecodeError
  | UnicodeEncodeError, UnicodeEncodeError
  | EnvironmentError, EnvironmentError | IOError, IOError
  | socket_error, socket_error | socket_timeout, socket_timeout
  | HTTPException, HTTPException | BadStatusLine, BadStatusLine
  | TimeoutError, TimeoutError | PlotlyError, PlotlyError
  | TooManyConnectFailures, TooManyConnectFailures
  | ClosedConnection, ClosedConnection => true
  | _, _ => false
  end.

(** The class and its bases, nearest first (the hierarchy is 7 deep). *)
Fixpoint bases (depth : nat) (c : ExcClass) : list ExcClass :=
  c :: match depth with
       | O => []
       | S d => match parent c with Some p => bases d p | None => [] end
       end.

Definition issubclass (c d : ExcClass) : bool :=
  existsb (ExcClass_eqb d) (bases 7 c).

(** Exception instances: the class, and for [ClosedConnection] the message
    and the [status_code] keyword it is built with. *)
Inductive exn :=
| Exc (c : ExcClass)
| ClosedConnectionExc (message : pystring) (status_code : pyval).

Definition class_of (e : exn) : ExcClass :=
  match e with
  | Exc c => c
  | ClosedConnectionExc _ _ => ClosedConnection
  end.

(** [isinstance(e, classes)] for a tuple of classes. *)
Definition isinstance (e : exn) (classes : list ExcClass) : bool :=
  existsb (issubclass (class_of e)) classes.

(** What a call does: return a value or raise. *)
Inductive outcome (A : Type) :=
| Return (a : A)
| Raise (e : exn).
Arguments Return {A} a.
Arguments Raise {A} e.

(** [collections.deque(maxlen=...)]; [items] is the content from the left
    end to the right end, [maxlen = None] is an unbounded deque. *)
Record deque (A : Type) := mkDeque {
  items : list A;
  maxlen : option nat
}.

Definition new_deque (A : Type) (maxlen : option nat) : deque A :=
  mkDeque [] maxlen.

(** [bool(d)] *)
Definition nonempty {A : Type} (d : deque A) : bool :=
  match items d with [] => false | _ :: _ => true end.

(** [d.appendleft(x)]: the item is added at the left end, and when the
    deque is then longer than [maxlen] one item is removed from the right
    end. *)
Definition appendleft {A : Type} (x : A) (d : deque A) : deque A :=
  let l := x :: items d in
  match maxlen d with
  | Some m => if (m <? List.length l)%nat
              then mkDeque (removelast l) (maxlen d)
              else mkDeque l (maxlen d)
  | None => mkDeque l (maxlen d)
  end.

(** [d.pop()]: removes and returns the item at the right end; [IndexError]
    on an empty deque. *)
Definition pop {A : Type} (d : deque A) : outcome A * deque A :=
  match items d with
  | [] => (Raise (Exc IndexError), d)
  | x :: l => (Return (last l x), mkDeque (removelast (x :: l)) (maxlen d))
  end.

End Py.

(* ------------------------------------------------------------------ *)
(** * The StreamWriter class *)

Module StreamWriter.
Import Py.

(** Class attributes. *)
Definition linear_back_off_rate : Q := 1 # 4.      (* 0.250 seconds per retry *)
Definition linear_wait_max : Z := 16.              (* seconds *)
Definition exponential_back_off_base : Z := 5.
Definition exponential_wait_max : Z := 320.        (* seconds *)
Definition eol : list byte := [x0d; x0a].          (* '\r\n' *)

(** Objects the class only holds references to live in the environment:
    a thread is named by its index in [threads], a transport reader or
    writer by the number of the connection it belongs to. *)
Definition ThreadId := nat.
Definition Conn := nat.

(** Modelled from the spec: [utils.DisconnectThread] is not part of this
    file.  It is a thread with a stop flag, the [connected] attribute, set
    when the thread is made and cleared by [disconnect()]; [alive] is
    whether its target is still running. *)
Record Thread := mkThread {
  alive : bool;
  thread_connected : bool
}.

(** A call made on a transport writer. *)
Inductive WriterCall :=
| WrNoArg                       (* write() *)
| WrData (data : list byte)     (* write(data) *)
| WrClose.                      (* close() *)

(** What one read on the transport reader gives within its timeout. *)
Inductive ReadEvent :=
| Data (bs : list byte)
| TimedOut
| ReadRaises (e : exn).

Record StreamWriter := mkStreamWriter {
  token : list byte;
  ignore_status_codes : list pyval;
  ignore_errors : list ExcClass;
  queue_length : option nat;
  initial_write_timeout : Q;
  _queue : deque pystring;
  _last_beat : option Q;
  _connect_errors : Z;
  _last_connect_error : Q;
  _disconnections : Z;
  _last_disconnection : Q;
  _thread : option ThreadId;
  _reader : option Conn;
  _writer : option Conn;
  _error : option exn;
  _response : option (list byte);
  _chunk : option pystring;
  host : list byte;
  port : Z;
  _headers : list (list byte * list byte)
}.

Definition set_queue (v : deque pystring) (s : StreamWriter) : StreamWriter :=
  mkStreamWriter (token s) (ignore_status_codes s) (ignore_errors s)
    (queue_length s) (initial_write_timeout s) v (_last_beat s)
    (_connect_errors s) (_last_connect_error s) (_disconnections s)
    (_last_disconnection s) (_thread s) (_reader s) (_writer s) (_error s)
    (_response s) (_chunk s) (host s) (port s) (_headers s).

Definition set_last_beat (v : option Q) (s : StreamWriter) : StreamWriter :=
  mkStreamWriter (token s) (ignore_status_codes s) (ignore_errors s)
    (queue_length s) (initial_write_timeout s) (_queue s) v
    (_connect_errors s) (_last_connect_error s) (_disconnections s)
    (_last_disconnection s) (_thread s) (_reader s) (_writer s) (_error s)
    (_response s) (_chunk s) (host s) (port s) (_headers s).

Definition set_connect_errors (v : Z) (s : StreamWriter) : StreamWriter :=
  mkStreamWriter (token s) (ignore_status_codes s) (ignore_errors s)
    (queue_length s) (initial_write_timeout s) (_queue s) (_last_beat s) v
    (_last_connect_error s) (_disconnections s) (_last_disconnection s)
    (_thread s) (_reader s) (_writer s) (_error s) (_response s) (_chunk
    s) (host s) (port s) (_headers s).

Definition set_last_connect_error (v : Q) (s : StreamWriter) : StreamWriter :=
  mkStreamWriter (token s) (ignore_status_codes s) (ignore_errors s)
    (queue_length s) (initial_write_timeout s) (_queue s) (_last_beat s)
    (_connect_errors s) v (_disconnections s) (_last_disconnection s)
    (_thread s) (_reader s) (_writer s) (_error s) (_response s) (_chunk
    s) (host s) (port s) (_headers s).

Definition set_disconnections (v : Z) (s : StreamWriter) : StreamWriter :=
  mkStreamWriter (token s) (ignore_status_codes s) (ignore_errors s)
    (queue_length s) (initial_write_timeout s) (_queue s) (_last_beat s)
    (_connect_errors s) (_last_connect_error s) v (_last_disconnection s)
    (_thread s) (_reader s) (_writer s) (_error s) (_response s) (_chunk
    s) (host s) (port s) (_headers s).

Definition set_last_disconnection (v : Q) (s : StreamWriter) : StreamWriter :=
  mkStreamWriter (token s) (ignore_status_codes s) (ignore_errors s)
    (queue_length s) (initial_write_timeout s) (_queue s) (_last_beat s)
    (_connect_errors s) (_last_connect_error s) (_disconnections s) v
    (_thread s) (_reader s) (_writer s) (_error s) (_response s) (_chunk
    s) (host s) (port s) (_headers s).

Definition set_thread (v : option ThreadId) (s : StreamWriter) : StreamWriter :=
  mkStreamWriter (token s) (ignore_status_codes s) (ignore_errors s)
    (queue_length s) (initial_write_timeout s) (_queue s) (_last_beat s)
    (_connect_errors s) (_last_connect_error s) (_disconnections s)
    (_last_disconnection s) v (_reader s) (_writer s) (_error s)
    (_response s) (_chunk s) (host s) (port s) (_headers s).

Definition set_reader (v : option Conn) (s : StreamWriter) : StreamWriter :=
  mkStreamWriter (token s) (ignore_status_codes s) (ignore_errors s)
    (queue_length s) (initial_write_timeout s) (_queue s) (_last_beat s)
    (_connect_errors s) (_last_connect_error s) (_disconnections s)
    (_last_disconnection s) (_thread s) v (_writer s) (_error s)
    (_response s) (_chunk s) (host s) (port s) (_headers s).

Definition set_writer (v : option Conn) (s : StreamWriter) : StreamWriter :=
  mkStreamWriter (token s) (ignore_status_codes s) (ignore_errors s)
    (queue_length s) (initial_write_timeout s) (_queue s) (_last_beat s)
    (_connect_errors s) (_last_connect_error s) (_disconnections s)
    (_last_disconnection s) (_thread s) (_reader s) v (_error s)
    (_response s) (_chunk s) (host s) (port s) (_headers s).

Definition set_error (v : option exn) (s : StreamWriter) : StreamWriter :=
  mkStreamWriter (token s) (ignore_status_codes s) (ignore_errors s)
    (queue_length s) (initial_write_timeout s) (_queue s) (_last_beat s)
    (_connect_errors s) (_last_connect_error s) (_disconnections s)
    (_last_disconnection s) (_thread s) (_reader s) (_writer s) v
    (_response s) (_chunk s) (host s) (port s) (_headers s).

Definition set_response (v : option (list byte)) (s : StreamWriter) : StreamWriter :=
  mkStreamWriter (token s) (ignore_status_codes s) (ignore_errors s)
    (queue_length s) (initial_write_timeout s) (_queue s) (_last_beat s)
    (_connect_errors s) (_last_connect_error s) (_disconnections s)
    (_last_disconnection s) (_thread s) (_reader s) (_writer s) (_error s)
    v (_chunk s) (host s) (port s) (_headers s).

Definition set_chunk (v : option pystring) (s : StreamWriter) : StreamWriter :=
  mkStreamWriter (token s) (ignore_status_codes s) (ignore_errors s)
    (queue_length s) (initial_write_timeout s) (_queue s) (_last_beat s)
    (_connect_errors s) (_last_connect_error s) (_disconnections s)
    (_last_disconnection s) (_thread s) (_reader s) (_writer s) (_error s)
    (_response s) v (host s) (port s) (_headers s).

(** The environment: [clock k] is what the k-th call of [time.time()]
    returns, [sleeps] the arguments of [time.sleep] so far, [wire] the calls
    made on transport writers so far, [connect_at k] what the k-th
    [open_connection] does, [read_at k] what the k-th read does. *)
Record Env := mkEnv {
  clock : nat -> Q;
  ticks : nat;
  sleeps : list Q;
  wire : list (Conn * WriterCall);
  threads : list Thread;
  connect_at : nat -> outcome unit;
  connections : nat;
  read_at : nat -> ReadEvent;
  nreads : nat
}.

Definition set_ticks (v : nat) (e : Env) : Env :=
  mkEnv (clock e) v (sleeps e) (wire e) (threads e) (connect_at e)
    (connections e) (read_at e) (nreads e).

Definition set_sleeps (v : list Q) (e : Env) : Env :=
  mkEnv (clock e) (ticks e) v (wire e) (threads e) (connect_at e)
    (connections e) (read_at e) (nreads e).

Definition set_wire (v : list (Conn * WriterCall)) (e : Env) : Env :=
  mkEnv (clock e) (ticks e) (sleeps e) v (threads e) (connect_at e)
    (connections e) (read_at e) (nreads e).

Definition set_threads (v : list Thread) (e : Env) : Env :=
  mkEnv (clock e) (ticks e) (sleeps e) (wire e) v (connect_at e)
    (connections e) (read_at e) (nreads e).

Definition set_connections (v : nat) (e : Env) : Env :=
  mkEnv (clock e) (ticks e) (sleeps e) (wire e) (threads e) (connect_at e)
    v (read_at e) (nreads e).

Definition set_nreads (v : nat) (e : Env) : Env :=
  mkEnv (clock e) (ticks e) (sleeps e) (wire e) (threads e) (connect_at e)
    (connections e) (read_at e) v.

(** ** Methods as computations *)

Definition M (A : Type) : Type :=
  StreamWriter -> Env -> outcome A * StreamWriter * Env.

Definition ret {A : Type} (a : A) : M A := fun s e => (Return a, s, e).

Definition raise {A : Type} (x : exn) : M A := fun s e => (Raise x, s, e).

Definition bind {A B : Type} (m : M A) (k : A -> M B) : M B :=
  fun s e =>
    match m s e with
    | (Return a, s', e') => k a s' e'
    | (Raise x, s', e') => (Raise x, s', e')
    end.

Definition lift {A : Type} (o : outcome A) : M A := fun s e => (o, s, e).

Declare Scope py_scope.
Delimit Scope py_scope with py.
Notation "x <- m ;; k" := (bind m (fun x => k))
  (at level 61, m at next level, right associativity) : py_scope.
Notation "m ;; k" := (bind m (fun _ => k))
  (at level 61, right associativity) : py_scope.
Local Open Scope py_scope.

(** [self.attr] and [self.attr = v] *)
Definition get {A : Type} (attr : StreamWriter -> A) : M A :=
  fun s e => (Return (attr s), s, e).

Definition update (f : StreamWriter -> StreamWriter) : M unit :=
  fun s e => (Return tt, f s, e).

Definition time_time : M Q :=
  fun s e => (Return (clock e (ticks e)), s, set_ticks (S (ticks e)) e).

Definition time_sleep (seconds : Q) : M unit :=
  fun s e => (Return tt, s, set_sleeps (sleeps e ++ [seconds]) e).

(** [a > b] on numbers *)
Definition Qgtb (a b : Q) : bool := negb (Qle_bool a b).

(** [self._writer.<call>]: [AttributeError] when [_writer] is [None].
    The writer is the stream writer [open_connection] gives, whose method
    is [write(self, data)]: a [write()] without the data is refused with
    [TypeError] when it is called, and nothing reaches the transport. *)
Definition writer_call (c : WriterCall) : M unit :=
  fun s e =>
    match _writer s with
    | Some w =>
        match c with
        | WrNoArg => (Raise (Exc TypeError), s, e)
        | WrData _ | WrClose =>
            (Return tt, s, set_wire (wire e ++ [(w, c)]) e)
        end
    | None => (Raise (Exc AttributeError), s, e)
    end.

(** [self._queue.pop()] *)
Definition queue_pop : M pystring :=
  fun s e =>
    let '(r, q) := pop (_queue s) in (r, set_queue q s, e).

(** Byte-string literals. *)
Definition b (s : string) : list byte := list_byte_of_string s.

Section Collaborators.

(** Collaborators outside this file: the structured payloads and
    [json.dumps(chunk, cls=utils.PlotlyJSONEncoder)]; the parse of a raw
    response, followed by [response.read()] and [response.status]
    ([utils.HttpResponseParser]); and the configured streaming domain. *)
Variable Obj : Type.
Variable json_dumps : Obj -> outcome pystring.
Variable read_response : list byte -> outcome (pystring * Z).
Variable plotly_streaming_domain : list byte.

(** The keyword arguments of the constructor; [None] leaves the default. *)
Record InitArgs := mkInitArgs {
  kw_ignore_status_codes : option (list pyval);
  kw_ignore_errors : option (list ExcClass);
  kw_queue_length : option (option nat);
  kw_initial_write_timeout : option Q
}.

Definition no_kwargs : InitArgs := mkInitArgs None None None None.

Definition default_ignore_status_codes : list pyval := [PyNone; PyInt 200].
Definition default_ignore_errors : list ExcClass := [].
Definition default_queue_length : option nat := Some 500%nat.
Definition default_initial_write_timeout : Q := 4 # 1.

Definition or_default {A : Type} (kw : option A) (d : A) : A :=
  match kw with Some v => v | None => d end.

(** [StreamWriter(token, **kw)].  The header dict is listed in the order
    of its literal. *)
Definition __init__ (token : list byte) (kw : InitArgs) (e : Env)
  : StreamWriter * Env :=
  let queue_length := or_default (kw_queue_length kw) default_queue_length in
  let t1 := clock e (ticks e) in
  let t2 := clock e (S (ticks e)) in
  (mkStreamWriter token
     (or_default (kw_ignore_status_codes kw) default_ignore_status_codes)
     (or_default (kw_ignore_errors kw) default_ignore_errors)
     queue_length
     (or_default (kw_initial_write_timeout kw) default_initial_write_timeout)
     (new_deque pystring queue_length)
     None
     0%Z t1
     0%Z t2
     None None None
     None None
     None
     plotly_streaming_domain 80%Z
     [(b "Plotly-Streamtoken", token); (b "Host", plotly_streaming_domain);
      (b "Transfer-Encoding", b "chunked"); (b "Content-Type", b "text/plain")],
   set_ticks (S (S (ticks e))) e).

Definition _reset : M unit :=
  update (set_response None) ;;
  update (set_error None) ;;
  update (set_last_beat None) ;;
  update (set_reader None) ;;
  update (set_writer None).

Definition _back_off_linearly : M unit :=
  now <- time_time ;;
  last <- get _last_connect_error ;;
  (if Qgtb (now - last) (inject_Z (linear_wait_max * 2))
   then update (set_connect_errors 0%Z)
   else ret tt) ;;
  update (set_last_connect_error now) ;;
  update (fun s => set_connect_errors (_connect_errors s + 1)%Z s) ;;
  n <- get _connect_errors ;;
  let wait_time := inject_Z n * linear_back_off_rate in
  if Qgtb wait_time (inject_Z linear_wait_max)
  then raise (Exc TooManyConnectFailures)
  else time_sleep wait_time.

(** [base ** n] is an int for [n >= 0] and a float below. *)
Definition py_pow (base n : Z) : Q := Qpower (inject_Z base) n.

Definition _back_off_exponentially : M unit :=
  now <- time_time ;;
  last <- get _last_disconnection ;;
  (if Qgtb (now - last) (inject_Z (exponential_wait_max * 2))
   then update (set_disconnections 0%Z)
   else ret tt) ;;
  update (set_last_disconnection now) ;;
  update (fun s => set_disconnections (_disconnections s + 1)%Z s) ;;
  n <- get _disconnections ;;
  let wait_time := py_pow exponential_back_off_base n in
  if Qgtb wait_time (inject_Z exponential_wait_max)
  then raise (Exc TooManyConnectFailures)
  else time_sleep wait_time.

(** The [try] block of [_raise_for_response]: the message and the status of
    the parsed response, or [('', None)] when parsing raises
    [AttributeError] or [BadStatusLine]. *)
Definition message_and_status (raw : list byte) : M (pystring * pyval) :=
  match read_response raw with
  | Return (message, status) => ret (message, PyInt status)
  | Raise x =>
      if isinstance x [AttributeError; BadStatusLine]
      then ret (Str [], PyNone)
      else raise x
  end.

Definition _raise_for_response : M unit :=
  r <- get _response ;;
  match r with
  | None => ret tt
  | Some raw =>
      ms <- message_and_status raw ;;
      let '(message, status) := ms in
      ignored <- get ignore_status_codes ;;
      if negb (py_in status ignored)
      then raise (ClosedConnectionExc message status)
      else if py_ge_int status 500
           then _back_off_linearly
           else _back_off_exponentially
  end.

Definition _raise_for_error : M unit :=
  err <- get _error ;;
  match err with
  | None => ret tt
  | Some x =>
      ignored <- get ignore_errors ;;
      if negb (isinstance x ignored)
      then raise x
      else if isinstance x [socket_error]
           then _back_off_linearly
           else ret tt
  end.

(** The [connected] property: [self._thread and self._thread.isAlive()]. *)
Definition connected : M bool :=
  fun s e =>
    (Return match _thread s with
            | None => false
            | Some t => match nth_error (threads e) t with
                        | Some th => alive th
                        | None => false
                        end
            end, s, e).

(** Creating and starting the [DisconnectThread]. *)
Definition start_thread : M unit :=
  fun s e =>
    (Return tt, set_thread (Some (List.length (threads e))) s,
     set_threads (threads e ++ [mkThread true true]) e).

Definition open : M unit :=
  c <- connected ;;
  if c then ret tt
  else
    _raise_for_response ;;
    _raise_for_error ;;
    _reset ;;
    start_thread.

(** The argument of [write]: text, or a structured value. *)
Inductive chunk_arg :=
| Text (s : pystring)
| Object (o : Obj).

Definition write (chunk : chunk_arg) : M unit :=
  c <- connected ;;
  (if negb c then open else ret tt) ;;
  s <- match chunk with
       | Text s => ret s
       | Object o => lift (json_dumps o)
       end ;;
  update (fun self => set_queue (appendleft (add_str s [x0a]) (_queue self)) self).

Fixpoint update_nth {A : Type} (n : nat) (f : A -> A) (l : list A) : list A :=
  match l, n with
  | [], _ => []
  | x :: l', O => f x :: l'
  | x :: l', S n' => x :: update_nth n' f l'
  end.

(** [self._thread.disconnect()] *)
Definition disconnect_thread : M unit :=
  fun s e =>
    match _thread s with
    | None => (Raise (Exc AttributeError), s, e)
    | Some t =>
        (Return tt, s,
         set_threads
           (update_nth t (fun th => mkThread (alive th) false) (threads e)) e)
    end.

Definition close : M unit :=
  c <- connected ;;
  if negb c then ret tt
  else disconnect_thread ;; update (set_thread None).

(** Truth value of [self._last_beat]: [None] and [0.0] are false. *)
Definition truthy (t : option Q) : bool :=
  match t with
  | None => false
  | Some q => negb (Qeq_bool q 0)
  end.

Definition _check_pulse : M unit :=
  beat <- get _last_beat ;;
  beat' <- (if truthy beat
            then ret (match beat with Some q => q | None => 0 end)
            else time_time) ;;
  update (set_last_beat (Some beat')) ;;
  now <- time_time ;;
  if Qgtb (now - beat') (inject_Z 30)
  then
    update (set_last_beat (Some now)) ;;
    q <- get _queue ;;
    if negb (nonempty q) then write (Text (Str [])) else ret tt
  else ret tt.

Fixpoint write_headers (headers : list (list byte * list byte)) : M unit :=
  match headers with
  | [] => ret tt
  | (header, header_value) :: rest =>
      writer_call (WrData (header ++ b ": " ++ header_value)) ;;
      writer_call (WrData eol) ;;
      write_headers rest
  end.

Definition _initial_write : M unit :=
  writer_call (WrData (b "POST / HTTP/1.1")) ;;
  writer_call (WrData eol) ;;
  headers <- get _headers ;;
  write_headers headers ;;
  writer_call (WrData eol).

(** ['{}\r\n{}\r\n'.format(hex_len, chunk)]: the result is a [str]; a
    [unicode] chunk is converted with the ASCII codec. *)
Definition format_message (hex_len : list byte) (chunk : pystring)
  : outcome (list byte) :=
  match chunk with
  | Str bs => Return (hex_len ++ eol ++ bs ++ eol)
  | Unicode cps =>
      if forallb is_ascii_cp cps
      then Return (hex_len ++ eol ++ map byte_of_cp cps ++ eol)
      else Raise (Exc UnicodeEncodeError)
  end.

(** [message.encode('utf-8')] on a [str]: it is first decoded with the
    ASCII codec. *)
Definition encode_utf8 (message : list byte) : outcome (list byte) :=
  if forallb is_ascii_byte message
  then Return message
  else Raise (Exc UnicodeDecodeError).

Definition _write : M unit :=
  q <- get _queue ;;
  if nonempty q
  then
    chunk <- queue_pop ;;
    update (set_chunk (Some chunk)) ;;
    let hex_len := format_x (len chunk) in
    writer_call WrNoArg ;;
    message <- lift (format_message hex_len chunk) ;;
    data <- lift (encode_utf8 message) ;;
    writer_call (WrData data)
  else ret tt.

(** [_read(timeout)]: the data read, or [None] on a timeout. *)
Definition _read (timeout : Q) : M (option (list byte)) :=
  fun s e =>
    match _reader s with
    | None => (Raise (Exc AttributeError), s, e)
    | Some _ =>
        let e' := set_nreads (S (nreads e)) e in
        match read_at e (nreads e) with
        | Data bs => (Return (Some bs), s, e')
        | TimedOut => (Return None, s, e')
        | ReadRaises x => (Raise x, s, e')
        end
    end.

(** [trollius.open_connection(host, port)] within its 60 s timeout. *)
Definition open_connection : M (Conn * Conn) :=
  fun s e =>
    let e' := set_connections (S (connections e)) e in
    match connect_at e (connections e) with
    | Return _ => (Return (connections e, connections e), s, e')
    | Raise x => (Raise x, s, e')
    end.

(** [current_thread.connected] *)
Definition thread_flag (t : ThreadId) : M bool :=
  fun s e =>
    (Return match nth_error (threads e) t with
            | Some th => thread_connected th
            | None => false
            end, s, e).

(** Whether the coroutine has returned, or is still in its loop. *)
Inductive progress := Done | Running.

Definition is_None {A : Type} (o : option A) : bool :=
  match o with None => true | Some _ => false end.

(** The [while] loop of [_read_write], for at most [fuel] tests of its
    condition. *)
Fixpoint read_write_loop (fuel : nat) (current_thread : ThreadId) : M progress :=
  match fuel with
  | O => ret Running
  | S fuel' =>
      r <- get _response ;;
      c <- thread_flag current_thread ;;
      if is_None r && c
      then
        _check_pulse ;;
        r' <- _read (1 # 100) ;;
        update (set_response r') ;;
        _write ;;
        read_write_loop fuel' current_thread
      else ret Done
  end.

(** [try: body except Exception as e: handler(e) finally: final] around a
    body that may still be running when the fuel is spent. *)
Definition try_except_finally (body : M progress) (handler : exn -> M unit)
    (final : M unit) : M progress :=
  fun s e =>
    match body s e with
    | (Return Running, s', e') => (Return Running, s', e')
    | (Return Done, s', e') => (final ;; ret Done) s' e'
    | (Raise x, s', e') =>
        if isinstance x [Exception]
        then (handler x ;; final ;; ret Done) s' e'
        else (final ;; raise x) s' e'
    end.

(** The [try] suite of [_read_write]. *)
Definition _read_write_try (fuel : nat) (current_thread : ThreadId) : M progress :=
  rw <- open_connection ;;
  update (set_reader (Some (fst rw))) ;;
  update (set_writer (Some (snd rw))) ;;
  _initial_write ;;
  timeout <- get initial_write_timeout ;;
  r <- _read timeout ;;
  update (set_response r) ;;
  read_write_loop fuel current_thread.

Definition _read_write (fuel : nat) (current_thread : ThreadId) : M progress :=
  try_except_finally
    (_read_write_try fuel current_thread)
    (fun x => update (set_error (Some x)))
    (w <- get _writer ;;
     if is_None w then ret tt else writer_call WrClose).

(** [_thread_func]: the thread runs the coroutine to completion and is
    no longer alive once it has returned or raised. *)
Definition thread_exit (t : ThreadId) : M unit :=
  fun s e =>
    (Return tt, s,
     set_threads
       (update_nth t (fun th => mkThread false (thread_connected th))
          (threads e)) e).

Definition _thread_func (fuel : nat) (current_thread : ThreadId) : M progress :=
  fun s e =>
    match _read_write fuel current_thread s e with
    | (Return Running, s', e') => (Return Running, s', e')
    | (Return Done, s', e') => (thread_exit current_thread ;; ret Done) s' e'
    | (Raise x, s', e') => (thread_exit current_thread ;; raise x) s' e'
    end.

(** A caller that writes the chunks of a list one after the other. *)
Fixpoint writes (chunks : list chunk_arg) : M unit :=
  match chunks with
  | [] => ret tt
  | chunk :: rest => write chunk ;; writes rest
  end.

(** What [write] puts in the queue for a chunk. *)
Definition payload (chunk : chunk_arg) : outcome pystring :=
  match chunk with
  | Text s => Return s
  | Object o => json_dumps o
  end.

Definition queued (s : pystring) : pystring := add_str s [x0a].

End Collaborators.

(** The object and the environment after [n] consecutive calls of a method,
    whether each of them returned or raised. *)
Fixpoint after_calls {A : Type} (n : nat) (m : M A) (s : StreamWriter) (e : Env)
  : StreamWriter * Env :=
  match n with
  | O => (s, e)
  | S n' =>
      let '(s1, e1) := after_calls n' m s e in
      let '(_, s2, e2) := m s1 e1 in (s2, e2)
  end.

End StreamWriter.

(* ------------------------------------------------------------------ *)
(** * Reading one chunk of the chunked transfer coding *)

Module Http.

(** The bytes before the first CR LF, and what follows it. *)
Fixpoint size_line (bs : list byte) : option (list byte * list byte) :=
  match bs with
  | [] => None
  | c :: rest =>
      if Byte.eqb c x0d
      then match rest with
           | d :: rest' => if Byte.eqb d x0a then Some ([], rest') else None
           | [] => None
           end
      else match size_line rest with
           | Some (line, rest') => Some (c :: line, rest')
           | None => None
           end
  end.

(** The number written by a string of hexadecimal digits. *)
Definition hex_value (digits : list byte) : option nat :=
  match NilZero.uint_of_string (string_of_list_byte digits) with
  | Some d => Some (N.to_nat (N.of_hex_uint d))
  | None => None
  end.

(** A receiver's reading of one chunk: the hexadecimal length up to CR LF,
    then that many bytes of data, then CR LF.  The result is the data and
    the bytes after the chunk. *)
Definition decode_chunk (bs : list byte) : option (list byte * list byte) :=
  match size_line bs with
  | None => None
  | Some (digits, rest) =>
      match hex_value digits with
      | None => None
      | Some n =>
          if (List.length rest <? n)%nat then None
          else match skipn n rest with
               | c :: d :: rest' =>
                   if Byte.eqb c x0d && Byte.eqb d x0a
                   then Some (firstn n rest, rest')
                   else None
               | _ => None
               end
      end
  end.

End Http.

(* ------------------------------------------------------------------ *)
(** * The legacy Stream class *)

Module Stream.
Import Py.

(** The default of the [reconnect_on] keyword of [Stream.write] and
    [Stream.heartbeat]: [(200, '', 408)].  The calls themselves go to
    [chunked_requests.Stream], which is not part of this file. *)
Definition reconnect_on_default : list pyval :=
  [PyInt 200; PyStr (Str []); PyInt 408].

End Stream.

(* ------------------------------------------------------------------ *)
(** * A concrete setting for examples *)

Module Demo.
Import Py StreamWriter.

(** Structured payloads: one value, the empty JSON object. *)
Definition Obj : Type := unit.
Definition json_dumps (o : Obj) : outcome pystring := Return (Str (b "{}")).

Definition digit (c : byte) : option Z :=
  let n := Z.of_N (Byte.to_N c) in
  if ((48 <=? n) && (n <=? 57))%Z then Some (n - 48)%Z else None.

(** A response parser that reads the status of a line [HTTP/1.1 ddd...] and
    gives an empty body; [BadStatusLine] on anything else. *)
Definition read_response (raw : list byte) : outcome (pystring * Z) :=
  match raw with
  | "H" :: "T" :: "T" :: "P" :: "/" :: "1" :: "." :: "1" :: " "
    :: d1 :: d2 :: d3 :: _ =>
      match digit d1, digit d2, digit d3 with
      | Some a, Some b, Some c => Return (Str [], (100 * a + 10 * b + c)%Z)
      | _, _, _ => Raise (Exc BadStatusLine)
      end
  | _ => Raise (Exc BadStatusLine)
  end%byte.

Definition plotly_streaming_domain : list byte := b "stream.plot.ly".

(** An environment whose clock advances one second per reading, where
    connecting succeeds and reads time out. *)
Definition env0 : Env :=
  mkEnv (fun k => inject_Z (Z.of_nat k)) 0 [] [] []
        (fun _ => Return tt) 0 (fun _ => TimedOut) 0.

Definition token : list byte := b "tok".

Definition write := StreamWriter.write json_dumps read_response.
Definition writes := StreamWriter.writes json_dumps read_response.
Definition open := StreamWriter.open read_response.
Definition _check_pulse := StreamWriter._check_pulse json_dumps read_response.
Definition _thread_func := StreamWriter._thread_func json_dumps read_response.
Definition _raise_for_response := StreamWriter._raise_for_response read_response.
Definition __init__ := StreamWriter.__init__ plotly_streaming_domain.

(** A handle made with the default arguments, and one of capacity 2. *)
Definition handle0 : StreamWriter * Env := __init__ token no_kwargs env0.
Definition handle2 : StreamWriter * Env :=
  __init__ token (mkInitArgs None None (Some (Some 2%nat)) None) env0.

End Demo.

(* ------------------------------------------------------------------ *)
(** * Notions used in the statements *)

Import Py StreamWriter.
Local Open Scope py_scope.

(** The three parts of what a computation gives. *)
Definition result_of {A : Type} (r : outcome A * StreamWriter * Env) : outcome A :=
  fst (fst r).
Definition object_of {A : Type} (r : outcome A * StreamWriter * Env) : StreamWriter :=
  snd (fst r).
Definition env_of {A : Type} (r : outcome A * StreamWriter * Env) : Env :=
  snd r.

(** [keeps attr m]: running [m] leaves the attribute [attr] of the object as
    it was, whether [m] returns or raises. *)
Definition keeps {A B : Type} (attr : StreamWriter -> A) (m : M B) : Prop :=
  forall s e, attr (object_of (m s e)) = attr s.

(** A deque within its bound. *)
Definition bounded {A : Type} (d : deque A) : Prop :=
  match maxlen d with
  | Some m => (List.length (items d) <= m)%nat
  | None => True
  end.

(** The bytes the last two statements of [_write] make of a chunk: the
    message, encoded. *)
Definition chunk_message (chunk : pystring) : outcome (list byte) :=
  match format_message (format_x (len chunk)) chunk with
  | Return message => encode_utf8 message
  | Raise x => Raise x
  end.

(** The handle has a live thread. *)
Definition is_connected (s : StreamWriter) (e : Env) : Prop :=
  result_of (connected s e) = Return true.

(** No reset between consecutive calls: the [k+1]-th call comes at most
    [window] seconds after the [k]-th. *)
Definition no_reset (window : Z) (e : Env) (calls : nat) : Prop :=
  forall k, (1 <= k < calls)%nat ->
    clock e (ticks e + k) - clock e (ticks e + k - 1) <= inject_Z window.

(** The message and status that [_raise_for_response] works with. *)
Definition parsed (read_response : list byte -> outcome (pystring * Z))
    (raw : list byte) (message : pystring) (status : pyval) : Prop :=
  match read_response raw with
  | Return (m, st) => message = m /\ status = PyInt st
  | Raise x =>
      isinstance x [AttributeError; BadStatusLine] = true /\
      message = Str [] /\ status = PyNone
  end.

(** A byte that is ASCII and not a carriage return. *)
Definition plain (c : byte) : Prop :=
  Byte.eqb c x0d = false /\ is_ascii_byte c = true.

(** The bytes of an ASCII text. *)
Definition is_ascii (s : pystring) : bool :=
  match s with
  | Str bs => forallb is_ascii_byte bs
  | Unicode cps => forallb is_ascii_cp cps
  end.

Definition ascii_bytes (s : pystring) : list byte :=
  match s with
  | Str bs => bs
  | Unicode cps => map byte_of_cp cps
  end.

(** The beat [_check_pulse] compares with: the recorded one, or a fresh
    reading of the clock when none is recorded. *)
Definition beat_of (s : StreamWriter) (e : Env) : Q :=
  if truthy (_last_beat s)
  then match _last_beat s with Some q => q | None => 0 end
  else clock e (ticks e).

Definition after_beat (s : StreamWriter) (e : Env) : Env :=
  if truthy (_last_beat s) then e else set_ticks (S (ticks e)) e.

Definition now_of (s : StreamWriter) (e : Env) : Q :=
  clock e (ticks (after_beat s e)).

Section PulseRun.
Variable Obj : Type.
Variable json_dumps : Obj -> outcome pystring.
Variable read_response : list byte -> outcome (pystring * Z).

(** A run of the handle seen from the heartbeat: calls of [_check_pulse]
    by the worker of a connected handle, some of which enqueue the
    keep-alive, and in between anything that leaves [_last_beat] alone or
    clears it ([write], [_write], reads, [_reset]) while the clock is read
    further.  The list holds the instants recorded by the calls that
    enqueued, latest first. *)
Inductive pulse_run (s0 : StreamWriter) (e0 : Env)
  : StreamWriter -> Env -> list Q -> Prop :=
| run_start : pulse_run s0 e0 s0 e0 []
| run_quiet s e hb :
    pulse_run s0 e0 s e hb ->
    result_of (connected s e) = Return true ->
    _queue (object_of (_check_pulse json_dumps read_response s e)) = _queue s ->
    pulse_run s0 e0 (object_of (_check_pulse json_dumps read_response s e)) (env_of (_check_pulse json_dumps read_response s e)) hb
| run_beat s e hb now :
    pulse_run s0 e0 s e hb ->
    result_of (connected s e) = Return true ->
    _queue (object_of (_check_pulse json_dumps read_response s e)) <> _queue s ->
    _last_beat (object_of (_check_pulse json_dumps read_response s e)) = Some now ->
    pulse_run s0 e0 (object_of (_check_pulse json_dumps read_response s e)) (env_of (_check_pulse json_dumps read_response s e))
              (now :: hb)
| run_other s e hb s' e' :
    pulse_run s0 e0 s e hb ->
    _last_beat s' = _last_beat s \/ _last_beat s' = None ->
    clock e' = clock e ->
    (ticks e <= ticks e')%nat ->
    pulse_run s0 e0 s' e' hb.

End PulseRun.

Definition monotone (clock : nat -> Q) : Prop :=
  forall i j, (i <= j)%nat -> clock i <= clock j.

(** More than 30 seconds between any two instants of a list, latest first. *)
Definition spaced (hb : list Q) : Prop :=
  ForallOrdPairs (fun later earlier => 30 < later - earlier) hb.

(** The two failure counters with the instants of the last failures. *)
Definition failure_counters (s : StreamWriter) : Z * Q * Z * Q :=
  (_connect_errors s, _last_connect_error s,
   _disconnections s, _last_disconnection s).

(** The request line and the header lines that open the chunked request,
    as one byte string. *)
Definition request_head (headers : list (list byte * list byte)) : list byte :=
  b "POST / HTTP/1.1" ++ eol
  ++ List.concat (map (fun hv => fst hv ++ b ": " ++ snd hv ++ eol) headers)
  ++ eol.

(** The bytes a sequence of transport calls hands over, in order. *)
Definition sent_bytes (calls : list (Conn * WriterCall)) : list byte :=
  List.concat (map (fun c => match snd c with WrData data => data | _ => [] end) calls).

(* ------------------------------------------------------------------ *)
(** * The REST helpers: errors and string operations *)

Module Rest.

(** The exceptions these functions raise.  A message is kept through its
    variable parts. *)
Inductive error :=
| IndexError                      (* index out of range *)
| ValueError                      (* wrong number of values to unpack,
                                     max() of an empty sequence *)
| InputError_required             (* neither `grid` nor `grid_url` *)
| InputError_both                 (* both `grid` and `grid_url` *)
| InputError_row (row_i len_row n_columns : nat)
                                  (* a row of the wrong length *)
| PlotlyError_url                 (* a url that is not of the domain *)
| PlotlyError_format              (* invalid image format *)
| PlotlyError_pdf                 (* no pdf in a notebook *)
| PlotlyError_response (message : list byte)
                                  (* the error reported by the server *)
| PlotlyError_translate           (* the response could not be read *)
| PlotlyEmptyDataError            (* figure_or_data of a wrong type *)
| TypeError                       (* an operation on a value of a wrong type *)
| AttributeError                  (* an attribute of None *)
| PlotlyLocalCredentialsError     (* no user name or no api key *)
| Other (name : list byte).       (* raised by a collaborator *)

Inductive result (A : Type) :=
| Ok (a : A)
| Fail (e : error).
Arguments Ok {A} a.
Arguments Fail {A} e.

(** Python [str] values are byte strings. *)
Definition str := list byte.

Definition slash : byte := "/"%byte.

(** [s[-1]] *)
Definition last_char (s : str) : result byte :=
  match s with
  | [] => Fail IndexError
  | c :: rest => Ok (last rest c)
  end.

(** [s.split(sep)] for a separator of one character: the pieces between
    the separators, at least one. *)
Fixpoint split (sep : byte) (s : str) : list str :=
  match s with
  | [] => [[]]
  | c :: rest =>
      if Byte.eqb c sep then [] :: split sep rest
      else match split sep rest with
           | piece :: pieces => (c :: piece) :: pieces
           | [] => [[c]]
           end
  end.

(** [sep.join(pieces)] *)
Fixpoint join (sep : str) (pieces : list str) : str :=
  match pieces with
  | [] => []
  | piece :: rest =>
      match rest with
      | [] => piece
      | _ :: _ => piece ++ sep ++ join sep rest
      end
  end.

(** [s.startswith(prefix)] *)
Fixpoint starts_with (prefix s : str) : bool :=
  match prefix, s with
  | [], _ => true
  | p :: prefix', c :: s' => Byte.eqb p c && starts_with prefix' s'
  | _ :: _, [] => false
  end.

(** [s.replace(old, new)]: the occurrences of [old] are replaced from left
    to right, without overlap; an empty [old] matches before every
    character and at the end. *)
Fixpoint replace_from (old new : str) (skip : nat) (s : str) : str :=
  match s with
  | [] => []
  | c :: rest =>
      match skip with
      | S k => replace_from old new k rest
      | O => if starts_with old s
             then new ++ replace_from old new (List.length old - 1) rest
             else c :: replace_from old new 0 rest
      end
  end.

Definition replace (old new s : str) : str :=
  match old with
  | [] => new ++ flat_map (fun c => c :: new) s
  | _ :: _ => replace_from old new 0 s
  end.

(** ** iplot: the user name and the plot id in the url of a plot

    [urlsplit = res.split('/')], then
    [username, plot_id = urlsplit[-2][1:], urlsplit[-1]]. *)
Definition iplot_ids (res : str) : result (str * str) :=
  let urlsplit := split slash res in
  match rev urlsplit with
  | plot_id :: before :: _ => Ok (tl before, plot_id)
  | _ => Fail IndexError
  end.

(** ** get_figure: the owner and the id of the file in a url

    The statements of [get_figure] for [file_id is None], with
    [plotly_rest_url = get_config()['plotly_domain']]: the url has to
    start with the domain; then
    [file_owner = url.replace(head, "").split('/')[0]] and
    [file_id = url.replace(head, "").split('/')[1]] for
    [head = plotly_rest_url + "/~"]. *)
Definition get_figure_ids (plotly_rest_url url : str) : result (str * str) :=
  if negb (list_eqb Byte.eqb (firstn (List.length plotly_rest_url) url)
                    plotly_rest_url)
  then Fail PlotlyError_url
  else
    let head := plotly_rest_url ++ b "/~" in
    match split slash (replace head [] url) with
    | [] => Fail IndexError
    | file_owner :: _ =>
        match split slash (replace head [] url) with
        | _ :: file_id :: _ => Ok (file_owner, file_id)
        | _ => Fail IndexError
        end
    end.

(** ** file_ops.mkdirs: the path sent for a folder path

    [if folder_path[-1] == '/': folder_path = folder_path[0:-1]] *)
Definition mkdirs_path (folder_path : str) : result str :=
  match last_char folder_path with
  | Fail e => Fail e
  | Ok c => if Byte.eqb c slash then Ok (removelast folder_path)
            else Ok folder_path
  end.

(** ** grid_ops.upload: the parent path and the file name

    The statements of [upload] before the grid is serialised: a trailing
    slash is dropped, the name is the last piece of the path and the parent
    path the pieces before it; the folders are made only for a non-empty
    parent path.  The result is the parent path, the name, and the path
    [mkdirs] sends when it is called. *)
Definition upload_paths (filename : str) : result (str * str * option str) :=
  match last_char filename with
  | Fail e => Fail e
  | Ok c =>
      let filename := if Byte.eqb c slash then removelast filename else filename in
      let paths := split slash filename in
      let parent_path := join [slash] (removelast paths) in
      let filename := last paths [] in
      match parent_path with
      | [] => Ok (parent_path, filename, None)
      | _ :: _ =>
          match mkdirs_path parent_path with
          | Fail e => Fail e
          | Ok sent => Ok (parent_path, filename, Some sent)
          end
      end
  end.

(** ** _api_v2.parse_grid_id_args

    [grid] is [None] or a grid, of which only [grid.id] is read; the path of
    a url is given by [urlparse]. *)
Section ParseGridId.
Variable url_path : str -> str.     (* urlparse(grid_url).path *)

Definition parse_grid_id_args (grid : option (option str)) (grid_url : option str)
  : result (option str) :=
  let id_from_grid := match grid with Some g => g | None => None end in
  let supplied_arg_names :=
    (match id_from_grid with Some _ => [b "grid"] | None => [] end)
    ++ (match grid_url with Some _ => [b "grid_url"] | None => [] end) in
  match supplied_arg_names with
  | [] => Fail InputError_required
  | _ :: _ :: _ => Fail InputError_both
  | [supplied_arg_name] =>
      if list_eqb Byte.eqb supplied_arg_name (b "grid_url")
      then match grid_url with
           | None => Fail AttributeError
           | Some url =>
               let path := url_path url in
               match firstn 2 (split slash (replace (b "/~") [] path)) with
               | [file_owner; file_id] =>
                   Ok (Some (file_owner ++ b ":" ++ file_id))
               | _ => Fail ValueError
               end
           end
      else match grid with
           | None => Fail AttributeError
           | Some g => Ok g
           end
  end.

End ParseGridId.

(** ** grid_ops.append_rows: the check of the rows and the local update

    Of a grid only its columns are used, and of a column only [data]; a
    grid is the list of the [data] lists of its columns.  Both parts are
    under [if grid:], so they are run for a grid that is given and has a
    column. *)
Section Rows.
Variable cell : Type.
Variable empty_string : cell.      (* '' *)

(** The loop over [enumerate(rows)] from row [row_i] on. *)
Fixpoint check_rows_from (row_i n_columns : nat) (rows : list (list cell))
  : result unit :=
  match rows with
  | [] => Ok tt
  | row :: rest =>
      if (List.length row =? n_columns)%nat
      then check_rows_from (S row_i) n_columns rest
      else Fail (InputError_row row_i (List.length row) n_columns)
  end.

Definition check_rows (grid : list (list cell)) (rows : list (list cell))
  : result unit :=
  let n_columns := List.length grid in
  check_rows_from 0 n_columns rows.

(** [max(lengths)] *)
Definition py_max (lengths : list nat) : result nat :=
  match lengths with
  | [] => Fail ValueError
  | n :: rest => Ok (fold_left Nat.max rest n)
  end.

(** The first items of the rows and what is left of each, when no row is
    empty. *)
Fixpoint heads (rows : list (list cell))
  : option (list cell * list (list cell)) :=
  match rows with
  | [] => Some ([], [])
  | row :: rest =>
      match row, heads rest with
      | x :: row', Some (firsts, lefts) => Some (x :: firsts, row' :: lefts)
      | _, _ => None
      end
  end.

Fixpoint zip_rows (fuel : nat) (rows : list (list cell)) : list (list cell) :=
  match fuel with
  | O => []
  | S fuel' =>
      match heads rows with
      | Some (firsts, lefts) => firsts :: zip_rows fuel' lefts
      | None => []
      end
  end.

(** [zip( *rows )]: the i-th result holds the i-th items of all the rows,
    up to the length of the shortest row. *)
Definition zip_star (rows : list (list cell)) : list (list cell) :=
  match rows with
  | [] => []
  | row :: _ => zip_rows (List.length row) rows
  end.

(** [for local_column, column_extension in zip(grid, column_extensions):
    local_column.data.extend(column_extension)] *)
Fixpoint extend_each (grid column_extensions : list (list cell))
  : list (list cell) :=
  match grid, column_extensions with
  | data :: grid', extension :: extensions' =>
      (data ++ extension) :: extend_each grid' extensions'
  | _, _ => grid
  end.

(** The update of the local grid after the rows were sent. *)
Definition extend_columns (grid : list (list cell)) (rows : list (list cell))
  : result (list (list cell)) :=
  match py_max (map (@List.length cell) grid) with
  | Fail e => Fail e
  | Ok longest_column_length =>
      let padded :=
        map (fun data =>
               data ++ repeat empty_string
                         (longest_column_length - List.length data)) grid in
      Ok (extend_each padded (zip_star rows))
  end.

End Rows.

(** ** Credentials, configuration and plot options

    The values of these dictionaries, as far as their truth value and
    their identity with [False] go. *)
Inductive value :=
| VNone
| VBool (v : bool)
| VInt (z : Z)
| VStr (s : str).

(** [bool(v)] *)
Definition truthy (v : value) : bool :=
  match v with
  | VNone => false
  | VBool v => v
  | VInt z => negb (z =? 0)%Z
  | VStr s => match s with [] => false | _ :: _ => true end
  end.

(** [v is False] *)
Definition is_False (v : value) : bool :=
  match v with
  | VBool false => true
  | _ => false
  end.

Definition str_eqb : str -> str -> bool := list_eqb Byte.eqb.

(** A dictionary with string keys: the first entry of a key is its
    entry. *)
Definition dict := list (str * value).

(** [d[key]] when [key in d] *)
Fixpoint lookup (d : dict) (key : str) : option value :=
  match d with
  | [] => None
  | (k, v) :: rest => if str_eqb k key then Some v else lookup rest key
  end.

(** [key in d] *)
Definition contains (d : dict) (key : str) : bool :=
  match lookup d key with Some _ => true | None => false end.

(** [d.get(key)] *)
Definition get (d : dict) (key : str) : value :=
  match lookup d key with Some v => v | None => VNone end.

(** [d[key] = v] *)
Fixpoint set (d : dict) (key : str) (v : value) : dict :=
  match d with
  | [] => [(key, v)]
  | (k, w) :: rest =>
      if str_eqb k key then (k, v) :: rest else (k, w) :: set rest key v
  end.

(** [d.update(other)] *)
Definition update (d other : dict) : dict :=
  fold_left (fun d entry => set d (fst entry) (snd entry)) other d.

(** The body of the loop that [get_credentials], [get_config] and
    [get_plot_options] each run over the keys of their dictionary:
    [session_value = session.get(key)], and
    [if session_value is False or session_value: d[key] = session_value]. *)
Definition override_step (session : dict) (d : dict) (key : str) : dict :=
  let session_value := get session key in
  if is_False session_value || truthy session_value
  then set d key session_value
  else d.

(** [for key in d: ...] *)
Definition override_from_session (session : dict) (d : dict) : dict :=
  fold_left (override_step session) (map fst d) d.

Definition DEFAULT_PLOT_OPTIONS : dict :=
  [ (b "filename", VStr (b "plot from API"));
    (b "fileopt", VStr (b "new"));
    (b "world_readable", VBool true);
    (b "auto_open", VBool true);
    (b "validate", VBool true) ].

Section Options.
Variable credentials_file : dict.         (* tools.get_credentials_file() *)
Variable config_file : dict.              (* tools.get_config_file() *)
Variable session_credentials : dict.      (* get_session_credentials() *)
Variable session_config : dict.           (* get_session_config() *)
Variable session_plot_options : dict.     (* get_session_plot_options() *)

Definition get_credentials : dict :=
  override_from_session session_credentials credentials_file.

Definition get_config : dict :=
  override_from_session session_config config_file.

Definition get_plot_options : dict :=
  override_from_session session_plot_options DEFAULT_PLOT_OPTIONS.

Definition _plot_option_logic (plot_options : dict) : dict :=
  let current_plot_options := get_plot_options in
  let current_plot_options := update current_plot_options plot_options in
  if (contains plot_options (b "filename")
      || contains session_plot_options (b "filename"))
     && negb (contains session_plot_options (b "fileopt"))
     && negb (contains plot_options (b "fileopt"))
  then set current_plot_options (b "fileopt") (VStr (b "overwrite"))
  else current_plot_options.

End Options.

(** ** grid_ops._fill_in_response_column_ids

    Of a column of the request the function reads [name] and writes [id];
    a column of the response is a dictionary of which [name] and [uid] are
    read, and which [remove] compares with [==]. *)
Record Column := { name : str; id : str }.

Section FillIn.
Variable response_column : Type.
Variable resp_name : response_column -> str.      (* resp_col['name'] *)
Variable resp_uid : response_column -> str.       (* resp_col['uid'] *)
Variable resp_eqb : response_column -> response_column -> bool.   (* == *)

(** [l.remove(x)]: the first item equal to [x] is taken out. *)
Fixpoint remove (x : response_column) (l : list response_column)
  : result (list response_column) :=
  match l with
  | [] => Fail ValueError
  | y :: rest =>
      if resp_eqb y x then Ok rest
      else match remove x rest with
           | Ok rest' => Ok (y :: rest')
           | Fail e => Fail e
           end
  end.

(** ['{0}/{1}'.format(grid_id, resp_col['uid'])] *)
Definition format_id (grid_id uid : str) : str := grid_id ++ b "/" ++ uid.

(** The inner loop [for resp_col in response_columns], from the index
    [i] of the list iterator on: the iterator reads the item at its index
    in the list as it is then and moves on by one, also after an item was
    removed; it ends when the index is past the end.  [steps] bounds the
    number of items read.  The result is the id of the request column and
    the list that is left. *)
Fixpoint fill_in_from (steps i : nat) (grid_id req_name req_id : str)
         (response_columns : list response_column)
  : result (str * list response_column) :=
  match steps with
  | O => Ok (req_id, response_columns)
  | S steps' =>
      match nth_error response_columns i with
      | None => Ok (req_id, response_columns)
      | Some resp_col =>
          if str_eqb (resp_name resp_col) req_name
          then match remove resp_col response_columns with
               | Fail e => Fail e
               | Ok response_columns' =>
                   fill_in_from steps' (S i) grid_id req_name
                                (format_id grid_id (resp_uid resp_col))
                                response_columns'
               end
          else fill_in_from steps' (S i) grid_id req_name req_id
                            response_columns
      end
  end.

(** The request columns with their ids filled in, and what is left of
    the response columns. *)
Fixpoint _fill_in_response_column_ids (request_columns : list Column)
         (response_columns : list response_column) (grid_id : str)
  : result (list Column * list response_column) :=
  match request_columns with
  | [] => Ok ([], response_columns)
  | req_col :: rest =>
      match fill_in_from (List.length response_columns) 0 grid_id
                         (name req_col) (id req_col) response_columns with
      | Fail e => Fail e
      | Ok (req_id, response_columns') =>
          match _fill_in_response_column_ids rest response_columns' grid_id with
          | Fail e => Fail e
          | Ok (rest', remaining) =>
              Ok ({| name := name req_col; id := req_id |} :: rest', remaining)
          end
      end
  end.

End FillIn.

(** [validate_credentials] *)
Definition validate_credentials (credentials : dict) : result unit :=
  let username := get credentials (b "username") in
  let api_key := get credentials (b "api_key") in
  if negb (truthy username) || negb (truthy api_key)
  then Fail PlotlyLocalCredentialsError
  else Ok tt.

(** ** image: get, ishow and save_as

    The calls these functions make to the outside (the request, the file,
    the notebook) are recorded in the order they are made; what such a
    call returns or raises is given by a collaborator. *)
Module image.

(** [needle in s] on strings *)
Fixpoint is_in (needle s : str) : bool :=
  starts_with needle s
  || match s with
     | [] => false
     | _ :: s' => is_in needle s'
     end.

Definition formats : list str := [b "png"; b "svg"; b "jpeg"; b "pdf"].

Definition image_content_types : list str :=
  [b "image/png"; b "image/jpeg"; b "application/pdf"; b "image/svg+xml"].

(** [x in l] for a string [x] and a list of strings *)
Definition among (x : str) (l : list str) : bool := existsb (str_eqb x) l.

(** [bool(format)] for an argument that is [None] or a string *)
Definition given (format : option str) : bool :=
  match format with
  | Some (_ :: _) => true
  | _ => false
  end.

Section Image.
Variable object : Type.      (* a dict or a list passed as figure or data *)
Variable size : Type.        (* a width or a height *)
Variable json : Type.        (* a value json.loads returns *)

(** [figure_or_data] is a dict, a list or something else. *)
Inductive figure_arg :=
| A_dict (d : object)
| A_list (l : object)
| A_other.

(** [figure]: the dict itself, or [{'data': figure_or_data}] for a list. *)
Inductive figure :=
| Figure (d : object)
| Data (l : object).

(** [payload]; a width or a height that is [None] has no entry. *)
Record payload := {
  payload_figure : figure;
  payload_format : str;
  payload_width : option size;
  payload_height : option size
}.

Record response := {
  status_code : Z;
  content_type : option str;      (* headers['content-type'], if present *)
  content : str
}.

(** What [get] returns: [res.content], [return_data['image']], or [None]
    when it falls off its end. *)
Inductive img :=
| Content (c : str)
| Item (v : json)
| No_image.

Inductive call :=
| Post (url : str) (p : payload) (headers : dict) (verify : value)
| Open (filename : str)                 (* open(filename, 'wb') *)
| Write (i : img)                       (* f.write(img) *)
| Close                                 (* f.close() *)
| Import_display                        (* from IPython.display import ... *)
| Display (svg : bool) (i : img).       (* display(SVG(img)), display(Image(img)) *)

(** An exception: one of [error], or the [PlotlyError] made of an item of
    the response. *)
Inductive raised :=
| Error (e : error)
| PlotlyError_item (message : json).

Inductive outcome (A : Type) :=
| Returns (a : A)
| Raises (r : raised).
Arguments Returns {A} a.
Arguments Raises {A} r.

(** A computation: the calls made, and how it ends. *)
Definition run (A : Type) : Type := list call * outcome A.

Definition ret {A : Type} (a : A) : run A := ([], Returns a).
Definition raise {A : Type} (e : error) : run A := ([], Raises (Error e)).
Definition bind {A B : Type} (m : run A) (k : A -> run B) : run B :=
  match m with
  | (calls, Returns a) => let (calls', o) := k a in (calls ++ calls', o)
  | (calls, Raises r) => (calls, Raises r)
  end.
(** A statement that makes no call outside. *)
Definition eval {A : Type} (r : result A) : run A :=
  match r with
  | Ok a => ret a
  | Fail e => raise e
  end.
(** A call outside. *)
Definition perform {A : Type} (c : call) (r : result A) : run A :=
  ([c], match r with Ok a => Returns a | Fail e => Raises (Error e) end).

Variable version : str.                          (* version.__version__ *)
Variable headers : result dict.                  (* _api_v2.headers() *)
Variable api_url : str -> result str.            (* _api_v2.api_url *)
Variable json_dumps : payload -> result str.
Variable ssl_verification : result value.
                         (* get_config()['plotly_ssl_verification'] *)
Variable post : str -> str -> dict -> value -> result response.
                         (* requests.post(url, data=..., headers=..., verify=...) *)
Variable json_loads : str -> result json.
Variable getitem : json -> str -> result json.   (* return_data[key] *)
Variable splitext : str -> str * str.            (* os.path.splitext *)
Variable open_wb : str -> result unit.
Variable file_write : img -> result unit.
Variable file_close : result unit.
Variable import_display : result unit.
Variable display : bool -> img -> result unit.

(** ['content-type' in headers and 'json' in headers['content-type']] *)
Definition json_content (res : response) : bool :=
  match content_type res with
  | Some t => is_in (b "json") t
  | None => false
  end.

(** [get], from [headers = res.headers] on. *)
Definition read (res : response) : run img :=
  if (status_code res =? 200)%Z then
    if match content_type res with
       | Some t => among t image_content_types
       | None => false
       end
    then ret (Content (content res))
    else if json_content res then
      bind (eval (json_loads (content res))) (fun return_data =>
      bind (eval (getitem return_data (b "image"))) (fun image =>
      ret (Item image)))
    else ret No_image
  else
    if json_content res then
      match json_loads (content res) with
      | Fail _ => raise PlotlyError_translate
      | Ok return_data =>
          match getitem return_data (b "error") with
          | Fail e => raise e
          | Ok message => ([], Raises (PlotlyError_item message))
          end
      end
    else raise (PlotlyError_response (content res)).

Definition get (figure_or_data : figure_arg) (format : option str)
           (width height : option size) : run img :=
  match
    match figure_or_data with
    | A_dict d => Ok (Figure d)
    | A_list l => Ok (Data l)
    | A_other => Fail PlotlyEmptyDataError
    end
  with
  | Fail e => raise e
  | Ok figure =>
      match format with
      | None => raise PlotlyError_format
      | Some format =>
          if negb (among format formats) then raise PlotlyError_format
          else
            bind (eval headers) (fun headers =>
            let headers := set headers (b "plotly_version") (VStr version) in
            let headers :=
              set headers (b "content-type") (VStr (b "application/json")) in
            let payload :=
              {| payload_figure := figure; payload_format := format;
                 payload_width := width; payload_height := height |} in
            bind (eval (api_url (b "images/"))) (fun url =>
            bind (eval (json_dumps payload)) (fun data =>
            bind (eval ssl_verification) (fun verify =>
            bind (perform (Post url payload headers verify)
                          (post url data headers verify)) (fun res =>
            read res)))))
      end
  end.

Definition ishow (figure_or_data : figure_arg) (format : option str)
           (width height : option size) : run unit :=
  if match format with
     | Some f => str_eqb f (b "pdf")
     | None => false
     end
  then raise PlotlyError_pdf
  else
    bind (get figure_or_data format width height) (fun img =>
    bind (perform Import_display import_display) (fun _ =>
    if match format with
       | Some f => str_eqb f (b "svg")
       | None => false
       end
    then perform (Display true img) (display true img)
    else perform (Display false img) (display false img))).

(** ['.' + format] *)
Definition dot (format : option str) : result str :=
  match format with
  | Some f => Ok (b "." ++ f)
  | None => Fail TypeError
  end.

Definition save_as (figure_or_data : figure_arg) (filename : str)
           (format : option str) (width height : option size) : run unit :=
  let (base, ext) := splitext filename in
  let ext_given := match ext with [] => false | _ :: _ => true end in
  bind (if negb ext_given && negb (given format)
        then ret (filename ++ b ".png", format)
        else if ext_given && negb (given format)
        then ret (filename, Some (tl ext))
        else if negb ext_given && given format
        then bind (eval (dot format)) (fun suffix =>
             ret (filename ++ suffix, format))
        else bind (eval (dot format)) (fun suffix =>
             ret (filename ++ suffix, format)))
       (fun '(filename, format) =>
  bind (get figure_or_data format width height) (fun img =>
  bind (perform (Open filename) (open_wb filename)) (fun _ =>
  bind (perform (Write img) (file_write img)) (fun _ =>
  perform Close file_close)))).

End Image.

Arguments A_dict {object} d.
Arguments A_list {object} l.
Arguments A_other {object}.
Arguments Figure {object} d.
Arguments Data {object} l.
Arguments Content {json} c.
Arguments Item {json} v.
Arguments No_image {json}.
Arguments Post {object size json} url p headers verify.
Arguments Open {object size json} filename.
Arguments Write {object size json} i.
Arguments Close {object size json}.
Arguments Import_display {object size json}.
Arguments Display {object size json} svg i.
Arguments Error {json} e.
Arguments PlotlyError_item {json} message.
Arguments Returns {json A} a.
Arguments Raises {json A} r.

(** The calls made hold at most one request; it is the first call, and its
    format is among the [allowed] ones. *)
Definition one_request {object size json : Type}
           (calls : list (call object size json)) (allowed : list str) : Prop :=
  calls = [] \/
  exists url p headers verify after,
    calls = Post url p headers verify :: after /\
    among (payload_format p) allowed = true /\
    Forall (fun c => match c with Post _ _ _ _ => False | _ => True end) after.

(** [s.rfind(c)], counted from [i] for the first character. *)
Fixpoint rfind (c : byte) (s : str) (i : Z) : Z :=
  match s with
  | [] => -1
  | x :: s' =>
      let found := rfind c s' (i + 1) in
      if (0 <=? found)%Z then found
      else if Byte.eqb x c then i else (-1)%Z
  end.

(** [os.path.splitext] of [posixpath]: the extension starts at the last
    dot of the last component of the path, leading dots of that component
    apart. *)
Definition posix_splitext (p : str) : str * str :=
  let sepIndex := rfind "/"%byte p 0 in
  let dotIndex := rfind "."%byte p 0 in
  if (sepIndex <? dotIndex)%Z
     && existsb (fun x => negb (Byte.eqb x "."%byte))
                (firstn (Z.to_nat (dotIndex - (sepIndex + 1)))
                        (skipn (Z.to_nat (sepIndex + 1)) p))
  then (firstn (Z.to_nat dotIndex) p, skipn (Z.to_nat dotIndex) p)
  else (p, []).

(** A server that answers every request with a png image, for the
    examples. *)
Module Demo.

Definition headers : result dict := Ok [(b "authorization", VStr (b "Basic"))].
Definition api_url (resource : str) : result str :=
  Ok (b "https://api.plot.ly/v2/" ++ resource).
Definition json_dumps (p : payload unit Z) : result str := Ok (payload_format p).
Definition ssl_verification : result value := Ok (VBool true).
Definition post (url data : str) (h : dict) (verify : value) : result response :=
  Ok {| status_code := 200; content_type := Some (b "image/png");
        content := b "PNG" |}.
Definition json_loads (s : str) : result unit := Fail ValueError.
Definition getitem (v : unit) (key : str) : result unit := Fail TypeError.
Definition open_wb (filename : str) : result unit := Ok tt.
Definition file_write (i : img unit) : result unit := Ok tt.
Definition file_close : result unit := Ok tt.

Definition save_as :=
  save_as (b "1.9.0") headers api_url json_dumps ssl_verification post
          json_loads getitem posix_splitext open_wb file_write file_close.

End Demo.

End image.

End Rest.

(* ------------------------------------------------------------------ *)
(** * Reasoning about computations *)

Section Keeps.
Variables (A : Type) (attr : StreamWriter -> A).

Lemma keeps_ret (B : Type) (v : B) : keeps attr (ret v).
Proof. intros s e; reflexivity. Qed.

Lemma keeps_raise (B : Type) (x : exn) : keeps attr (raise (A:=B) x).
Proof. intros s e; reflexivity. Qed.

Lemma keeps_lift (B : Type) (o : outcome B) : keeps attr (lift o).
Proof. intros s e; reflexivity. Qed.

Lemma keeps_get (B : Type) (f : StreamWriter -> B) : keeps attr (get f).
Proof. intros s e; reflexivity. Qed.

Lemma keeps_time_time : keeps attr time_time.
Proof. intros s e; reflexivity. Qed.

Lemma keeps_time_sleep (w : Q) : keeps attr (time_sleep w).
Proof. intros s e; reflexivity. Qed.

Lemma keeps_writer_call (c : WriterCall) : keeps attr (writer_call c).
Proof.
  intros s e; unfold writer_call; destruct (_writer s); [destruct c|];
    reflexivity.
Qed.

Lemma keeps_update (f : StreamWriter -> StreamWriter) :
  (forall s, attr (f s) = attr s) -> keeps attr (update f).
Proof. intros H s e; apply H. Qed.

Lemma keeps_bind (B C : Type) (m : M B) (k : B -> M C) :
  keeps attr m -> (forall v, keeps attr (k v)) -> keeps attr (bind m k).
Proof.
  intros Hm Hk s e. unfold bind.
  specialize (Hm s e). unfold object_of in *.
  destruct (m s e) as [[[v|x] s1] e1]; simpl in *.
  - rewrite <- Hm. apply (Hk v s1 e1).
  - exact Hm.
Qed.

Lemma keeps_if (B : Type) (c : bool) (m1 m2 : M B) :
  keeps attr m1 -> keeps attr m2 -> keeps attr (if c then m1 else m2).
Proof. destruct c; auto. Qed.

End Keeps.

Create HintDb frame.
#[export] Hint Resolve keeps_ret keeps_raise keeps_lift keeps_get keeps_time_time
  keeps_time_sleep keeps_writer_call keeps_bind keeps_if : frame.

(** Solves [keeps attr m] for a method that assigns other attributes only. *)
Ltac frame :=
  repeat first
    [ apply keeps_bind; [ | intros ? ]
    | apply keeps_if
    | apply keeps_update; intros ?; reflexivity
    | solve [ auto with frame ]
    | solve [ unfold keeps, object_of; intros; reflexivity ]
    | match goal with
      | |- keeps _ (match ?x with _ => _ end) => destruct x
      end ].

(* ------------------------------------------------------------------ *)
(** * The outbound queue *)

Section Deque.
Variable A : Type.

Lemma appendleft_maxlen (x : A) (d : deque A) :
  maxlen (appendleft x d) = maxlen d.
Proof.
  unfold appendleft. destruct (maxlen d) as [m|] eqn:E; simpl; auto.
  destruct (m <? _)%nat; simpl; auto.
Qed.

Lemma appendleft_items (x : A) (d : deque A) (m : nat) :
  maxlen d = Some m -> (List.length (items d) <= m)%nat ->
  items (appendleft x d) = firstn m (x :: items d).
Proof.
  intros Hm Hb. unfold appendleft. rewrite Hm.
  destruct (m <? List.length (x :: items d))%nat eqn:E; cbn [items].
  - apply Nat.ltb_lt in E. simpl in E.
    assert (Hlen : List.length (x :: items d) = S m) by (simpl; lia).
    rewrite <- (firstn_all (x :: items d)) at 1. rewrite Hlen.
    apply removelast_firstn. rewrite Hlen. lia.
  - apply Nat.ltb_ge in E. symmetry. apply firstn_all2. exact E.
Qed.

Lemma appendleft_bounded (x : A) (d : deque A) :
  bounded d -> bounded (appendleft x d).
Proof.
  unfold bounded. rewrite appendleft_maxlen.
  destruct (maxlen d) as [m|] eqn:E; auto.
  intros Hb. rewrite (appendleft_items x d E Hb).
  rewrite length_firstn. lia.
Qed.

(** Appending a list of items at the left, one after the other. *)
Lemma appendleft_all_maxlen (xs : list A) (d : deque A) :
  maxlen (fold_left (fun q x => appendleft x q) xs d) = maxlen d.
Proof.
  revert d. induction xs as [|x xs IH]; intros d; simpl; auto.
  rewrite IH. apply appendleft_maxlen.
Qed.

Lemma appendleft_all_bounded (xs : list A) (d : deque A) :
  bounded d -> bounded (fold_left (fun q x => appendleft x q) xs d).
Proof.
  revert d. induction xs as [|x xs IH]; intros d Hb; simpl; auto.
  apply IH. apply appendleft_bounded. exact Hb.
Qed.

Lemma appendleft_all_items (xs : list A) (d : deque A) (m : nat) :
  maxlen d = Some m -> (List.length (items d) <= m)%nat ->
  items (fold_left (fun q x => appendleft x q) xs d)
  = firstn m (rev xs ++ items d).
Proof.
  revert d. induction xs as [|x xs IH]; intros d Hm Hb; simpl.
  - symmetry. apply firstn_all2. exact Hb.
  - rewrite IH.
    + rewrite (appendleft_items x d Hm Hb).
      rewrite <- app_assoc. simpl.
      rewrite !firstn_app. f_equal.
      rewrite firstn_firstn. f_equal. lia.
    + rewrite appendleft_maxlen. exact Hm.
    + assert (Hbd : bounded (appendleft x d)).
      { apply appendleft_bounded. unfold bounded. rewrite Hm. exact Hb. }
      unfold bounded in Hbd. rewrite appendleft_maxlen, Hm in Hbd. exact Hbd.
Qed.

(** The content in the order of arrival (oldest first) after appending
    [xs] to an empty deque of bound [m]: the last [m] items of [xs]. *)
Lemma appendleft_all_arrival (xs : list A) (m : nat) :
  rev (items (fold_left (fun q x => appendleft x q) xs (new_deque A (Some m))))
  = skipn (List.length xs - m) xs.
Proof.
  rewrite (@appendleft_all_items xs _ m); [ | reflexivity | simpl; lia ].
  simpl. rewrite app_nil_r, firstn_rev, rev_involutive. reflexivity.
Qed.

(** [pop] takes the item that arrived first. *)
Lemma pop_arrival (d : deque A) (x : A) (rest : list A) :
  rev (items d) = x :: rest ->
  pop d = (Return x, mkDeque (rev rest) (maxlen d)).
Proof.
  intros H. assert (Hi : items d = rev rest ++ [x]).
  { rewrite <- (rev_involutive (items d)), H. reflexivity. }
  unfold pop. destruct (items d) as [|y l] eqn:E.
  - destruct (rev rest); discriminate.
  - assert (Hlast : last l y = last (y :: l) y) by (destruct l; reflexivity).
    rewrite Hlast, Hi, last_last, removelast_last. reflexivity.
Qed.

End Deque.
(* ------------------------------------------------------------------ *)
(** * Enqueueing with [write], draining with [_write] *)

Section Queue.
Variable Obj : Type.
Variable json_dumps : Obj -> outcome pystring.
Variable read_response : list byte -> outcome (pystring * Z).
Variable plotly_streaming_domain : list byte.

Local Abbreviation open := (StreamWriter.open read_response).
Local Abbreviation write := (StreamWriter.write json_dumps read_response).
Local Abbreviation writes := (StreamWriter.writes json_dumps read_response).
Local Abbreviation payload := (StreamWriter.payload json_dumps).
Local Abbreviation __init__ := (StreamWriter.__init__ plotly_streaming_domain).

Lemma open_keeps_queue : keeps _queue open.
Proof.
  unfold StreamWriter.open, _raise_for_response, _raise_for_error, _reset,
    message_and_status, _back_off_linearly, _back_off_exponentially,
    connected, start_thread.
  frame.
Qed.

(** [write] either raises and leaves the queue alone, or appends the
    payload and a line break at the left end. *)
Lemma write_queue (chunk : chunk_arg Obj) s e r s' e' :
  write chunk s e = (r, s', e') ->
  match r with
  | Return _ =>
      exists x, payload chunk = Return x /\
        _queue s' = appendleft (queued x) (_queue s)
  | Raise _ => _queue s' = _queue s
  end.
Proof.
  unfold StreamWriter.write.
  unfold bind at 1. unfold connected.
  set (c := match _thread s with Some t => _ | None => false end).
  unfold bind at 1.
  assert (Hpre : forall r s1 e1,
            (if negb c then open else ret tt) s e = (r, s1, e1) ->
            _queue s1 = _queue s).
  { intros r0 s1 e1 H. destruct c; simpl in H.
    - inversion H; reflexivity.
    - pose proof (open_keeps_queue s e) as K. unfold object_of in K.
      rewrite H in K. exact K. }
  destruct ((if negb c then open else ret tt) s e) as [[[v|x] s1] e1] eqn:E;
    specialize (Hpre _ _ _ eq_refl).
  - unfold bind, lift, update, ret.
    destruct chunk as [t|o]; simpl.
    + intros H; inversion H; subst. exists t.
      split; [reflexivity | simpl; rewrite <- Hpre; reflexivity].
    + destruct (json_dumps o) as [t|x]; simpl; intros H; inversion H; subst.
      * exists t. split; [reflexivity | simpl; rewrite <- Hpre; reflexivity].
      * exact Hpre.
  - intros H; inversion H; subst. exact Hpre.
Qed.

(** A run of [writes] appends the payloads it got through, in order. *)
Lemma writes_queue (chunks : list (chunk_arg Obj)) s e r s' e' :
  writes chunks s e = (r, s', e') ->
  exists xs,
    _queue s' = fold_left (fun q x => appendleft x q) (map queued xs) (_queue s) /\
    (r = Return tt -> Forall2 (fun c x => payload c = Return x) chunks xs).
Proof.
  revert s e. induction chunks as [|chunk rest IH]; intros s e; simpl.
  - unfold ret. intros H; inversion H; subst. exists []. split; auto.
  - unfold bind.
    destruct (write chunk s e) as [[[v|x] s1] e1] eqn:E;
      pose proof (write_queue _ _ _ E) as W; simpl in W.
    + destruct W as [x [Hx Hq]]. intros H.
      destruct (IH _ _ H) as [xs [Hqs Hall]].
      exists (x :: xs). simpl. rewrite <- Hq. split; auto.
    + intros H; inversion H; subst. exists []. split; [exact W | discriminate].
Qed.

Lemma write_text_connected (t : pystring) s e :
  is_connected s e ->
  write (Text Obj t) s e
  = (Return tt, set_queue (appendleft (queued t) (_queue s)) s, e).
Proof.
  unfold is_connected, result_of, StreamWriter.write, connected. simpl.
  intros H. injection H as H. unfold bind at 1. cbv beta. rewrite H. reflexivity.
Qed.

Lemma writes_text_connected (ts : list pystring) s e :
  is_connected s e ->
  result_of (writes (map (Text Obj) ts) s e) = Return tt.
Proof.
  revert s. induction ts as [|t ts IH]; intros s H; simpl; [reflexivity|].
  unfold bind. rewrite (write_text_connected t H). apply IH. exact H.
Qed.

(** The first [write] on a new handle opens it. *)
Lemma write_text_new (token : list byte) (kw : InitArgs) (e : Env) (t : pystring) :
  let s0 := fst (__init__ token kw e) in
  let e0 := snd (__init__ token kw e) in
  result_of (write (Text Obj t) s0 e0) = Return tt /\
  is_connected (object_of (write (Text Obj t) s0 e0))
               (env_of (write (Text Obj t) s0 e0)).
Proof.
  unfold is_connected, result_of, object_of, env_of. simpl.
  split; [reflexivity|].
  rewrite nth_error_app2, Nat.sub_diag; [reflexivity | lia].
Qed.

Lemma writes_text_new (token : list byte) (kw : InitArgs) (e : Env)
    (ts : list pystring) :
  result_of (writes (map (Text Obj) ts) (fst (__init__ token kw e))
                    (snd (__init__ token kw e))) = Return tt.
Proof.
  destruct ts as [|t ts]; [reflexivity|].
  destruct (write_text_new token kw e t) as [Hr Hc].
  cbn [map StreamWriter.writes]. unfold bind.
  destruct (write (Text Obj t) _ _) as [[r s1] e1].
  unfold result_of, object_of, env_of in Hr, Hc. simpl in Hr, Hc.
  rewrite Hr. apply writes_text_connected. exact Hc.
Qed.

(** The arrival order of the queue after a run of [writes] that returned. *)
Lemma queue_keeps_newest_aux (token : list byte) (kw : InitArgs) (e : Env)
    (C : nat) (chunks : list (chunk_arg Obj)) :
  queue_length (fst (__init__ token kw e)) = Some C ->
  let run := writes chunks (fst (__init__ token kw e)) (snd (__init__ token kw e)) in
  result_of run = Return tt ->
  exists xs,
    Forall2 (fun c x => payload c = Return x) chunks xs /\
    rev (items (_queue (object_of run)))
    = skipn (List.length xs - C) (map queued xs).
Proof.
  intros HC run.
  destruct run as [[r s'] e'] eqn:E. unfold run in E.
  destruct (writes_queue _ _ _ E) as [xs [Hq Hall]].
  unfold object_of, result_of. cbn [fst snd]. intros Hr.
  exists xs. split; [auto|].
  assert (Hnew : _queue (fst (__init__ token kw e)) = new_deque pystring (Some C)).
  { simpl in HC |- *. rewrite HC. reflexivity. }
  rewrite Hq, Hnew, appendleft_all_arrival, length_map. reflexivity.
Qed.

(** C2.  On a handle constructed with capacity [C] (500 unless overridden),
    after any sequence of [write] calls the queue holds at most [C] items;
    when the calls all returned, it holds, in order of arrival, the last [C]
    of the enqueued items (each payload followed by a line break), or all of
    them when there are not more than [C] -- so exactly the [C] most recent
    once more than [C] were enqueued, the older ones having been dropped
    without notice.  Calls with text chunks always return. *)
Theorem queue_keeps_newest (token : list byte) (kw : InitArgs) (e : Env)
    (C : nat) (chunks : list (chunk_arg Obj)) :
  queue_length (fst (__init__ token kw e)) = Some C ->
  let run := writes chunks (fst (__init__ token kw e)) (snd (__init__ token kw e)) in
  (List.length (items (_queue (object_of run))) <= C)%nat /\
  (result_of run = Return tt ->
   exists xs,
     Forall2 (fun c x => payload c = Return x) chunks xs /\
     rev (items (_queue (object_of run)))
     = skipn (List.length xs - C) (map queued xs) /\
     (C < List.length xs -> List.length (items (_queue (object_of run))) = C)%nat) /\
  (forall ts, chunks = map (Text Obj) ts -> result_of run = Return tt) /\
  default_queue_length = Some 500%nat.
Proof.
  intros HC run.
  destruct run as [[r s'] e'] eqn:E. unfold run in E.
  destruct (writes_queue _ _ _ E) as [xs [Hq Hall]].
  unfold object_of, result_of. cbn [fst snd].
  assert (Hnew : _queue (fst (__init__ token kw e)) = new_deque pystring (Some C)).
  { simpl in HC |- *. rewrite HC. reflexivity. }
  rewrite Hnew in Hq.
  assert (Harr : rev (items (_queue s'))
                 = skipn (List.length xs - C) (map queued xs)).
  { rewrite Hq, appendleft_all_arrival, length_map. reflexivity. }
  assert (Hlen : List.length (items (_queue s'))
                 = (List.length xs - (List.length xs - C))%nat).
  { rewrite <- length_rev, Harr, length_skipn, length_map. reflexivity. }
  split; [lia|]. split; [|split].
  - intros Hr. exists xs. split; [auto|]. split; [exact Harr | lia].
  - intros ts ->. pose proof (writes_text_new token kw e ts) as K.
    rewrite E in K. exact K.
  - reflexivity.
Qed.

(** [_write] on an empty queue does nothing. *)
Lemma _write_empty s e :
  items (_queue s) = [] -> _write s e = (Return tt, s, e).
Proof.
  intros H. unfold _write, bind, get, nonempty. rewrite H. reflexivity.
Qed.

(** [_write] on a queue whose content, in order of arrival, is
    [x :: rest]: the item is taken and kept as the chunk, and the [write()]
    that comes next is refused, so that the message is not built and no
    call reaches the transport. *)
Lemma _write_arrival s e x rest :
  rev (items (_queue s)) = x :: rest ->
  _write s e
  = (Raise (Exc match _writer s with
                | Some _ => TypeError
                | None => AttributeError
                end),
     set_chunk (Some x) (set_queue (mkDeque (rev rest) (maxlen (_queue s))) s),
     e).
Proof.
  intros Harr.
  assert (Hne : nonempty (_queue s) = true).
  { unfold nonempty. destruct (items (_queue s)); [discriminate | reflexivity]. }
  unfold _write, bind at 1, get. rewrite Hne.
  unfold bind at 1, queue_pop. rewrite (pop_arrival _ Harr).
  unfold bind at 1, update. unfold bind at 1, writer_call at 1.
  cbn [_writer set_chunk set_queue].
  destruct (_writer s); reflexivity.
Qed.


End Queue.

(** Three writes on a handle of capacity 2. *)
Lemma queue_keeps_newest_witness :
  queue_length (fst Demo.handle2) = Some 2%nat /\
  let run := Demo.writes [Text _ (Str (b "a")); Object tt; Text _ (Str (b "c"))]
               (fst Demo.handle2) (snd Demo.handle2) in
  (List.length (items (_queue (object_of run))) <= 2)%nat /\
  rev (items (_queue (object_of run)))
  = [Str (b "{}" ++ [x0a]); Str (b "c" ++ [x0a])].
Proof.
  split; [reflexivity|].
  destruct (@queue_keeps_newest _ Demo.json_dumps Demo.read_response
              Demo.plotly_streaming_domain Demo.token
              (mkInitArgs None None (Some (Some 2%nat)) None) Demo.env0 2
              [Text _ (Str (b "a")); Object tt; Text _ (Str (b "c"))] eq_refl)
    as [Hlen _].
  split; [exact Hlen | reflexivity].
Defined.



(* ------------------------------------------------------------------ *)
(** * Backoff *)

Lemma Qgtb_true (a b : Q) : Qgtb a b = true <-> b < a.
Proof.
  unfold Qgtb. rewrite negb_true_iff. split; intros H.
  - apply Qnot_le_lt. intros Hle. apply Qle_bool_iff in Hle. congruence.
  - destruct (Qle_bool a b) eqn:E; [|reflexivity].
    apply Qle_bool_iff in E. exfalso. exact (Qlt_not_le _ _ H E).
Qed.

Lemma Qgtb_false (a b : Q) : Qgtb a b = false <-> a <= b.
Proof.
  unfold Qgtb. rewrite negb_false_iff. apply Qle_bool_iff.
Qed.

(** What one call of [_back_off_linearly] does. *)
Lemma _back_off_linearly_eq s e :
  _back_off_linearly s e =
  let now := clock e (ticks e) in
  let n := ((if Qgtb (now - _last_connect_error s) (inject_Z 32)
             then 0 else _connect_errors s) + 1)%Z in
  let s' := set_connect_errors n (set_last_connect_error now s) in
  let e' := set_ticks (S (ticks e)) e in
  let wait_time := inject_Z n * linear_back_off_rate in
  if Qgtb wait_time (inject_Z linear_wait_max)
  then (Raise (Exc TooManyConnectFailures), s', e')
  else (Return tt, s', set_sleeps (sleeps e ++ [wait_time]) e').
Proof.
  unfold _back_off_linearly, bind, get, update, time_time, time_sleep, raise, ret.
  change (inject_Z (linear_wait_max * 2)) with (inject_Z 32). cbv zeta.
  destruct (Qgtb (clock e (ticks e) - _last_connect_error s) (inject_Z 32));
    cbn [_connect_errors set_connect_errors set_last_connect_error];
    match goal with |- context [Qgtb ?a ?b] => destruct (Qgtb a b) end;
    reflexivity.
Qed.

Lemma _back_off_exponentially_eq s e :
  _back_off_exponentially s e =
  let now := clock e (ticks e) in
  let n := ((if Qgtb (now - _last_disconnection s) (inject_Z 640)
             then 0 else _disconnections s) + 1)%Z in
  let s' := set_disconnections n (set_last_disconnection now s) in
  let e' := set_ticks (S (ticks e)) e in
  let wait_time := py_pow exponential_back_off_base n in
  if Qgtb wait_time (inject_Z exponential_wait_max)
  then (Raise (Exc TooManyConnectFailures), s', e')
  else (Return tt, s', set_sleeps (sleeps e ++ [wait_time]) e').
Proof.
  unfold _back_off_exponentially, bind, get, update, time_time, time_sleep,
    raise, ret.
  change (inject_Z (exponential_wait_max * 2)) with (inject_Z 640). cbv zeta.
  destruct (Qgtb (clock e (ticks e) - _last_disconnection s) (inject_Z 640));
    cbn [_disconnections set_disconnections set_last_disconnection];
    match goal with |- context [Qgtb ?a ?b] => destruct (Qgtb a b) end;
    reflexivity.
Qed.

Lemma linear_run (s : StreamWriter) (e : Env) (n : nat) :
  _connect_errors s = 0%Z ->
  no_reset 32 e n ->
  let se := after_calls n _back_off_linearly s e in
  _connect_errors (fst se) = Z.of_nat n /\
  ticks (snd se) = (ticks e + n)%nat /\
  clock (snd se) = clock e /\
  ((1 <= n)%nat -> _last_connect_error (fst se) = clock e (ticks e + n - 1)).
Proof.
  intros H0. induction n as [|n IH]; intros Hnr.
  - simpl. repeat split; auto. lia.
  - assert (Hnr' : no_reset 32 e n).
    { intros k Hk. apply Hnr. lia. }
    specialize (IH Hnr'). cbv zeta in IH |- *.
    cbn [after_calls].
    destruct (after_calls n _back_off_linearly s e) as [s1 e1].
    cbn [fst snd] in IH. destruct IH as [Hc [Ht [Hk Hl]]].
    rewrite _back_off_linearly_eq. cbv zeta.
    assert (Hn : ((if Qgtb (clock e1 (ticks e1) - _last_connect_error s1)
                        (inject_Z 32)
                   then 0 else _connect_errors s1) + 1)%Z = Z.of_nat (S n)).
    { destruct n as [|n].
      - rewrite Hc. destruct (Qgtb _ _); reflexivity.
      - assert (Hf : Qgtb (clock e1 (ticks e1) - _last_connect_error s1)
                       (inject_Z 32) = false).
        { apply Qgtb_false. rewrite Hl, Hk, Ht by lia.
          apply (Hnr (S n)). lia. }
        rewrite Hf, Hc. lia. }
    rewrite Hn.
    destruct (Qgtb _ (inject_Z linear_wait_max)); cbn;
      (split; [reflexivity|]); (split; [lia|]); (split; [exact Hk|]);
      intros _; rewrite Hk, Ht; f_equal; lia.
Qed.

Lemma linear_wait_over (n : Z) :
  inject_Z linear_wait_max < inject_Z n * linear_back_off_rate <-> (65 <= n)%Z.
Proof.
  unfold Qlt, linear_back_off_rate, linear_wait_max. simpl. lia.
Qed.

(** C3.  On a handle whose connect-error count is 0, the N-th of N
    consecutive calls of [_back_off_linearly] with no reset in between
    computes a wait of N * 0.25 seconds; it raises [TooManyConnectFailures]
    exactly when N * 0.25 > 16, that is from N = 65 on, and otherwise sleeps
    that long. *)
Theorem linear_backoff_nth (s : StreamWriter) (e : Env) (N : nat) :
  _connect_errors s = 0%Z ->
  (1 <= N)%nat ->
  no_reset (linear_wait_max * 2) e N ->
  let before := after_calls (N - 1) _back_off_linearly s e in
  let out := _back_off_linearly (fst before) (snd before) in
  let wait_time := inject_Z (Z.of_nat N) * (1 # 4) in
  (result_of out = Raise (Exc TooManyConnectFailures) <-> 16 < wait_time) /\
  (result_of out = Raise (Exc TooManyConnectFailures) <-> (65 <= N)%nat) /\
  (result_of out = Raise (Exc TooManyConnectFailures) ->
   sleeps (env_of out) = sleeps (snd before)) /\
  ((N <= 64)%nat ->
   result_of out = Return tt /\
   sleeps (env_of out) = sleeps (snd before) ++ [wait_time]).
Proof.
  intros H0 HN Hnr before out wait_time.
  assert (Hnr' : no_reset 32 e (N - 1)).
  { intros k Hk. apply Hnr. lia. }
  destruct (linear_run s (n := N - 1) H0 Hnr') as [Hc [Ht [Hk Hl]]].
  fold before in Hc, Ht, Hk, Hl.
  assert (Hn : ((if Qgtb (clock (snd before) (ticks (snd before))
                           - _last_connect_error (fst before)) (inject_Z 32)
                 then 0 else _connect_errors (fst before)) + 1)%Z = Z.of_nat N).
  { destruct (Nat.eq_dec N 1) as [->|Hne].
    - rewrite Hc. destruct (Qgtb _ _); reflexivity.
    - assert (Hf : Qgtb (clock (snd before) (ticks (snd before))
                         - _last_connect_error (fst before)) (inject_Z 32) = false).
      { apply Qgtb_false. rewrite Hl, Hk, Ht by lia.
        apply (Hnr (N - 1)%nat). lia. }
      rewrite Hf, Hc. lia. }
  unfold out. rewrite _back_off_linearly_eq. cbv zeta. rewrite Hn.
  fold wait_time. change linear_back_off_rate with (1 # 4). fold wait_time.
  pose proof (linear_wait_over (Z.of_nat N)) as Hover.
  change (inject_Z (Z.of_nat N) * linear_back_off_rate) with wait_time in Hover.
  destruct (Qgtb wait_time (inject_Z linear_wait_max)) eqn:E; cbn.
  - apply Qgtb_true in E. pose proof (proj1 Hover E) as H65.
    repeat split; auto; try lia; try (intros; exact E).
  - apply Qgtb_false in E.
    assert (H64 : (N <= 64)%nat).
    { destruct (le_gt_dec N 64) as [|Hgt]; [assumption|].
      exfalso. apply (Qle_not_lt _ _ E). apply Hover. lia. }
    repeat split; auto; try discriminate; try lia.
    intros Hlt. exfalso. exact (Qle_not_lt _ _ E Hlt).
Qed.

Lemma demo_clock_no_reset (window : Z) (n : nat) :
  (1 <= window)%Z -> no_reset window (snd Demo.handle0) n.
Proof.
  intros Hw k Hk. unfold Demo.handle0, Demo.__init__, __init__, Demo.env0.
  cbn [snd clock ticks set_ticks].
  unfold Qle, Qminus, Qplus, Qopp, inject_Z. cbn [Qnum Qden]. lia.
Qed.

(** The 65th consecutive connect failure on a new handle, one second apart. *)
Lemma linear_backoff_nth_witness :
  let before := after_calls 64 _back_off_linearly (fst Demo.handle0) (snd Demo.handle0) in
  result_of (_back_off_linearly (fst before) (snd before))
  = Raise (Exc TooManyConnectFailures).
Proof.
  destruct (@linear_backoff_nth (fst Demo.handle0) (snd Demo.handle0) 65
              eq_refl ltac:(lia) (@demo_clock_no_reset 32 65 ltac:(lia)))
    as [_ [H _]].
  apply H. lia.
Defined.

Lemma exponential_run (s : StreamWriter) (e : Env) (n : nat) :
  _disconnections s = 0%Z ->
  no_reset 640 e n ->
  let se := after_calls n _back_off_exponentially s e in
  _disconnections (fst se) = Z.of_nat n /\
  ticks (snd se) = (ticks e + n)%nat /\
  clock (snd se) = clock e /\
  ((1 <= n)%nat -> _last_disconnection (fst se) = clock e (ticks e + n - 1)).
Proof.
  intros H0. induction n as [|n IH]; intros Hnr.
  - simpl. repeat split; auto. lia.
  - assert (Hnr' : no_reset 640 e n).
    { intros k Hk. apply Hnr. lia. }
    specialize (IH Hnr'). cbv zeta in IH |- *.
    cbn [after_calls].
    destruct (after_calls n _back_off_exponentially s e) as [s1 e1].
    cbn [fst snd] in IH. destruct IH as [Hc [Ht [Hk Hl]]].
    rewrite _back_off_exponentially_eq. cbv zeta.
    assert (Hn : ((if Qgtb (clock e1 (ticks e1) - _last_disconnection s1)
                        (inject_Z 640)
                   then 0 else _disconnections s1) + 1)%Z = Z.of_nat (S n)).
    { destruct n as [|n].
      - rewrite Hc. destruct (Qgtb _ _); reflexivity.
      - assert (Hf : Qgtb (clock e1 (ticks e1) - _last_disconnection s1)
                       (inject_Z 640) = false).
        { apply Qgtb_false. rewrite Hl, Hk, Ht by lia.
          apply (Hnr (S n)). lia. }
        rewrite Hf, Hc. lia. }
    rewrite Hn.
    destruct (Qgtb _ (inject_Z exponential_wait_max)); cbn;
      (split; [reflexivity|]); (split; [lia|]); (split; [exact Hk|]);
      intros _; rewrite Hk, Ht; f_equal; lia.
Qed.

(** [5 ** n] for a count [n >= 0] is the integer power. *)
Lemma py_pow_nonneg (n : Z) :
  (0 <= n)%Z -> py_pow exponential_back_off_base n == inject_Z (5 ^ n).
Proof.
  intros Hn. unfold py_pow, exponential_back_off_base.
  symmetry. apply Zpower_Qpower. exact Hn.
Qed.

Lemma exponential_wait_over (n : Z) :
  (0 <= n)%Z ->
  (inject_Z exponential_wait_max < py_pow exponential_back_off_base n
   <-> (4 <= n)%Z).
Proof.
  intros Hn. rewrite (py_pow_nonneg Hn). rewrite <- Zlt_Qlt.
  unfold exponential_wait_max. split; intros H.
  - destruct (Z_lt_le_dec n 4) as [Hlt|]; [|assumption]. exfalso.
    assert (Hcases : (n = 0 \/ n = 1 \/ n = 2 \/ n = 3)%Z) by lia.
    destruct Hcases as [E | [E | [E | E]]]; subst n; vm_compute in H; discriminate.
  - apply Z.lt_le_trans with (5 ^ 4)%Z; [reflexivity|].
    apply Z.pow_le_mono_r; lia.
Qed.

(** C4.  On a handle whose disconnection count is 0, the N-th of N
    consecutive calls of [_back_off_exponentially] with no reset in between
    computes a wait of 5^N seconds; it raises [TooManyConnectFailures]
    exactly when 5^N > 320, that is from N = 4 on (5^3 = 125, 5^4 = 625),
    and otherwise sleeps that long. *)
Theorem exponential_backoff_nth (s : StreamWriter) (e : Env) (N : nat) :
  _disconnections s = 0%Z ->
  (1 <= N)%nat ->
  no_reset (exponential_wait_max * 2) e N ->
  let before := after_calls (N - 1) _back_off_exponentially s e in
  let out := _back_off_exponentially (fst before) (snd before) in
  let wait_time := py_pow 5 (Z.of_nat N) in
  wait_time == inject_Z (5 ^ Z.of_nat N) /\
  (result_of out = Raise (Exc TooManyConnectFailures) <-> 320 < wait_time) /\
  (result_of out = Raise (Exc TooManyConnectFailures) <-> (4 <= N)%nat) /\
  (result_of out = Raise (Exc TooManyConnectFailures) ->
   sleeps (env_of out) = sleeps (snd before)) /\
  ((N <= 3)%nat ->
   result_of out = Return tt /\
   sleeps (env_of out) = sleeps (snd before) ++ [wait_time]) /\
  (5 ^ 3 = 125 /\ 5 ^ 4 = 625)%Z.
Proof.
  intros H0 HN Hnr before out wait_time.
  assert (Hnr' : no_reset 640 e (N - 1)).
  { intros k Hk. apply Hnr. lia. }
  destruct (exponential_run s (n := N - 1) H0 Hnr') as [Hc [Ht [Hk Hl]]].
  fold before in Hc, Ht, Hk, Hl.
  assert (Hn : ((if Qgtb (clock (snd before) (ticks (snd before))
                           - _last_disconnection (fst before)) (inject_Z 640)
                 then 0 else _disconnections (fst before)) + 1)%Z = Z.of_nat N).
  { destruct (Nat.eq_dec N 1) as [->|Hne].
    - rewrite Hc. destruct (Qgtb _ _); reflexivity.
    - assert (Hf : Qgtb (clock (snd before) (ticks (snd before))
                         - _last_disconnection (fst before)) (inject_Z 640) = false).
      { apply Qgtb_false. rewrite Hl, Hk, Ht by lia.
        apply (Hnr (N - 1)%nat). lia. }
      rewrite Hf, Hc. lia. }
  split; [apply py_pow_nonneg; lia|].
  unfold out. rewrite _back_off_exponentially_eq. cbv zeta. rewrite Hn.
  change (py_pow exponential_back_off_base (Z.of_nat N)) with wait_time.
  pose proof (@exponential_wait_over (Z.of_nat N) ltac:(lia)) as Hover.
  change (py_pow exponential_back_off_base (Z.of_nat N)) with wait_time in Hover.
  change (inject_Z exponential_wait_max) with (320 : Q) in *.
  destruct (Qgtb wait_time 320) eqn:E; cbn.
  - apply Qgtb_true in E. pose proof (proj1 Hover E) as H4.
    repeat split; auto; try lia; try (intros; exact E).
  - apply Qgtb_false in E.
    assert (H3 : (N <= 3)%nat).
    { destruct (le_gt_dec N 3) as [|Hgt]; [assumption|].
      exfalso. apply (Qle_not_lt _ _ E). apply Hover. lia. }
    repeat split; auto; try discriminate; try lia.
    intros Hlt. exfalso. exact (Qle_not_lt _ _ E Hlt).
Qed.

(** The fourth consecutive disconnection on a new handle, one second apart. *)
Lemma exponential_backoff_nth_witness :
  let before := after_calls 3 _back_off_exponentially (fst Demo.handle0) (snd Demo.handle0) in
  result_of (_back_off_exponentially (fst before) (snd before))
  = Raise (Exc TooManyConnectFailures) /\
  sleeps (snd before) = [5 # 1; 25 # 1; 125 # 1].
Proof.
  destruct (@exponential_backoff_nth (fst Demo.handle0) (snd Demo.handle0) 4
              eq_refl ltac:(lia) (@demo_clock_no_reset 640 4 ltac:(lia)))
    as [_ [_ [H _]]].
  split; [apply H; lia | reflexivity].
Defined.

(* ------------------------------------------------------------------ *)
(** * Status codes and the evaluation of a captured response *)

Lemma py_in_default (v : pyval) :
  py_in v default_ignore_status_codes = true <-> v = PyNone \/ v = PyInt 200.
Proof.
  unfold py_in, default_ignore_status_codes. simpl.
  destruct v as [|z|t]; simpl.
  - split; auto.
  - rewrite orb_false_r, Z.eqb_eq. split.
    + intros ->. auto.
    + intros [H|H]; [discriminate | congruence].
  - split; [discriminate | intros [H|H]; discriminate].
Qed.

Section Response.
Variable read_response : list byte -> outcome (pystring * Z).
Variable plotly_streaming_domain : list byte.

Local Abbreviation _raise_for_response := (StreamWriter._raise_for_response read_response).
Local Abbreviation message_and_status := (StreamWriter.message_and_status read_response).
Local Abbreviation __init__ := (StreamWriter.__init__ plotly_streaming_domain).

(** C5 (as the code has it).  A [StreamWriter] constructed without the
    [ignore_status_codes] keyword ignores exactly no-status and 200; 408 is
    not among them.  The keyword sets the tuple for the handle.  The tuple
    (200, '', 408) is the default of [reconnect_on] in [Stream.write]. *)
Theorem default_ignored_status_codes (token : list byte) (e : Env)
    (errors : option (list ExcClass)) (qlen : option (option nat))
    (timeout : option Q) :
  let s := fst (__init__ token (mkInitArgs None errors qlen timeout) e) in
  ignore_status_codes s = [PyNone; PyInt 200] /\
  (forall v, py_in v (ignore_status_codes s) = true <-> v = PyNone \/ v = PyInt 200) /\
  py_in (PyInt 408) (ignore_status_codes s) = false /\
  (forall codes,
     ignore_status_codes
       (fst (__init__ token (mkInitArgs (Some codes) errors qlen timeout) e))
     = codes) /\
  Stream.reconnect_on_default = [PyInt 200; PyStr (Str []); PyInt 408].
Proof.
  cbv zeta. cbn [fst __init__ StreamWriter.__init__ ignore_status_codes
                 kw_ignore_status_codes or_default].
  split; [reflexivity|]. split; [exact py_in_default|].
  split; [reflexivity|]. split; [intros codes; reflexivity | reflexivity].
Qed.

Lemma message_and_status_parsed raw message status s e :
  parsed read_response raw message status ->
  message_and_status raw s e = (Return (message, status), s, e).
Proof.
  unfold parsed, StreamWriter.message_and_status.
  destruct (read_response raw) as [[m st]|x].
  - intros [-> ->]. reflexivity.
  - intros [-> [-> ->]]. reflexivity.
Qed.

(** C6.  When a captured response is evaluated: a status outside the
    handle's [ignore_status_codes] raises [ClosedConnection] with the body
    and the status; an ignored status of 500 or more applies the linear
    backoff; every other ignored status, no-status included, applies the
    exponential backoff. *)
Theorem response_classification (s : StreamWriter) (e : Env) (raw : list byte)
    (message : pystring) (status : pyval) :
  _response s = Some raw ->
  parsed read_response raw message status ->
  (py_in status (ignore_status_codes s) = false ->
   _raise_for_response s e = (Raise (ClosedConnectionExc message status), s, e)) /\
  (py_in status (ignore_status_codes s) = true ->
   (forall code, status = PyInt code -> (500 <= code)%Z ->
      _raise_for_response s e = _back_off_linearly s e) /\
   (forall code, status = PyInt code -> (code < 500)%Z ->
      _raise_for_response s e = _back_off_exponentially s e) /\
   (status = PyNone ->
      _raise_for_response s e = _back_off_exponentially s e)).
Proof.
  intros Hraw Hp.
  assert (Heq : _raise_for_response s e
                = if negb (py_in status (ignore_status_codes s))
                  then (Raise (ClosedConnectionExc message status), s, e)
                  else if py_ge_int status 500
                       then _back_off_linearly s e
                       else _back_off_exponentially s e).
  { unfold StreamWriter._raise_for_response, bind at 1, get. rewrite Hraw.
    unfold bind at 1. rewrite (@message_and_status_parsed raw message status s e Hp).
    unfold bind at 1.
    destruct (py_in status (ignore_status_codes s)); cbn [negb];
      [destruct (py_ge_int status 500)|]; reflexivity. }
  rewrite Heq. split.
  - intros ->. reflexivity.
  - intros ->. cbn [negb]. repeat split.
    + intros code -> Hc. cbn [py_ge_int].
      destruct (Z.leb_spec 500 code); [reflexivity | lia].
    + intros code -> Hc. cbn [py_ge_int].
      destruct (Z.leb_spec 500 code); [lia | reflexivity].
    + intros ->. reflexivity.
Qed.

End Response.

(** A 408 response on a default handle is not ignored: it raises
    [ClosedConnection], with no backoff. *)
Lemma ignored_408_counterexample :
  let s := set_response (Some (b "HTTP/1.1 408 Request Timeout")) (fst Demo.handle0) in
  py_in (PyInt 408) (ignore_status_codes s) = false /\
  Demo._raise_for_response s (snd Demo.handle0)
  = (Raise (ClosedConnectionExc (Str []) (PyInt 408)), s, snd Demo.handle0).
Proof.
  split; reflexivity.
Qed.

(** A 503 response on a handle that ignores 503: linear backoff. *)
Lemma response_classification_witness :
  let s := set_response (Some (b "HTTP/1.1 503 Service Unavailable"))
             (fst (Demo.__init__ Demo.token
                     (mkInitArgs (Some [PyNone; PyInt 200; PyInt 503]) None None None)
                     Demo.env0)) in
  Demo._raise_for_response s Demo.env0 = _back_off_linearly s Demo.env0.
Proof.
  intros s.
  destruct (@response_classification Demo.read_response s Demo.env0
              (b "HTTP/1.1 503 Service Unavailable") (Str []) (PyInt 503)
              eq_refl (conj eq_refl eq_refl)) as [_ H].
  destruct (H eq_refl) as [Hlin _].
  apply (Hlin 503%Z eq_refl). lia.
Defined.

(* ------------------------------------------------------------------ *)
(** * The chunk encoding *)

Lemma hex_digits_plain (d : Hexadecimal.uint) :
  Forall plain (list_byte_of_string (NilEmpty.string_of_uint d)).
Proof.
  induction d; cbn; constructor; try assumption; split; reflexivity.
Qed.

Lemma format_x_plain (n : nat) : Forall plain (format_x n).
Proof.
  unfold format_x. destruct (N.to_hex_uint (N.of_nat n));
    try apply hex_digits_plain.
  cbn. constructor; [split; reflexivity | constructor].
Qed.

Lemma hex_value_format_x (n : nat) : Http.hex_value (format_x n) = Some n.
Proof.
  unfold Http.hex_value, format_x. rewrite string_of_list_byte_of_string.
  pose proof (HexadecimalN.Unsigned.of_to (N.of_nat n)) as Hn.
  destruct (N.to_hex_uint (N.of_nat n)) as [|d|d|d|d|d|d|d|d|d|d|d|d|d|d|d|d] eqn:E.
  1: { cbn in Hn |- *. f_equal. lia. }
  all: rewrite NilZero.usu by discriminate; rewrite Hn, Nat2N.id; reflexivity.
Qed.

Lemma size_line_plain (digits rest : list byte) :
  Forall plain digits ->
  Http.size_line (digits ++ eol ++ rest) = Some (digits, rest).
Proof.
  induction 1 as [|c digits [Hc _] _ IH]; [reflexivity|].
  cbn [app Http.size_line]. rewrite Hc. cbn [app] in IH. rewrite IH. reflexivity.
Qed.

(** Reading back what [format_message] builds from any data. *)
Lemma decode_chunk_framed (data tail : list byte) :
  Http.decode_chunk (format_x (List.length data) ++ eol ++ data ++ eol ++ tail)
  = Some (data, tail).
Proof.
  unfold Http.decode_chunk.
  rewrite (size_line_plain _ (format_x_plain _)), hex_value_format_x.
  rewrite length_app.
  destruct (Nat.ltb_spec (List.length data + List.length (eol ++ tail))
                         (List.length data)) as [Hlt|_]; [lia|].
  rewrite skipn_app, Nat.sub_diag, skipn_all, firstn_app, Nat.sub_diag,
    firstn_all, firstn_O, app_nil_r.
  reflexivity.
Qed.

Lemma forallb_plain (bs : list byte) :
  Forall plain bs -> forallb is_ascii_byte bs = true.
Proof.
  induction 1 as [|c bs [_ Hc] _ IH]; [reflexivity|].
  simpl. rewrite Hc, IH. reflexivity.
Qed.

Lemma byte_of_cp_ascii (c : N) :
  is_ascii_cp c = true -> is_ascii_byte (byte_of_cp c) = true.
Proof.
  unfold is_ascii_cp, is_ascii_byte, byte_of_cp. intros H.
  apply N.ltb_lt in H.
  destruct (Byte.of_N c) as [x|] eqn:E.
  - apply Byte.to_of_N in E. rewrite E. apply N.ltb_lt. exact H.
  - reflexivity.
Qed.

(** The message that the last two statements of [_write] make of the
    queued item of an ASCII chunk reads back as the chunk followed by one
    line break. *)
Lemma ascii_chunk_round_trip (chunk : pystring) :
  is_ascii chunk = true ->
  exists data,
    chunk_message (queued chunk) = Return data /\
    Http.decode_chunk data = Some (ascii_bytes chunk ++ [x0a], []).
Proof.
  intros Ha.
  assert (Hq : is_ascii (queued chunk) = true /\
               ascii_bytes (queued chunk) = ascii_bytes chunk ++ [x0a] /\
               len (queued chunk) = List.length (ascii_bytes (queued chunk))).
  { destruct chunk as [bs|cps]; cbn in Ha |- *.
    - rewrite forallb_app, Ha. auto.
    - rewrite forallb_app, Ha, map_app, !length_app, length_map. auto. }
  destruct Hq as [Hqa [Hqb Hql]].
  exists (format_x (len (queued chunk)) ++ eol ++ ascii_bytes (queued chunk) ++ eol).
  split.
  - assert (Hf : format_message (format_x (len (queued chunk))) (queued chunk)
                 = Return (format_x (len (queued chunk)) ++ eol
                           ++ ascii_bytes (queued chunk) ++ eol)).
    { destruct (queued chunk) as [bs|cps]; cbn in Hqa |- *;
        [reflexivity | rewrite Hqa; reflexivity]. }
    unfold chunk_message. rewrite Hf. unfold encode_utf8.
    rewrite !forallb_app, (forallb_plain (format_x_plain _)).
    assert (Hb : forallb is_ascii_byte (ascii_bytes (queued chunk)) = true).
    { destruct (queued chunk) as [bs|cps]; cbn in Hqa |- *; [exact Hqa|].
      rewrite forallb_forall in Hqa |- *. intros c Hc.
      apply in_map_iff in Hc. destruct Hc as [cp [<- Hin]].
      apply byte_of_cp_ascii, Hqa, Hin. }
    rewrite Hb. reflexivity.
  - rewrite Hql, <- Hqb.
    rewrite <- (app_nil_r eol) at 2. apply decode_chunk_framed.
Qed.

(** Of a chunk that is not ASCII those statements make no message: the
    formatting raises on the [unicode] chunk [u'\xe9'], the encoding on
    the [str] chunk ['\xc3\xa9']. *)
Lemma non_ascii_chunk_has_no_message :
  chunk_message (queued (Unicode [233%N])) = Raise (Exc UnicodeEncodeError) /\
  chunk_message (queued (Str [xc3; xa9])) = Raise (Exc UnicodeDecodeError).
Proof.
  vm_compute. split; reflexivity.
Qed.

Section Drain.
Variable Obj : Type.
Variable json_dumps : Obj -> outcome pystring.
Variable read_response : list byte -> outcome (pystring * Z).
Variable plotly_streaming_domain : list byte.

Local Abbreviation write := (StreamWriter.write json_dumps read_response).
Local Abbreviation payload := (StreamWriter.payload json_dumps).
Local Abbreviation __init__ := (StreamWriter.__init__ plotly_streaming_domain).

(** C7 fails, for every chunk.  On a new handle whose queue can hold an
    item, a [write] that returns has queued the chunk with its line break.
    The [_write] of the worker, which has a writer, takes the item from
    the queue and calls [write()] on the writer without the data; the call
    is refused, so [_write] raises [TypeError] before the message is
    built: no byte is emitted for the chunk, there is nothing to decode,
    and the item is no longer queued. *)
Theorem queued_chunk_is_not_sent (token : list byte) (kw : InitArgs) (e : Env)
    (chunk : chunk_arg Obj) (w : Conn) (e2 : Env) :
  queue_length (fst (__init__ token kw e)) <> Some 0%nat ->
  let run := write chunk (fst (__init__ token kw e)) (snd (__init__ token kw e)) in
  result_of run = Return tt ->
  let drain := _write (set_writer (Some w) (object_of run)) e2 in
  exists x,
    payload chunk = Return x /\
    items (_queue (object_of run)) = [queued x] /\
    result_of drain = Raise (Exc TypeError) /\
    env_of drain = e2 /\
    _chunk (object_of drain) = Some (queued x) /\
    items (_queue (object_of drain)) = [].
Proof.
  intros Hlen run Hr drain.
  destruct run as [[r s'] e'] eqn:E. unfold run in E.
  unfold result_of in Hr. cbn [fst] in Hr. subst r.
  pose proof (@write_queue Obj json_dumps read_response chunk _ _ _ _ _ E) as W.
  cbn beta iota in W. destruct W as [x [Hx Hq]].
  exists x. unfold drain, object_of. cbn [fst snd]. clear drain.
  assert (Hitems : items (_queue s') = [queued x]).
  { rewrite Hq. cbn [_queue StreamWriter.__init__ fst] in Hlen |- *.
    unfold appendleft, new_deque. cbn [items maxlen List.length].
    destruct (or_default (kw_queue_length kw) default_queue_length) as [[|m]|];
      [contradiction | reflexivity | reflexivity]. }
  split; [exact Hx|]. split; [exact Hitems|].
  rewrite (@_write_arrival (set_writer (Some w) s') e2 (queued x) [])
    by (cbn [_queue set_writer]; rewrite Hitems; reflexivity).
  unfold result_of, object_of, env_of. cbn [fst snd].
  repeat split.
Qed.

End Drain.

(** [write('a')] on the default handle, and the worker on connection 0. *)
Lemma queued_chunk_is_not_sent_witness :
  let run := Demo.write (Text _ (Str (b "a"))) (fst Demo.handle0) (snd Demo.handle0) in
  let drain := _write (set_writer (Some 0%nat) (object_of run)) Demo.env0 in
  result_of run = Return tt /\
  items (_queue (object_of run)) = [Str (b "a" ++ [x0a])] /\
  result_of drain = Raise (Exc TypeError) /\
  wire (env_of drain) = [] /\
  items (_queue (object_of drain)) = [].
Proof.
  destruct (@queued_chunk_is_not_sent unit Demo.json_dumps Demo.read_response
              Demo.plotly_streaming_domain Demo.token no_kwargs Demo.env0
              (Text _ (Str (b "a"))) 0%nat Demo.env0
              ltac:(discriminate) eq_refl)
    as [x [Hx [Hq [Hr [He [_ Hi]]]]]].
  cbn in Hx. injection Hx as <-.
  split; [reflexivity|]. split; [exact Hq|]. split; [exact Hr|].
  split; [exact (f_equal wire He) | exact Hi].
Defined.

(* ------------------------------------------------------------------ *)
(** * Failures of the worker and the next [open] *)

Section Failures.
Variable Obj : Type.
Variable json_dumps : Obj -> outcome pystring.
Variable read_response : list byte -> outcome (pystring * Z).

Local Abbreviation open := (StreamWriter.open read_response).
Local Abbreviation _read_write := (StreamWriter._read_write json_dumps read_response).
Local Abbreviation _read_write_try := (StreamWriter._read_write_try json_dumps read_response).
Local Abbreviation _thread_func := (StreamWriter._thread_func json_dumps read_response).

(** An [Exception] raised in the [try] suite of the worker does not leave
    the coroutine: it is stored in [_error] and the coroutine returns. *)
Lemma _read_write_captures (fuel : nat) (t : ThreadId) s e x s1 e1 :
  _read_write_try fuel t s e = (Raise x, s1, e1) ->
  isinstance x [Exception] = true ->
  result_of (_read_write fuel t s e) = Return Done /\
  _error (object_of (_read_write fuel t s e)) = Some x.
Proof.
  intros Hb Hx. unfold StreamWriter._read_write, try_except_finally.
  rewrite Hb, Hx. unfold bind, update, get, ret, writer_call.
  cbn. destruct (_writer s1) eqn:Ew; cbn; rewrite ?Ew; cbn; auto.
Qed.

Lemma open_connected s e :
  result_of (connected s e) = Return true -> open s e = (Return tt, s, e).
Proof.
  unfold StreamWriter.open, result_of, connected. cbn [fst].
  intros H. injection H as H. unfold bind at 1. cbv beta. rewrite H. reflexivity.
Qed.

Lemma open_not_connected s e :
  result_of (connected s e) = Return false ->
  open s e = (StreamWriter._raise_for_response read_response ;;
              _raise_for_error ;; _reset ;; start_thread) s e.
Proof.
  unfold StreamWriter.open, result_of, connected. cbn [fst].
  intros H. injection H as H. unfold bind at 1. cbv beta. rewrite H. reflexivity.
Qed.

(** [open()] with a stored error and no pending response. *)
Lemma open_stored_error (s : StreamWriter) (e : Env) (x : exn) :
  result_of (connected s e) = Return false ->
  _response s = None ->
  _error s = Some x ->
  open s e
  = (if negb (isinstance x (ignore_errors s))
     then raise x
     else (if isinstance x [socket_error]
           then _back_off_linearly else ret tt) ;;
          _reset ;; start_thread) s e.
Proof.
  intros Hc Hr He.
  rewrite (open_not_connected Hc).
  unfold bind at 1, StreamWriter._raise_for_response, bind at 1, get.
  rewrite Hr. unfold ret at 1.
  unfold bind at 1, _raise_for_error, bind at 1, get. rewrite He.
  unfold bind at 1, get.
  destruct (isinstance x (ignore_errors s)); cbn [negb]; [|reflexivity].
  unfold bind at 3. reflexivity.
Qed.


(** An ignored error that is not a [socket.error]: [open()] goes straight
    to the reset and the new worker. *)
Lemma ignored_error_without_backoff (s : StreamWriter) (e : Env) (x : exn) :
  result_of (connected s e) = Return false ->
  _response s = None ->
  _error s = Some x ->
  isinstance x (ignore_errors s) = true ->
  isinstance x [socket_error] = false ->
  open s e = (_reset ;; start_thread) s e.
Proof.
  intros Hc Hr He Hi Hs.
  rewrite (open_stored_error Hc Hr He), Hi, Hs. reflexivity.
Qed.

End Failures.



(** End to end: the connection attempt of the worker raises
    [socket.error]; the thread stores it and ends; the next [open()] on the
    default handle re-raises it and leaves it stored. *)
Lemma refused_connection_example :
  let e0 := mkEnv (fun k => inject_Z (Z.of_nat k)) 0 [] [] []
                  (fun _ => Raise (Exc socket_error)) 0 (fun _ => TimedOut) 0 in
  let h := Demo.__init__ Demo.token no_kwargs e0 in
  let opened := Demo.open (fst h) (snd h) in
  let ran := Demo._thread_func 10%nat 0%nat (object_of opened) (env_of opened) in
  let again := Demo.open (object_of ran) (env_of ran) in
  result_of opened = Return tt /\
  result_of ran = Return Done /\
  _error (object_of ran) = Some (Exc socket_error) /\
  result_of (connected (object_of ran) (env_of ran)) = Return false /\
  result_of again = Raise (Exc socket_error) /\
  _error (object_of again) = Some (Exc socket_error) /\
  threads (env_of again) = threads (env_of ran).
Proof.
  vm_compute. repeat split.
Qed.

(* ------------------------------------------------------------------ *)
(** * The heartbeat *)

Section Heartbeat.
Variable Obj : Type.
Variable json_dumps : Obj -> outcome pystring.
Variable read_response : list byte -> outcome (pystring * Z).

Local Abbreviation _check_pulse := (StreamWriter._check_pulse json_dumps read_response).
Local Abbreviation write := (StreamWriter.write json_dumps read_response).

(** What one call of [_check_pulse] does. *)
Lemma _check_pulse_eq s e :
  _check_pulse s e =
  let e2 := set_ticks (S (ticks (after_beat s e))) (after_beat s e) in
  if Qgtb (now_of s e - beat_of s e) (inject_Z 30)
  then if nonempty (_queue s)
       then (Return tt, set_last_beat (Some (now_of s e)) s, e2)
       else write (Text Obj (Str [])) (set_last_beat (Some (now_of s e)) s) e2
  else (Return tt, set_last_beat (Some (beat_of s e)) s, e2).
Proof.
  unfold StreamWriter._check_pulse, now_of, beat_of, after_beat.
  generalize (write (Text Obj (Str []))) as w. intros w.
  unfold bind, get, update, time_time, ret.
  destruct (truthy (_last_beat s)); cbn;
    match goal with |- context [Qgtb ?a ?b] => destruct (Qgtb a b) end;
    cbn; try reflexivity;
    destruct (nonempty (_queue s)); reflexivity.
Qed.

(** The three ways through [_check_pulse]. *)
Lemma _check_pulse_cases s e :
  let e2 := set_ticks (S (ticks (after_beat s e))) (after_beat s e) in
  (Qgtb (now_of s e - beat_of s e) (inject_Z 30) = false /\
   _check_pulse s e = (Return tt, set_last_beat (Some (beat_of s e)) s, e2)) \/
  (Qgtb (now_of s e - beat_of s e) (inject_Z 30) = true /\
   nonempty (_queue s) = true /\
   _check_pulse s e = (Return tt, set_last_beat (Some (now_of s e)) s, e2)) \/
  (Qgtb (now_of s e - beat_of s e) (inject_Z 30) = true /\
   nonempty (_queue s) = false /\
   _check_pulse s e
   = write (Text Obj (Str [])) (set_last_beat (Some (now_of s e)) s) e2).
Proof.
  cbv zeta. rewrite _check_pulse_eq. cbv zeta.
  destruct (Qgtb (now_of s e - beat_of s e) (inject_Z 30)); [|left; auto].
  right. destruct (nonempty (_queue s)); [left | right]; auto.
Qed.

(** [_check_pulse] touches the queue only on its heartbeat path. *)
Lemma _check_pulse_enqueues s e :
  _queue (object_of (_check_pulse s e)) <> _queue s ->
  30 < now_of s e - beat_of s e /\
  items (_queue s) = [] /\
  _check_pulse s e
  = write (Text Obj (Str [])) (set_last_beat (Some (now_of s e)) s)
          (set_ticks (S (ticks (after_beat s e))) (after_beat s e)).
Proof.
  intros Hq.
  destruct (_check_pulse_cases s e) as [[_ H]|[[_ [_ H]]|[Hg [Hn H]]]].
  - rewrite H in Hq. exfalso. apply Hq. reflexivity.
  - rewrite H in Hq. exfalso. apply Hq. reflexivity.
  - split; [apply Qgtb_true in Hg; exact Hg|]. split; [|exact H].
    unfold nonempty in Hn. destruct (items (_queue s)); [reflexivity|discriminate].
Qed.

(** Both instants a call compares are not before the latest heartbeat. *)
Lemma pulse_times s e e0 t :
  monotone (clock e0) ->
  clock e = clock e0 ->
  ((exists i, (i < ticks e)%nat /\ clock e0 i = t) /\
   (forall q, _last_beat s = Some q -> truthy (Some q) = true -> t <= q)) ->
  t <= beat_of s e /\ t <= now_of s e.
Proof.
  intros Hmono Hk [[i [Hi Hti]] Hlb]. unfold beat_of, now_of, after_beat.
  destruct (truthy (_last_beat s)) eqn:Et.
  - split.
    + destruct (_last_beat s) as [q|] eqn:Eq; [|discriminate].
      apply Hlb; auto.
    + rewrite Hk, <- Hti. apply Hmono. lia.
  - cbn [ticks set_ticks]. rewrite Hk, <- Hti.
    split; apply Hmono; lia.
Qed.

(** [_check_pulse] in the worker of a connected handle. *)
Lemma _check_pulse_connected s e :
  result_of (connected s e) = Return true ->
  env_of (_check_pulse s e)
  = set_ticks (S (ticks (after_beat s e))) (after_beat s e) /\
  ((now_of s e - beat_of s e <= 30 /\
    _last_beat (object_of (_check_pulse s e)) = Some (beat_of s e) /\
    _queue (object_of (_check_pulse s e)) = _queue s) \/
   (30 < now_of s e - beat_of s e /\
    _last_beat (object_of (_check_pulse s e)) = Some (now_of s e))).
Proof.
  intros Hc.
  assert (Hc' : is_connected (set_last_beat (Some (now_of s e)) s)
                  (set_ticks (S (ticks (after_beat s e))) (after_beat s e))).
  { unfold is_connected, after_beat.
    destruct (truthy (_last_beat s)); exact Hc. }
  destruct (_check_pulse_cases s e) as [[Hg H]|[[Hg [_ H]]|[Hg [_ H]]]];
    rewrite H; clear H.
  - split; [reflexivity|]. left. apply Qgtb_false in Hg. auto.
  - split; [reflexivity|]. right. apply Qgtb_true in Hg. auto.
  - rewrite (write_text_connected json_dumps read_response (Str []) Hc').
    split; [reflexivity|]. right. apply Qgtb_true in Hg. auto.
Qed.

Lemma spaced_cons (now t : Q) (hb : list Q) :
  spaced (t :: hb) -> 30 < now - t -> spaced (now :: t :: hb).
Proof.
  intros Hsp Hgap. unfold spaced in *. constructor; [|exact Hsp].
  constructor; [exact Hgap|].
  inversion Hsp as [|? ? Hall _]; subst.
  rewrite Forall_forall in Hall |- *. intros t' Hin.
  specialize (Hall t' Hin). cbv beta in Hall. lra.
Qed.

Lemma pulse_run_invariant s0 e0 s e hb :
  monotone (clock e0) ->
  pulse_run json_dumps read_response s0 e0 s e hb ->
  clock e = clock e0 /\
  spaced hb /\
  match hb with
  | [] => True
  | t :: _ =>
      (exists i, (i < ticks e)%nat /\ clock e0 i = t) /\
      (forall q, _last_beat s = Some q -> truthy (Some q) = true -> t <= q)
  end.
Proof.
  intros Hmono Hrun.
  induction Hrun as [ | s e hb Hrun IH Hc Hq | s e hb now Hrun IH Hc Hq Hb
                      | s e hb s' e' Hrun IH Hb Hk Ht ].
  - split; [reflexivity|]. split; [constructor | exact I].
  - destruct IH as [Hk [Hsp Hhd]].
    destruct (_check_pulse_connected Hc) as [He Hcases]. rewrite He.
    split; [unfold after_beat; destruct (truthy _); exact Hk|].
    split; [exact Hsp|]. destruct hb as [|t hb']; [exact I|].
    destruct (@pulse_times s e e0 t Hmono Hk Hhd) as [Hbeat Hnow].
    destruct Hhd as [[i [Hi Hti]] _]. split.
    + exists i. split; [|exact Hti].
      unfold after_beat. destruct (truthy _); cbn [ticks set_ticks]; lia.
    + intros q Hq' _.
      destruct Hcases as [[_ [Hl _]]|[_ Hl]]; rewrite Hl in Hq';
        injection Hq' as <-; assumption.
  - destruct IH as [Hk [Hsp Hhd]].
    destruct (_check_pulse_connected Hc) as [He Hcases]. rewrite He.
    destruct Hcases as [[_ [_ Hsame]]|[Hgap Hl]]; [contradiction|].
    rewrite Hl in Hb. injection Hb as <-.
    split; [unfold after_beat; destruct (truthy _); exact Hk|].
    split.
    + destruct hb as [|t hb']; [repeat constructor|].
      destruct (@pulse_times s e e0 t Hmono Hk Hhd) as [Hbeat _].
      apply spaced_cons; [exact Hsp | lra].
    + split.
      * exists (ticks (after_beat s e)). split; [cbn [ticks set_ticks]; lia|].
        unfold now_of. rewrite Hk. reflexivity.
      * intros q Hq' _. rewrite Hl in Hq'. injection Hq' as <-. apply Qle_refl.
  - destruct IH as [Hk0 [Hsp Hhd]].
    split; [congruence|]. split; [exact Hsp|].
    destruct hb as [|t hb']; [exact I|].
    destruct Hhd as [[i [Hi Hti]] Hlb]. split.
    + exists i. split; [lia | exact Hti].
    + intros q Hq' Htq. destruct Hb as [Hb|Hb]; rewrite Hb in Hq'.
      * apply Hlb; assumption.
      * discriminate.
Qed.

Lemma ordered_pairs_nth (A : Type) (R : A -> A -> Prop) (l : list A) :
  ForallOrdPairs R l ->
  forall i j x y, (i < j)%nat ->
    nth_error l i = Some x -> nth_error l j = Some y -> R x y.
Proof.
  induction 1 as [|a l Hall _ IH]; intros i j x y Hij Hi Hj.
  - destruct i; discriminate.
  - destruct j as [|j]; [lia|]. cbn in Hj. destruct i as [|i]; cbn in Hi.
    + injection Hi as <-. rewrite Forall_forall in Hall.
      apply Hall. eapply nth_error_In. exact Hj.
    + apply (IH i j); [lia | assumption | assumption].
Qed.

(** C9.  A call of [_check_pulse] enqueues the keep-alive only when more
    than 30 seconds separate the clock from the last recorded beat (a beat
    read at the start of the call when none is recorded) and the queue is
    empty.  Along any run of a connected handle under a clock that does not
    go back, two enqueued keep-alives are more than 30 seconds apart, so no
    window of 30 seconds holds two of them. *)
Theorem heartbeat_spacing (s0 : StreamWriter) (e0 : Env) (s : StreamWriter)
    (e : Env) (hb : list Q) :
  monotone (clock e0) ->
  pulse_run json_dumps read_response s0 e0 s e hb ->
  (forall s1 e1,
     _queue (object_of (_check_pulse s1 e1)) <> _queue s1 ->
     30 < now_of s1 e1 - beat_of s1 e1 /\ items (_queue s1) = []) /\
  spaced hb /\
  (forall i j later earlier, (i < j)%nat ->
     nth_error hb i = Some later -> nth_error hb j = Some earlier ->
     30 < later - earlier /\
     forall a, ~ (a <= earlier /\ later <= a + 30)).
Proof.
  intros Hmono Hrun.
  destruct (pulse_run_invariant Hmono Hrun) as [_ [Hsp _]].
  split; [|split; [exact Hsp|]].
  - intros s1 e1 Hq. destruct (@_check_pulse_enqueues s1 e1 Hq) as [H1 [H2 _]]. auto.
  - intros i j later earlier Hij Hi Hj.
    pose proof (ordered_pairs_nth Hsp Hij Hi Hj) as Hgap. cbv beta in Hgap.
    split; [exact Hgap|]. intros a [H1 H2]. lra.
Qed.

End Heartbeat.

Lemma demo_clock_monotone : monotone (fun k => inject_Z (Z.of_nat k)).
Proof.
  intros i j Hij. rewrite <- Zle_Qle. lia.
Qed.

(** A run with two keep-alives: the worker of an opened handle checks the
    pulse at 3 s, at 40 s and, the queue drained, at 80 s. *)
Lemma heartbeat_spacing_witness :
  spaced [inject_Z 80; inject_Z 40].
Proof.
  pose (opened := Demo.open (fst Demo.handle0) (snd Demo.handle0)).
  pose (p1 := Demo._check_pulse (object_of opened) (env_of opened)).
  pose (p2 := Demo._check_pulse (object_of p1) (set_ticks 40 (env_of p1))).
  pose (p3 := Demo._check_pulse
                (set_queue (new_deque pystring (Some 500%nat)) (object_of p2))
                (set_ticks 80 (env_of p2))).
  assert (Hrun : pulse_run Demo.json_dumps Demo.read_response
                   (object_of opened) (env_of opened)
                   (object_of p3) (env_of p3) [inject_Z 80; inject_Z 40]).
  { apply run_beat; [ | reflexivity | vm_compute; discriminate | reflexivity ].
    apply run_other with (s := object_of p2) (e := env_of p2);
      [ | left; reflexivity | reflexivity | vm_compute; lia ].
    apply run_beat; [ | reflexivity | vm_compute; discriminate | reflexivity ].
    apply run_other with (s := object_of p1) (e := env_of p1);
      [ | left; reflexivity | reflexivity | vm_compute; lia ].
    apply run_quiet; [ | reflexivity | reflexivity ].
    apply run_start. }
  exact (proj1 (proj2 (@heartbeat_spacing unit Demo.json_dumps Demo.read_response
                          (object_of opened) (env_of opened) _ _ _
                          demo_clock_monotone Hrun))).
Defined.

(* ------------------------------------------------------------------ *)
(** * What the reset leaves alone *)

Lemma _reset_eq s e :
  _reset s e
  = (Return tt,
     set_writer None (set_reader None (set_last_beat None
       (set_error None (set_response None s)))), e).
Proof. reflexivity. Qed.

Lemma after_reset_keeps_counters : keeps failure_counters (_reset ;; start_thread).
Proof. unfold _reset, start_thread. frame. Qed.

Lemma _write_keeps_counters : keeps failure_counters _write.
Proof.
  unfold _write, queue_pop. frame.
  intros s e. unfold object_of. destruct (pop (_queue s)). reflexivity.
Qed.

Lemma close_keeps_counters : keeps failure_counters close.
Proof.
  unfold close. apply keeps_bind; [frame | intros c].
  apply keeps_if; [frame|].
  apply keeps_bind; [|intros; frame].
  intros s e. unfold disconnect_thread, object_of.
  destruct (_thread s); reflexivity.
Qed.

Section Reset.
Variable read_response : list byte -> outcome (pystring * Z).

Local Abbreviation open := (StreamWriter.open read_response).
Local Abbreviation _raise_for_response := (StreamWriter._raise_for_response read_response).

(** C10.  [_reset] clears the pending response, the stored error, the
    heartbeat instant and the reader and writer references, and nothing
    else: both failure counters and the instants of the last failures stay,
    as do the queue, the thread and the configuration.  An [open()] on a
    handle that is not connected is the two checks followed by the reset
    and the thread start, and these last two keep the counters; so do
    [_write] and [close].  A counter changes only in its backoff routine,
    which adds one to it, after setting it to zero when the last failure is
    more than twice the maximal wait old.  [__init__] starts both at 0. *)
Theorem reset_keeps_failure_counters (s : StreamWriter) (e : Env) :
  let s' := object_of (_reset s e) in
  (result_of (_reset s e) = Return tt /\ env_of (_reset s e) = e) /\
  (_response s' = None /\ _error s' = None /\ _last_beat s' = None /\
   _reader s' = None /\ _writer s' = None) /\
  (_connect_errors s' = _connect_errors s /\
   _last_connect_error s' = _last_connect_error s /\
   _disconnections s' = _disconnections s /\
   _last_disconnection s' = _last_disconnection s) /\
  (_queue s' = _queue s /\ _thread s' = _thread s /\ _chunk s' = _chunk s /\
   ignore_status_codes s' = ignore_status_codes s /\
   ignore_errors s' = ignore_errors s /\
   queue_length s' = queue_length s /\
   initial_write_timeout s' = initial_write_timeout s /\
   token s' = token s /\ host s' = host s /\ port s' = port s /\
   _headers s' = _headers s) /\
  (result_of (connected s e) = Return false ->
   open s e = (_raise_for_response ;; _raise_for_error ;;
               _reset ;; start_thread) s e) /\
  keeps failure_counters (_reset ;; start_thread) /\
  keeps failure_counters _write /\
  keeps failure_counters close /\
  (let after := object_of (_back_off_linearly s e) in
   (_disconnections after = _disconnections s /\
    _last_disconnection after = _last_disconnection s) /\
   (_connect_errors after = (_connect_errors s + 1)%Z \/
    (inject_Z (linear_wait_max * 2) < clock e (ticks e) - _last_connect_error s /\
     _connect_errors after = 1%Z))) /\
  (let after := object_of (_back_off_exponentially s e) in
   (_connect_errors after = _connect_errors s /\
    _last_connect_error after = _last_connect_error s) /\
   (_disconnections after = (_disconnections s + 1)%Z \/
    (inject_Z (exponential_wait_max * 2) < clock e (ticks e) - _last_disconnection s /\
     _disconnections after = 1%Z))).
Proof.
  cbv zeta. rewrite _reset_eq. unfold object_of, result_of, env_of.
  cbn [fst snd].
  split; [split; reflexivity|].
  split; [repeat split|].
  split; [repeat split|].
  split; [repeat split|].
  split; [apply open_not_connected|].
  split; [exact after_reset_keeps_counters|].
  split; [exact _write_keeps_counters|].
  split; [exact close_keeps_counters|].
  split.
  - rewrite _back_off_linearly_eq. cbv zeta.
    destruct (Qgtb (clock e (ticks e) - _last_connect_error s) (inject_Z 32)) eqn:Eg;
      destruct (Qgtb _ (inject_Z linear_wait_max));
      cbn [fst snd _connect_errors _disconnections _last_disconnection
             set_connect_errors set_last_connect_error];
      (split; [split; reflexivity|]);
      try (left; reflexivity);
      right; (split; [apply Qgtb_true in Eg; exact Eg | reflexivity]).
  - rewrite _back_off_exponentially_eq. cbv zeta.
    destruct (Qgtb (clock e (ticks e) - _last_disconnection s) (inject_Z 640)) eqn:Eg;
      destruct (Qgtb _ (inject_Z exponential_wait_max));
      cbn [fst snd _connect_errors _disconnections _last_connect_error
             set_disconnections set_last_disconnection];
      (split; [split; reflexivity|]);
      try (left; reflexivity);
      right; (split; [apply Qgtb_true in Eg; exact Eg | reflexivity]).
Qed.

End Reset.

(** A new handle starts with both counters at 0; after three refused
    connections and three [open()] calls that ignore them the connect
    counter is 3 across the resets. *)
Lemma counters_carry_over_example :
  let h := Demo.__init__ Demo.token
             (mkInitArgs None (Some [socket_error]) None None) Demo.env0 in
  let fail se := (set_error (Some (Exc socket_error)) (fst se), snd se) in
  let reopen se :=
    let out := Demo.open (fst (fail se)) (snd (fail se)) in
    (set_thread None (object_of out), env_of out) in
  _connect_errors (fst h) = 0%Z /\ _disconnections (fst h) = 0%Z /\
  _connect_errors (fst (reopen (reopen (reopen h)))) = 3%Z /\
  sleeps (snd (reopen (reopen (reopen h)))) = [1 # 4; 2 # 4; 3 # 4].
Proof.
  vm_compute. repeat split.
Qed.

(* ------------------------------------------------------------------ *)
(** * Further properties of the stream writer *)

Section Writer.
Variable Obj : Type.
Variable json_dumps : Obj -> outcome pystring.
Variable read_response : list byte -> outcome (pystring * Z).

Local Abbreviation open := (StreamWriter.open read_response).
Local Abbreviation write := (StreamWriter.write json_dumps read_response).
Local Abbreviation payload := (StreamWriter.payload json_dumps).
Local Abbreviation read_write_loop := (StreamWriter.read_write_loop json_dumps read_response).
Local Abbreviation _read_write := (StreamWriter._read_write json_dumps read_response).
Local Abbreviation _thread_func := (StreamWriter._thread_func json_dumps read_response).

(** X1.  A call of [write] either returns, and then exactly one item, the
    payload followed by a line break, was added at the left end of the
    queue, or raises, and then the queue is as it was. *)
Theorem write_all_or_nothing (chunk : chunk_arg Obj) (s : StreamWriter) (e : Env) :
  (exists x,
     payload chunk = Return x /\
     result_of (write chunk s e) = Return tt /\
     _queue (object_of (write chunk s e)) = appendleft (queued x) (_queue s)) \/
  (exists err,
     result_of (write chunk s e) = Raise err /\
     _queue (object_of (write chunk s e)) = _queue s).
Proof.
  destruct (write chunk s e) as [[r s'] e'] eqn:E.
  pose proof (write_queue json_dumps read_response _ _ _ E) as W.
  unfold result_of, object_of. cbn [fst snd].
  destruct r as [[]|err].
  - left. destruct W as [x [Hx Hq]]. exists x. auto.
  - right. exists err. auto.
Qed.

End Writer.

(** X2.  One call of [_back_off_linearly] on any handle.  When the last
    connect failure is more than 32 s old the count restarts: the call
    sleeps 0.25 s and does not raise, whatever the count was.  Otherwise
    the count goes up by one, and the call raises [TooManyConnectFailures]
    without sleeping exactly when the new count is 65 or more, and sleeps
    a quarter of a second per counted failure below that. *)
Theorem linear_backoff_call (s : StreamWriter) (e : Env) :
  let elapsed := clock e (ticks e) - _last_connect_error s in
  let out := _back_off_linearly s e in
  let n := _connect_errors (object_of out) in
  _last_connect_error (object_of out) = clock e (ticks e) /\
  (inject_Z 32 < elapsed ->
   n = 1%Z /\ result_of out = Return tt /\
   sleeps (env_of out) = sleeps e ++ [inject_Z 1 * (1 # 4)]) /\
  (elapsed <= inject_Z 32 ->
   n = (_connect_errors s + 1)%Z /\
   ((65 <= n)%Z ->
    result_of out = Raise (Exc TooManyConnectFailures) /\
    sleeps (env_of out) = sleeps e) /\
   ((n <= 64)%Z ->
    result_of out = Return tt /\
    sleeps (env_of out) = sleeps e ++ [inject_Z n * (1 # 4)])).
Proof.
  cbv zeta. rewrite _back_off_linearly_eq. cbv zeta.
  change linear_back_off_rate with (1 # 4).
  assert (Hcase : forall n : Z,
            (Qgtb (inject_Z n * (1 # 4)) (inject_Z linear_wait_max) = true /\ (65 <= n)%Z) \/
            (Qgtb (inject_Z n * (1 # 4)) (inject_Z linear_wait_max) = false /\ (n <= 64)%Z)).
  { intros n. destruct (Qgtb _ _) eqn:E.
    - left. split; [reflexivity|]. apply Qgtb_true in E.
      apply (linear_wait_over n). exact E.
    - right. split; [reflexivity|]. apply Qgtb_false in E.
      destruct (Z_le_gt_dec n 64) as [|Hgt]; [assumption|]. exfalso.
      apply (Qle_not_lt _ _ E). apply (linear_wait_over n). lia. }
  destruct (Qgtb (clock e (ticks e) - _last_connect_error s) (inject_Z 32)) eqn:Eq.
  - apply Qgtb_true in Eq.
    destruct (Hcase (0 + 1)%Z) as [[_ H]|[Hg _]]; [lia|]. rewrite Hg.
    unfold object_of, result_of, env_of. cbn.
    split; [reflexivity|]. split.
    + intros _. repeat split.
    + intros Hle. exfalso. exact (Qle_not_lt _ _ Hle Eq).
  - apply Qgtb_false in Eq.
    destruct (Hcase (_connect_errors s + 1)%Z) as [[Hg Hn]|[Hg Hn]]; rewrite Hg;
      unfold object_of, result_of, env_of; cbn;
      (split; [reflexivity|]); (split; [intros Hlt; exfalso; exact (Qle_not_lt _ _ Eq Hlt)|]);
      intros _; (split; [reflexivity|]); split; intros Hn'; try lia; split; reflexivity.
Qed.

Lemma py_pow_one : py_pow exponential_back_off_base 1 == inject_Z 5.
Proof. reflexivity. Qed.

(** X3.  One call of [_back_off_exponentially] on a handle whose count is
    not negative.  When the last disconnection is more than 640 s old the
    count restarts: the call sleeps 5 s and does not raise.  Otherwise the
    count goes up by one, and the call raises [TooManyConnectFailures]
    without sleeping exactly when the new count is 4 or more, and sleeps
    5 to the power of the count below that. *)
Theorem exponential_backoff_call (s : StreamWriter) (e : Env) :
  (0 <= _disconnections s)%Z ->
  let elapsed := clock e (ticks e) - _last_disconnection s in
  let out := _back_off_exponentially s e in
  let n := _disconnections (object_of out) in
  _last_disconnection (object_of out) = clock e (ticks e) /\
  (inject_Z 640 < elapsed ->
   n = 1%Z /\ result_of out = Return tt /\
   sleeps (env_of out) = sleeps e ++ [py_pow 5 1] /\ py_pow 5 1 == inject_Z 5) /\
  (elapsed <= inject_Z 640 ->
   n = (_disconnections s + 1)%Z /\
   ((4 <= n)%Z ->
    result_of out = Raise (Exc TooManyConnectFailures) /\
    sleeps (env_of out) = sleeps e) /\
   ((n <= 3)%Z ->
    result_of out = Return tt /\
    sleeps (env_of out) = sleeps e ++ [py_pow 5 n] /\
    py_pow 5 n == inject_Z (5 ^ n))).
Proof.
  intros Hpos. cbv zeta. rewrite _back_off_exponentially_eq. cbv zeta.
  change exponential_back_off_base with 5%Z.
  assert (Hcase : forall n : Z, (0 <= n)%Z ->
            (Qgtb (py_pow 5 n) (inject_Z exponential_wait_max) = true /\ (4 <= n)%Z) \/
            (Qgtb (py_pow 5 n) (inject_Z exponential_wait_max) = false /\ (n <= 3)%Z)).
  { intros n Hn. destruct (Qgtb _ _) eqn:E.
    - left. split; [reflexivity|]. apply Qgtb_true in E.
      apply (exponential_wait_over Hn). exact E.
    - right. split; [reflexivity|]. apply Qgtb_false in E.
      destruct (Z_le_gt_dec n 3) as [|Hgt]; [assumption|]. exfalso.
      apply (Qle_not_lt _ _ E). apply (exponential_wait_over Hn). lia. }
  destruct (Qgtb (clock e (ticks e) - _last_disconnection s) (inject_Z 640)) eqn:Eq.
  - apply Qgtb_true in Eq.
    destruct (@Hcase (0 + 1)%Z ltac:(lia)) as [[_ H]|[Hg _]]; [lia|]. rewrite Hg.
    unfold object_of, result_of, env_of. cbn [fst snd _disconnections _last_disconnection set_disconnections set_last_disconnection sleeps set_sleeps set_ticks].
    split; [reflexivity|]. split.
    + intros _. repeat split.
    + intros Hle. exfalso. exact (Qle_not_lt _ _ Hle Eq).
  - apply Qgtb_false in Eq.
    destruct (@Hcase (_disconnections s + 1)%Z ltac:(lia)) as [[Hg Hn]|[Hg Hn]];
      rewrite Hg; unfold object_of, result_of, env_of; cbn [fst snd _disconnections _last_disconnection set_disconnections set_last_disconnection sleeps set_sleeps set_ticks];
      (split; [reflexivity|]);
      (split; [intros Hlt; exfalso; exact (Qle_not_lt _ _ Eq Hlt)|]);
      intros _; (split; [reflexivity|]); split; intros Hn'; try lia.
    + split; reflexivity.
    + split; [reflexivity|]. split; [reflexivity|].
      apply py_pow_nonneg. lia.
Qed.

(** The fourth disconnection in a row raises; after eleven quiet minutes
    the next one sleeps 5 s again. *)
Lemma exponential_backoff_call_witness :
  let s := set_disconnections 3 (fst Demo.handle0) in
  let e := set_ticks 700 (snd Demo.handle0) in
  (result_of (_back_off_exponentially (set_last_disconnection (inject_Z 699) s) e)
   = Raise (Exc TooManyConnectFailures)) /\
  (result_of (_back_off_exponentially s e) = Return tt /\
   sleeps (env_of (_back_off_exponentially s e)) = [py_pow 5 1]).
Proof.
  intros s e. split.
  - destruct (@exponential_backoff_call (set_last_disconnection (inject_Z 699) s) e
                ltac:(cbn; lia)) as [_ [_ H]].
    destruct H as [_ [H _]]; [vm_compute; discriminate|].
    apply H. cbn. lia.
  - destruct (@exponential_backoff_call s e ltac:(cbn; lia)) as [_ [H _]].
    destruct H as [_ [H1 [H2 _]]]; [vm_compute; reflexivity|].
    split; [exact H1 | exact H2].
Defined.

(* ------------------------------------------------------------------ *)
(** * The handshake *)

Lemma write_headers_eq (headers : list (list byte * list byte)) s e w :
  _writer s = Some w ->
  exists calls,
    write_headers headers s e = (Return tt, s, set_wire (wire e ++ calls) e) /\
    Forall (fun c => fst c = w /\ exists data, snd c = WrData data) calls /\
    sent_bytes calls
    = List.concat (map (fun hv => fst hv ++ b ": " ++ snd hv ++ eol) headers) /\
    List.length calls = (2 * List.length headers)%nat.
Proof.
  intros Hw. revert e. induction headers as [|[h v] rest IH]; intros e.
  - exists []. cbn. rewrite app_nil_r. destruct e; repeat split; constructor.
  - cbn [write_headers]. unfold bind at 1, writer_call at 1. rewrite Hw.
    unfold bind at 1, writer_call at 1. rewrite Hw.
    match goal with
    | |- context [write_headers rest s ?e'] =>
        destruct (IH e') as [calls [Hrun [Hall [Hb Hl]]]]; rewrite Hrun
    end.
    exists ((w, WrData (h ++ b ": " ++ v)) :: (w, WrData eol) :: calls).
    split; [|split; [|split]].
    + destruct e.
      cbn [wire set_wire clock ticks sleeps threads connect_at connections
             read_at nreads].
      rewrite <- ?app_assoc. reflexivity.
    + constructor; [split; [reflexivity | eexists; reflexivity]|].
      constructor; [split; [reflexivity | eexists; reflexivity]|]. exact Hall.
    + unfold sent_bytes in *. cbn [map List.concat snd fst]. rewrite Hb.
      rewrite <- !app_assoc. reflexivity.
    + cbn [List.length]. rewrite Hl. lia.
Qed.

(** X4.  With a transport writer in place, [_initial_write] returns after
    handing the writer, in 2n + 3 calls for n headers, the bytes of the
    request line [POST / HTTP/1.1], of one [Name: Value] line per header
    and of an empty line, each ended by CR LF, and nothing else; it leaves
    the object as it was.  Without a writer it raises [AttributeError] and
    no call is made. *)
Theorem initial_write_sends_head (s : StreamWriter) (e : Env) :
  match _writer s with
  | Some w =>
      exists calls,
        _initial_write s e = (Return tt, s, set_wire (wire e ++ calls) e) /\
        Forall (fun c => fst c = w /\ exists data, snd c = WrData data) calls /\
        sent_bytes calls = request_head (_headers s) /\
        List.length calls = (2 * List.length (_headers s) + 3)%nat
  | None => _initial_write s e = (Raise (Exc AttributeError), s, e)
  end.
Proof.
  destruct (_writer s) as [w|] eqn:Hw.
  - unfold _initial_write. unfold bind at 1, writer_call at 1. rewrite Hw.
    unfold bind at 1, writer_call at 1. rewrite Hw.
    unfold bind at 1, get. unfold bind at 1.
    match goal with
    | |- context [write_headers (_headers s) s ?e'] =>
        destruct (@write_headers_eq (_headers s) s e' w Hw)
          as [calls [Hrun [Hall [Hb Hl]]]]; rewrite Hrun
    end.
    unfold writer_call. rewrite Hw.
    exists ((w, WrData (b "POST / HTTP/1.1")) :: (w, WrData eol)
            :: calls ++ [(w, WrData eol)]).
    split; [|split; [|split]].
    + destruct e.
      cbn [wire set_wire clock ticks sleeps threads connect_at connections
             read_at nreads].
      rewrite <- ?app_assoc. reflexivity.
    + constructor; [split; [reflexivity | eexists; reflexivity]|].
      constructor; [split; [reflexivity | eexists; reflexivity]|].
      apply Forall_app. split; [exact Hall|].
      constructor; [split; [reflexivity | eexists; reflexivity] | constructor].
    + unfold sent_bytes, request_head in *.
      cbn [map List.concat snd fst]. rewrite map_app, concat_app, Hb.
      cbn [map List.concat snd]. rewrite app_nil_r. reflexivity.
    + cbn [List.length]. rewrite length_app, Hl. cbn [List.length]. lia.
  - unfold _initial_write, bind at 1, writer_call at 1. rewrite Hw. reflexivity.
Qed.

(* ------------------------------------------------------------------ *)
(** * Opening, closing and the worker *)

Lemma bind_returns (A B : Type) (m : M A) (k : A -> M B) s e a s1 e1 :
  m s e = (Return a, s1, e1) -> bind m k s e = k a s1 e1.
Proof. intros H. unfold bind. rewrite H. reflexivity. Qed.

Lemma bind_raises (A B : Type) (m : M A) (k : A -> M B) s e x s1 e1 :
  m s e = (Raise x, s1, e1) -> bind m k s e = (Raise x, s1, e1).
Proof. intros H. unfold bind. rewrite H. reflexivity. Qed.

Lemma nth_error_update_nth (A : Type) (f : A -> A) (l : list A) (n : nat) :
  nth_error (update_nth n f l) n = option_map f (nth_error l n).
Proof.
  revert n. induction l as [|x l IH]; intros [|n]; cbn; auto.
Qed.

Section Lifecycle.
Variable Obj : Type.
Variable json_dumps : Obj -> outcome pystring.
Variable read_response : list byte -> outcome (pystring * Z).

Local Abbreviation open := (StreamWriter.open read_response).
Local Abbreviation write := (StreamWriter.write json_dumps read_response).
Local Abbreviation read_write_loop := (StreamWriter.read_write_loop json_dumps read_response).
Local Abbreviation _read_write_try := (StreamWriter._read_write_try json_dumps read_response).
Local Abbreviation _read_write := (StreamWriter._read_write json_dumps read_response).
Local Abbreviation _thread_func := (StreamWriter._thread_func json_dumps read_response).

(** X6.  [open()] on a handle that is not connected and holds no response
    and no error returns without sleeping, starts exactly one thread and
    leaves the queue and the failure counters as they were; the handle is
    then connected, and a second [open()] does nothing. *)
Theorem open_starts_one_worker (s : StreamWriter) (e : Env) :
  result_of (connected s e) = Return false ->
  _response s = None ->
  _error s = None ->
  let out := open s e in
  result_of out = Return tt /\
  threads (env_of out) = threads e ++ [mkThread true true] /\
  _thread (object_of out) = Some (List.length (threads e)) /\
  result_of (connected (object_of out) (env_of out)) = Return true /\
  sleeps (env_of out) = sleeps e /\
  failure_counters (object_of out) = failure_counters s /\
  _queue (object_of out) = _queue s /\
  open (object_of out) (env_of out) = (Return tt, object_of out, env_of out).
Proof.
  intros Hc Hr He. cbv zeta.
  assert (Hopen : open s e
                  = (Return tt,
                     set_thread (Some (List.length (threads e)))
                       (set_writer None (set_reader None (set_last_beat None
                          (set_error None (set_response None s))))),
                     set_threads (threads e ++ [mkThread true true]) e)).
  { rewrite (open_not_connected _ Hc).
    unfold bind at 1, StreamWriter._raise_for_response, bind at 1, get.
    rewrite Hr. unfold ret at 1.
    unfold bind at 1, _raise_for_error, bind at 1, get. rewrite He.
    unfold ret at 1. reflexivity. }
  rewrite Hopen. unfold result_of, object_of, env_of. cbn [fst snd].
  assert (Hconn : result_of
            (connected
               (set_thread (Some (List.length (threads e)))
                  (set_writer None (set_reader None (set_last_beat None
                     (set_error None (set_response None s))))))
               (set_threads (threads e ++ [mkThread true true]) e))
          = Return true).
  { unfold result_of, connected. cbn [fst _thread set_thread threads set_threads].
    rewrite nth_error_app2, Nat.sub_diag; [reflexivity | lia]. }
  repeat split; try reflexivity; try exact Hconn.
  apply open_connected. exact Hconn.
Qed.

(** X7.  [close()] on a connected handle returns, drops the thread from
    the handle, which is then not connected, and makes no call on the
    transport; the chunks still queued stay in the queue.  The worker of
    that thread leaves its loop at the next test of the loop condition,
    without a heartbeat, a read or a write. *)
Theorem close_stops_worker (s : StreamWriter) (e : Env) (t : ThreadId) :
  _thread s = Some t ->
  result_of (connected s e) = Return true ->
  let out := close s e in
  result_of out = Return tt /\
  _thread (object_of out) = None /\
  result_of (connected (object_of out) (env_of out)) = Return false /\
  _queue (object_of out) = _queue s /\
  wire (env_of out) = wire e /\
  forall fuel,
    read_write_loop (S fuel) t (object_of out) (env_of out)
    = (Return Done, object_of out, env_of out).
Proof.
  intros Ht Hc. cbv zeta.
  assert (Hclose : close s e
                   = (Return tt, set_thread None s,
                      set_threads
                        (update_nth t (fun th => mkThread (alive th) false)
                           (threads e)) e)).
  { unfold close. unfold result_of in Hc.
    destruct (connected s e) as [[r s1] e1] eqn:E. cbn [fst] in Hc. subst r.
    assert (s1 = s /\ e1 = e) as [-> ->].
    { unfold connected in E. injection E as _ <- <-. auto. }
    rewrite (@bind_returns _ _ _ _ _ _ _ _ _ E). cbn [negb].
    unfold bind, disconnect_thread, update. rewrite Ht. reflexivity. }
  rewrite Hclose. unfold result_of, object_of, env_of. cbn [fst snd].
  repeat split.
  intros fuel. cbn [StreamWriter.read_write_loop].
  unfold bind at 1, get. unfold bind at 1, thread_flag.
  cbn [threads set_threads]. rewrite nth_error_update_nth.
  destruct (nth_error (threads e) t); cbn [option_map thread_connected];
    rewrite andb_false_r; reflexivity.
Qed.

(** The worker when the server answers the handshake. *)
Lemma handshake_answered (fuel : nat) (t : ThreadId) s e raw :
  connect_at e (connections e) = Return tt ->
  read_at e (nreads e) = Data raw ->
  exists calls,
    let c := connections e in
    _read_write (S fuel) t s e
    = (Return Done,
       set_response (Some raw) (set_writer (Some c) (set_reader (Some c) s)),
       set_wire (wire e ++ calls ++ [(c, WrClose)])
         (set_nreads (S (nreads e)) (set_connections (S (connections e)) e))) /\
    sent_bytes calls = request_head (_headers s).
Proof.
  intros Hconn Hread.
  set (c := connections e).
  set (s1 := set_writer (Some c) (set_reader (Some c) s)).
  set (e1 := set_connections (S (connections e)) e).
  pose proof (initial_write_sends_head s1 e1) as Hinit.
  cbn [_writer set_writer s1] in Hinit.
  destruct Hinit as [calls [Hinit [_ [Hbytes _]]]].
  exists calls. cbv zeta. fold c. split; [|exact Hbytes].
  assert (Htry : _read_write_try (S fuel) t s e
                 = (Return Done, set_response (Some raw) s1,
                    set_nreads (S (nreads e)) (set_wire (wire e1 ++ calls) e1))).
  { unfold StreamWriter._read_write_try.
    rewrite (@bind_returns _ _ open_connection _ s e (c, c) s e1)
      by (unfold open_connection; rewrite Hconn; reflexivity).
    unfold bind at 1, update. unfold bind at 1. cbn [fst snd]. fold s1.
    rewrite (@bind_returns _ _ _initial_write _ s1 e1 tt s1 _ Hinit).
    unfold bind at 1, get.
    rewrite (@bind_returns _ _ (_read (initial_write_timeout s1)) _ s1 _
               (Some raw) s1
               (set_nreads (S (nreads e)) (set_wire (wire e1 ++ calls) e1)))
      by (unfold _read; cbn [_reader set_reader set_writer s1 read_at nreads
                               set_wire e1 set_connections];
          rewrite Hread; reflexivity).
    unfold bind at 1, update. cbn [StreamWriter.read_write_loop].
    unfold bind at 1, get. unfold bind at 1, thread_flag.
    cbn [_response set_response is_None andb]. reflexivity. }
  unfold StreamWriter._read_write, try_except_finally. rewrite Htry.
  unfold bind at 1. unfold bind at 1, get.
  cbn [_writer set_response set_writer s1 is_None].
  unfold writer_call. cbn [_writer set_response set_writer s1].
  unfold ret. destruct e. cbn. rewrite <- ?app_assoc. reflexivity.
Qed.

(** X8.  When the server answers the handshake with a status that the
    handle does not ignore, the worker sends the request head, stores the
    answer, closes the transport and ends without touching the queue; the
    next [write] then raises [ClosedConnection] with the body and the
    status of that answer, and its chunk is not queued. *)
Theorem rejected_handshake_surfaces (fuel : nat) (t : ThreadId)
    (s : StreamWriter) (e : Env) (th : Thread) (raw : list byte)
    (message : pystring) (status : pyval) (chunk : chunk_arg Obj) :
  _thread s = Some t ->
  nth_error (threads e) t = Some th ->
  connect_at e (connections e) = Return tt ->
  read_at e (nreads e) = Data raw ->
  parsed read_response raw message status ->
  py_in status (ignore_status_codes s) = false ->
  let ran := _thread_func (S fuel) t s e in
  let out := write chunk (object_of ran) (env_of ran) in
  result_of ran = Return Done /\
  _response (object_of ran) = Some raw /\
  _queue (object_of ran) = _queue s /\
  (exists calls,
     wire (env_of ran) = wire e ++ calls ++ [(connections e, WrClose)] /\
     sent_bytes calls = request_head (_headers s)) /\
  result_of out = Raise (ClosedConnectionExc message status) /\
  _queue (object_of out) = _queue s /\
  wire (env_of out) = wire (env_of ran).
Proof.
  intros Ht Hth Hconn Hread Hp Hin. cbv zeta.
  destruct (@handshake_answered fuel t s e raw Hconn Hread) as [calls [Hrw Hbytes]].
  cbv zeta in Hrw.
  set (s2 := set_response (Some raw)
               (set_writer (Some (connections e))
                  (set_reader (Some (connections e)) s))) in *.
  set (e2 := set_wire (wire e ++ calls ++ [(connections e, WrClose)])
               (set_nreads (S (nreads e))
                  (set_connections (S (connections e)) e))) in *.
  set (e3 := set_threads
               (update_nth t (fun th => mkThread false (thread_connected th))
                  (threads e2)) e2).
  assert (Hran : _thread_func (S fuel) t s e = (Return Done, s2, e3)).
  { unfold StreamWriter._thread_func. rewrite Hrw. reflexivity. }
  assert (Hnc : result_of (connected s2 e3) = Return false).
  { unfold result_of, connected.
    cbn [fst _thread s2 set_response set_writer set_reader]. rewrite Ht.
    cbn [threads e3 set_threads]. rewrite nth_error_update_nth.
    cbn [threads e2 set_wire set_nreads set_connections]. rewrite Hth.
    reflexivity. }
  assert (Hopen : open s2 e3 = (Raise (ClosedConnectionExc message status), s2, e3)).
  { rewrite (open_not_connected _ Hnc).
    apply bind_raises.
    destruct (@response_classification read_response s2 e3 raw message status
                eq_refl Hp) as [H _].
    apply H. exact Hin. }
  assert (Hwrite : write chunk s2 e3
                   = (Raise (ClosedConnectionExc message status), s2, e3)).
  { unfold StreamWriter.write. unfold result_of in Hnc.
    destruct (connected s2 e3) as [[r s'] e'] eqn:E. cbn [fst] in Hnc. subst r.
    assert (s' = s2 /\ e' = e3) as [-> ->].
    { unfold connected in E. injection E as _ <- <-. auto. }
    rewrite (@bind_returns _ _ _ _ _ _ _ _ _ E). cbn [negb].
    apply bind_raises. exact Hopen. }
  rewrite Hran. unfold result_of, object_of, env_of. cbn [fst snd].
  rewrite Hwrite. cbn [fst snd].
  split; [reflexivity|]. split; [reflexivity|]. split; [reflexivity|].
  split; [exists calls; split; [reflexivity | exact Hbytes]|].
  repeat split.
Qed.

Local Abbreviation _check_pulse := (StreamWriter._check_pulse json_dumps read_response).

(** [_check_pulse] with an item queued returns, and changes nothing but
    the recorded beat and the number of clock readings. *)
Lemma _check_pulse_queued s e :
  nonempty (_queue s) = true ->
  exists beat,
    _check_pulse s e
    = (Return tt, set_last_beat (Some beat) s,
       set_ticks (S (ticks (after_beat s e))) (after_beat s e)).
Proof.
  intros Hq.
  destruct (_check_pulse_cases json_dumps read_response s e)
    as [[_ H]|[[_ [_ H]]|[_ [Hn _]]]].
  - eexists. exact H.
  - eexists. exact H.
  - rewrite Hq in Hn. discriminate.
Qed.

(** The worker on a quiet server with an item queued: the handshake is
    sent, and the first turn of the loop ends at the refused [write()]. *)
Lemma first_drain_raises (fuel : nat) (t : ThreadId) s e th x rest :
  nth_error (threads e) t = Some th ->
  thread_connected th = true ->
  connect_at e (connections e) = Return tt ->
  read_at e (nreads e) = TimedOut ->
  read_at e (S (nreads e)) = TimedOut ->
  rev (items (_queue s)) = x :: rest ->
  exists calls s1 e1,
    _read_write_try (S fuel) t s e = (Raise (Exc TypeError), s1, e1) /\
    sent_bytes calls = request_head (_headers s) /\
    wire e1 = wire e ++ calls /\
    threads e1 = threads e /\
    _writer s1 = Some (connections e) /\
    _response s1 = None /\
    _error s1 = _error s /\
    _thread s1 = _thread s /\
    ignore_errors s1 = ignore_errors s /\
    _chunk s1 = Some x /\
    rev (items (_queue s1)) = rest.
Proof.
  intros Hth Hflag Hconn Hread1 Hread2 Hq.
  set (c := connections e).
  set (s1 := set_writer (Some c) (set_reader (Some c) s)).
  set (e1 := set_connections (S (connections e)) e).
  pose proof (initial_write_sends_head s1 e1) as Hinit.
  cbn [_writer set_writer s1] in Hinit.
  destruct Hinit as [calls [Hinit [_ [Hbytes _]]]].
  set (s2 := set_response None s1).
  set (e2 := set_nreads (S (nreads e)) (set_wire (wire e1 ++ calls) e1)).
  assert (Hne : nonempty (_queue s2) = true).
  { unfold nonempty. cbn [_queue s2 s1 set_response set_writer set_reader].
    destruct (items (_queue s)); [discriminate | reflexivity]. }
  destruct (_check_pulse_queued s2 e2 Hne) as [beat Hpulse].
  set (s3 := set_last_beat (Some beat) s2) in *.
  set (e3 := set_ticks (S (ticks (after_beat s2 e2))) (after_beat s2 e2)) in *.
  set (s4 := set_response None s3).
  set (e4 := set_nreads (S (nreads e3)) e3).
  assert (He3 : read_at e3 = read_at e /\ nreads e3 = S (nreads e) /\
                threads e3 = threads e /\ wire e3 = wire e ++ calls).
  { unfold e3, after_beat. destruct (truthy (_last_beat s2));
      destruct e; cbn; auto. }
  destruct He3 as [Hr3 [Hn3 [Ht3 Hw3]]].
  exists calls.
  exists (set_chunk (Some x)
            (set_queue (mkDeque (rev rest) (maxlen (_queue s4))) s4)), e4.
  split.
  - unfold StreamWriter._read_write_try.
    rewrite (@bind_returns _ _ open_connection _ s e (c, c) s e1)
      by (unfold open_connection; rewrite Hconn; reflexivity).
    unfold bind at 1, update. unfold bind at 1. cbn [fst snd]. fold s1.
    rewrite (@bind_returns _ _ _initial_write _ s1 e1 tt s1 _ Hinit).
    unfold bind at 1, get.
    rewrite (@bind_returns _ _ (_read (initial_write_timeout s1)) _ s1 _
               None s1 e2)
      by (unfold _read; cbn [_reader set_reader set_writer s1 read_at nreads
                               set_wire e1 set_connections];
          rewrite Hread1; reflexivity).
    unfold bind at 1, update. fold s2.
    cbn [StreamWriter.read_write_loop].
    unfold bind at 1, get. unfold bind at 1, thread_flag.
    assert (Hflag2 : match nth_error (threads e2) t with
                     | Some th => thread_connected th
                     | None => false
                     end = true).
    { unfold e2, e1. cbn [threads set_nreads set_wire set_connections].
      rewrite Hth. exact Hflag. }
    rewrite Hflag2. cbn [_response s2 set_response is_None andb].
    rewrite (@bind_returns _ _ _check_pulse _ s2 e2 tt s3 e3 Hpulse).
    rewrite (@bind_returns _ _ (_read (1 # 100)) _ s3 e3 None s3 e4)
      by (unfold _read, e4;
          cbn [_reader s3 s2 s1 set_last_beat set_response set_reader set_writer];
          rewrite Hr3, Hn3, Hread2; reflexivity).
    unfold bind at 1, update. fold s4.
    apply bind_raises.
    rewrite (@_write_arrival s4 e4 x rest)
      by (cbn [_queue s4 s3 s2 s1 set_last_beat set_response set_reader set_writer];
          exact Hq).
    reflexivity.
  - split; [exact Hbytes|].
    unfold e4. cbn [wire threads set_nreads]. rewrite Hw3, Ht3.
    repeat split; try reflexivity.
    cbn [items _queue set_chunk set_queue]. apply rev_involutive.
Qed.

(** X5.  A worker that connects to a quiet server and finds an item in
    the queue sends the request head and no chunk: its first [_write]
    takes the item that was enqueued first and stops at the [write()]
    without data.  The [TypeError] does not leave the worker: it is
    stored, the transport is closed and the thread ends, with that item
    out of the queue and the others still in it.  The handle is then not
    connected, and its next [open()] raises the [TypeError] and does
    nothing else, unless the handle ignores such errors. *)
Theorem queued_chunk_ends_worker (fuel : nat) (t : ThreadId)
    (s : StreamWriter) (e : Env) (th : Thread) (x : pystring)
    (rest : list pystring) :
  _thread s = Some t ->
  nth_error (threads e) t = Some th ->
  thread_connected th = true ->
  connect_at e (connections e) = Return tt ->
  read_at e (nreads e) = TimedOut ->
  read_at e (S (nreads e)) = TimedOut ->
  rev (items (_queue s)) = x :: rest ->
  let ran := _thread_func (S fuel) t s e in
  result_of ran = Return Done /\
  _error (object_of ran) = Some (Exc TypeError) /\
  _chunk (object_of ran) = Some x /\
  rev (items (_queue (object_of ran))) = rest /\
  (exists calls,
     wire (env_of ran) = wire e ++ calls ++ [(connections e, WrClose)] /\
     sent_bytes calls = request_head (_headers s)) /\
  result_of (connected (object_of ran) (env_of ran)) = Return false /\
  (isinstance (Exc TypeError) (ignore_errors s) = false ->
   open (object_of ran) (env_of ran)
   = (Raise (Exc TypeError), object_of ran, env_of ran)).
Proof.
  intros Ht Hth Hflag Hconn Hread1 Hread2 Hq. cbv zeta.
  destruct (@first_drain_raises fuel t s e th x rest Hth Hflag Hconn Hread1
              Hread2 Hq)
    as [calls [s1 [e1 [Htry [Hbytes [Hw [Hthr [Hwr [Hresp [Herr [Hthread
         [Hign [Hchunk Hrest]]]]]]]]]]]]].
  set (s2 := set_error (Some (Exc TypeError)) s1).
  set (e2 := set_wire (wire e1 ++ [(connections e, WrClose)]) e1).
  set (e3 := set_threads
               (update_nth t (fun th => mkThread false (thread_connected th))
                  (threads e2)) e2).
  assert (Hrw : _read_write (S fuel) t s e = (Return Done, s2, e2)).
  { unfold StreamWriter._read_write, try_except_finally. rewrite Htry.
    change (isinstance (Exc TypeError) [Exception]) with true. cbv iota.
    unfold bind at 1, update. unfold bind at 1. unfold bind at 1, get.
    cbn [_writer set_error]. rewrite Hwr. cbn [is_None].
    unfold writer_call. cbn [_writer set_error]. rewrite Hwr.
    reflexivity. }
  assert (Hran : _thread_func (S fuel) t s e = (Return Done, s2, e3)).
  { unfold StreamWriter._thread_func. rewrite Hrw. reflexivity. }
  assert (Hnc : result_of (connected s2 e3) = Return false).
  { unfold result_of, connected. cbn [fst _thread s2 set_error].
    rewrite Hthread, Ht. cbn [threads e3 set_threads].
    rewrite nth_error_update_nth. cbn [threads e2 set_wire].
    rewrite Hthr, Hth. reflexivity. }
  rewrite Hran. unfold result_of, object_of, env_of. cbn [fst snd].
  split; [reflexivity|]. split; [reflexivity|].
  split; [exact Hchunk|]. split; [exact Hrest|].
  split.
  { exists calls. split; [|exact Hbytes].
    unfold e3, e2. cbn [wire set_threads set_wire].
    rewrite Hw, <- app_assoc. reflexivity. }
  split; [exact Hnc|].
  intros Hi.
  rewrite (@open_stored_error read_response s2 e3 (Exc TypeError) Hnc);
    [|exact Hresp | reflexivity].
  cbn [ignore_errors s2 set_error]. rewrite Hign, Hi. reflexivity.
Qed.

End Lifecycle.

(** Opening the default handle, and closing it again. *)
Lemma open_starts_one_worker_witness :
  let out := Demo.open (fst Demo.handle0) (snd Demo.handle0) in
  result_of out = Return tt /\
  threads (env_of out) = [mkThread true true] /\
  Demo.open (object_of out) (env_of out) = (Return tt, object_of out, env_of out).
Proof.
  destruct (@open_starts_one_worker Demo.read_response (fst Demo.handle0)
              (snd Demo.handle0) eq_refl eq_refl eq_refl)
    as [H1 [H2 [_ [_ [_ [_ [_ H3]]]]]]].
  split; [exact H1|]. split; [exact H2 | exact H3].
Defined.

Lemma close_stops_worker_witness :
  let opened := Demo.open (fst Demo.handle0) (snd Demo.handle0) in
  let out := close (object_of opened) (env_of opened) in
  result_of (connected (object_of out) (env_of out)) = Return false /\
  StreamWriter.read_write_loop Demo.json_dumps Demo.read_response 5 0%nat
    (object_of out) (env_of out)
  = (Return Done, object_of out, env_of out).
Proof.
  intros opened out.
  destruct (@close_stops_worker unit Demo.json_dumps Demo.read_response
              (object_of opened) (env_of opened) 0%nat eq_refl eq_refl)
    as [_ [_ [H1 [_ [_ H2]]]]].
  split; [exact H1 | exact (H2 4%nat)].
Defined.

(** A 404 answer to the handshake of the default handle. *)
Lemma rejected_handshake_surfaces_witness :
  let opened := Demo.open (fst Demo.handle0) (snd Demo.handle0) in
  let e := mkEnv (clock (env_of opened)) (ticks (env_of opened)) [] []
             (threads (env_of opened)) (fun _ => Return tt) 0
             (fun _ => Data (b "HTTP/1.1 404 Not Found")) 0 in
  let ran := Demo._thread_func 1 0%nat (object_of opened) e in
  result_of (Demo.write (Text _ (Str (b "x"))) (object_of ran) (env_of ran))
  = Raise (ClosedConnectionExc (Str []) (PyInt 404)).
Proof.
  intros opened e.
  destruct (@rejected_handshake_surfaces unit Demo.json_dumps Demo.read_response
              0%nat 0%nat (object_of opened) e (mkThread true true)
              (b "HTTP/1.1 404 Not Found") (Str []) (PyInt 404)
              (Text _ (Str (b "x")))
              eq_refl eq_refl eq_refl eq_refl (conj eq_refl eq_refl) eq_refl)
    as [_ [_ [_ [_ [H _]]]]].
  exact H.
Defined.

(** [write('a')] on the default handle starts thread 0, which then runs on
    a server that stays quiet. *)
Lemma queued_chunk_ends_worker_witness :
  let wrote := Demo.write (Text _ (Str (b "a"))) (fst Demo.handle0)
                 (snd Demo.handle0) in
  let ran := Demo._thread_func 1 0%nat (object_of wrote) (env_of wrote) in
  _error (object_of ran) = Some (Exc TypeError) /\
  items (_queue (object_of ran)) = [] /\
  result_of (Demo.open (object_of ran) (env_of ran)) = Raise (Exc TypeError).
Proof.
  intros wrote.
  destruct (@queued_chunk_ends_worker unit Demo.json_dumps Demo.read_response
              0%nat 0%nat (object_of wrote) (env_of wrote) (mkThread true true)
              (Str (b "a" ++ [x0a])) []
              eq_refl eq_refl eq_refl eq_refl eq_refl eq_refl eq_refl)
    as [_ [He [_ [Hq [_ [_ Ho]]]]]].
  split; [exact He|]. split.
  - apply (f_equal (@rev _)) in Hq. rewrite rev_involutive in Hq. exact Hq.
  - exact (f_equal (fun r => result_of r) (Ho eq_refl)).
Defined.

(* ------------------------------------------------------------------ *)
(** * Paths and urls *)

Section Split.
Variable sep : byte.

Lemma split_not_nil (s : Rest.str) : Rest.split sep s <> [].
Proof.
  destruct s as [|c s]; cbn; [discriminate|].
  destruct (Byte.eqb c sep); [discriminate|].
  destruct (Rest.split sep s); discriminate.
Qed.

Lemma split_cons_other (c : byte) (s : Rest.str) :
  Byte.eqb c sep = false ->
  exists piece pieces,
    Rest.split sep s = piece :: pieces /\
    Rest.split sep (c :: s) = (c :: piece) :: pieces.
Proof.
  intros Hc. cbn. rewrite Hc.
  destruct (Rest.split sep s) as [|piece pieces] eqn:E.
  - exfalso. exact (split_not_nil s E).
  - exists piece, pieces. auto.
Qed.

(** Joining the pieces with the separator gives the string back. *)
Lemma join_split (s : Rest.str) : Rest.join [sep] (Rest.split sep s) = s.
Proof.
  induction s as [|c s IH]; [reflexivity|].
  destruct (Byte.eqb c sep) eqn:Hc.
  - cbn [Rest.split]. rewrite Hc. apply Byte.byte_dec_bl in Hc. subst c.
    cbn [Rest.join]. destruct (Rest.split sep s) as [|p ps] eqn:E.
    + exfalso. exact (split_not_nil s E).
    + cbn [app]. rewrite IH. reflexivity.
  - destruct (@split_cons_other c s Hc) as [piece [pieces [E1 E2]]].
    rewrite E2. rewrite E1 in IH. cbn [Rest.join] in IH |- *.
    destruct pieces; cbn [app]; rewrite <- IH; reflexivity.
Qed.

(** No piece holds the separator. *)
Lemma split_pieces (s : Rest.str) :
  Forall (fun piece => ~ In sep piece) (Rest.split sep s).
Proof.
  induction s as [|c s IH]; [repeat constructor; auto|].
  destruct (Byte.eqb c sep) eqn:Hc.
  - cbn [Rest.split]. rewrite Hc. constructor; auto.
  - destruct (@split_cons_other c s Hc) as [piece [pieces [E1 E2]]].
    rewrite E2. rewrite E1 in IH. inversion IH as [|? ? Hp Hps]; subst.
    constructor; [|exact Hps].
    intros [Heq|Hin]; [|exact (Hp Hin)].
    subst c. rewrite (Byte.byte_dec_lb eq_refl) in Hc. discriminate.
Qed.

(** A string without the separator is one piece. *)
Lemma split_one (s : Rest.str) : ~ In sep s -> Rest.split sep s = [s].
Proof.
  induction s as [|c s IH]; intros Hn; [reflexivity|].
  assert (Hc : Byte.eqb c sep = false).
  { destruct (Byte.eqb c sep) eqn:E; [|reflexivity].
    apply Byte.byte_dec_bl in E. subst c. exfalso. apply Hn. left. reflexivity. }
  cbn [Rest.split]. rewrite Hc, IH; [reflexivity|].
  intros Hin. apply Hn. right. exact Hin.
Qed.

(** The pieces of two strings put together with a separator. *)
Lemma split_app (s1 s2 : Rest.str) :
  Rest.split sep (s1 ++ sep :: s2) = Rest.split sep s1 ++ Rest.split sep s2.
Proof.
  induction s1 as [|c s1 IH].
  - cbn [app Rest.split]. rewrite (Byte.byte_dec_lb eq_refl). reflexivity.
  - cbn [app]. destruct (Byte.eqb c sep) eqn:Hc.
    + cbn [Rest.split]. rewrite Hc, IH. reflexivity.
    + destruct (@split_cons_other c s1 Hc) as [piece [pieces [E1 E2]]].
      rewrite E2. cbn [Rest.split]. rewrite Hc, IH, E1. reflexivity.
Qed.

End Split.

Lemma join_snoc (sep : Rest.str) (pieces : list Rest.str) (piece : Rest.str) :
  Rest.join sep (pieces ++ [piece])
  = match pieces with
    | [] => piece
    | _ :: _ => Rest.join sep pieces ++ sep ++ piece
    end.
Proof.
  induction pieces as [|p ps IH]; [reflexivity|].
  cbn [app Rest.join]. destruct ps as [|q ps]; [reflexivity|].
  cbn [app] in IH |- *. rewrite IH. rewrite <- !app_assoc. reflexivity.
Qed.

Lemma mkdirs_path_cases (folder_path : Rest.str) :
  match Rest.mkdirs_path folder_path with
  | Rest.Fail e => folder_path = [] /\ e = Rest.IndexError
  | Rest.Ok sent =>
      folder_path <> [] /\
      ((folder_path = sent /\ Rest.last_char sent <> Rest.Ok Rest.slash)
       \/ folder_path = sent ++ [Rest.slash])
  end.
Proof.
  unfold Rest.mkdirs_path, Rest.last_char.
  destruct folder_path as [|c rest]; [split; reflexivity|].
  destruct (Byte.eqb (last rest c) Rest.slash) eqn:E.
  - split; [discriminate|]. right. apply Byte.byte_dec_bl in E. rewrite <- E.
    assert (Hl : last rest c = last (c :: rest) c) by (destruct rest; reflexivity).
    rewrite Hl. apply app_removelast_last. discriminate.
  - split; [discriminate|]. left. split; [reflexivity|].
    intros H. injection H as H. rewrite H in E.
    rewrite (Byte.byte_dec_lb eq_refl) in E. discriminate.
Qed.

(** X9.  [grid_ops.upload] on its [filename] argument.  The empty name
    raises [IndexError].  Otherwise one trailing slash is dropped and the
    rest is cut at its last slash: the grid is named by what follows it,
    which holds no slash, and what precedes it is the parent path; name
    and parent path give the argument back.  Folders are made exactly when
    the parent path is not empty, and [mkdirs], which drops one more
    trailing slash, never gets the empty path. *)
Theorem upload_paths_split (filename : Rest.str) :
  match Rest.upload_paths filename with
  | Rest.Fail e => filename = [] /\ e = Rest.IndexError
  | Rest.Ok (parent_path, name, sent) =>
      exists trimmed,
        (filename = trimmed \/ filename = trimmed ++ [Rest.slash]) /\
        ~ In Rest.slash name /\
        match parent_path with
        | [] =>
            sent = None /\ (trimmed = name \/ trimmed = Rest.slash :: name)
        | _ :: _ =>
            trimmed = parent_path ++ Rest.slash :: name /\
            exists p, sent = Some p /\
                      (parent_path = p \/ parent_path = p ++ [Rest.slash])
        end
  end.
Proof.
  unfold Rest.upload_paths.
  pose proof (mkdirs_path_cases filename) as Hm. unfold Rest.mkdirs_path in Hm.
  destruct (Rest.last_char filename) as [c|e] eqn:El.
  2: { destruct Hm as [H1 H2]. split; assumption. }
  set (trimmed := if Byte.eqb c Rest.slash then removelast filename else filename) in *.
  assert (Htrim : filename = trimmed \/ filename = trimmed ++ [Rest.slash]).
  { unfold trimmed in *. destruct (Byte.eqb c Rest.slash); destruct Hm as [_ [[H _]|H]];
      auto. }
  set (paths := Rest.split Rest.slash trimmed).
  assert (Hpaths : paths = removelast paths ++ [last paths []]).
  { apply app_removelast_last. apply split_not_nil. }
  assert (Hname : ~ In Rest.slash (last paths [])).
  { pose proof (split_pieces Rest.slash trimmed) as Hall. fold paths in Hall.
    rewrite Hpaths in Hall. apply Forall_app in Hall. destruct Hall as [_ Hall].
    inversion Hall; assumption. }
  assert (Hjoin : Rest.join [Rest.slash] paths = trimmed) by apply join_split.
  rewrite Hpaths, join_snoc in Hjoin.
  destruct (Rest.join [Rest.slash] (removelast paths)) as [|d parent] eqn:Ep.
  - exists trimmed. split; [exact Htrim|]. split; [exact Hname|].
    split; [reflexivity|].
    destruct (removelast paths); [left | right]; symmetry; exact Hjoin.
  - pose proof (mkdirs_path_cases (d :: parent)) as Hp.
    destruct (Rest.mkdirs_path (d :: parent)) as [sent|e].
    + exists trimmed. split; [exact Htrim|]. split; [exact Hname|].
      split.
      * destruct (removelast paths); [discriminate|].
        symmetry. exact Hjoin.
      * exists sent. split; [reflexivity|].
        destruct Hp as [_ [[H _]|H]]; auto.
    + destruct Hp as [Hp _]. discriminate.
Qed.

(** X10.  [iplot] reads the user name and the plot id off the url that
    [plot] returns: for a url that ends in a piece of one character and a
    name, a slash, and an id, with no slash in the name and the id, it gets
    the name and the id.  On a url without a slash it raises [IndexError]. *)
Theorem iplot_ids_of_url (base user plot_id : Rest.str) (tilde : byte) :
  ~ In Rest.slash user ->
  ~ In Rest.slash plot_id ->
  tilde <> Rest.slash ->
  Rest.iplot_ids (base ++ Rest.slash :: tilde :: user ++ Rest.slash :: plot_id)
  = Rest.Ok (user, plot_id) /\
  Rest.iplot_ids plot_id = Rest.Fail Rest.IndexError.
Proof.
  intros Hu Hp Ht. unfold Rest.iplot_ids. split.
  - rewrite split_app.
    change (tilde :: user ++ Rest.slash :: plot_id)
      with ((tilde :: user) ++ Rest.slash :: plot_id).
    rewrite split_app, (@split_one Rest.slash plot_id Hp),
      (@split_one Rest.slash (tilde :: user)).
    + rewrite !rev_app_distr. reflexivity.
    + intros [H|H]; [exact (Ht H) | exact (Hu H)].
  - rewrite (@split_one Rest.slash plot_id Hp). reflexivity.
Qed.

Lemma iplot_ids_of_url_witness :
  Rest.iplot_ids (b "https://plot.ly/~chris/1638") = Rest.Ok (b "chris", b "1638").
Proof.
  apply (@iplot_ids_of_url (b "https://plot.ly") (b "chris") (b "1638") "~"%byte).
  - vm_compute. intuition discriminate.
  - vm_compute. intuition discriminate.
  - discriminate.
Defined.

(* ------------------------------------------------------------------ *)
(** * The grid id *)

Lemma starts_with_true (prefix s : Rest.str) :
  Rest.starts_with prefix s = true -> exists rest, s = prefix ++ rest.
Proof.
  revert s. induction prefix as [|p prefix IH]; intros s H.
  - exists s. reflexivity.
  - destruct s as [|c s]; [discriminate|]. cbn in H.
    apply andb_prop in H. destruct H as [Hc H].
    apply Byte.byte_dec_bl in Hc. subst c.
    destruct (IH s H) as [rest ->]. exists rest. reflexivity.
Qed.

(** Replacing in a string where [old] does not occur changes nothing. *)
Lemma replace_absent (old new s : Rest.str) :
  (forall before after, s <> before ++ old ++ after) ->
  Rest.replace_from old new 0 s = s.
Proof.
  induction s as [|c s IH]; intros Habs; [reflexivity|].
  cbn [Rest.replace_from].
  destruct (Rest.starts_with old (c :: s)) eqn:E.
  - exfalso. destruct (starts_with_true _ _ E) as [rest Hrest].
    apply (Habs [] rest). exact Hrest.
  - f_equal. apply IH. intros before after H.
    apply (Habs (c :: before) after). rewrite H. reflexivity.
Qed.

(** A slash-free name, a slash and a slash-free id that does not begin
    with a tilde: the two characters [/~] do not occur. *)
Lemma no_slash_tilde (owner fid : Rest.str) :
  ~ In Rest.slash owner ->
  ~ In Rest.slash fid ->
  Rest.starts_with (b "~") fid = false ->
  forall before after, owner ++ Rest.slash :: fid <> before ++ b "/~" ++ after.
Proof.
  intros Ho Hf Ht. induction owner as [|c owner IH]; intros before after H.
  - destruct before as [|d before].
    + cbn in H. injection H as H. rewrite H in Ht. cbn in Ht.
      discriminate.
    + cbn in H. injection H as _ H. apply Hf. rewrite H.
      apply in_or_app. right. left. reflexivity.
  - destruct before as [|d before].
    + cbn in H. injection H as H _. apply Ho. left. exact H.
    + cbn [app] in H. injection H as _ H.
      apply (IH (fun Hin => Ho (or_intror Hin)) before after H).
Qed.

Section GridId.
Variable url_path : Rest.str -> Rest.str.

Local Abbreviation parse_grid_id_args := (Rest.parse_grid_id_args url_path).

(** X11.  [parse_grid_id_args] needs exactly one of a grid with an id and
    a url: with neither, or with both, it raises [InputError].  From a grid
    alone it returns the id of the grid.  From a url alone whose path is
    [/~owner/id], with no slash in the owner, and an id without slash that
    does not begin with a tilde, it returns [owner:id]; a path with a
    single piece raises [ValueError]. *)
Theorem parse_grid_id_args_cases (id : Rest.str) (url owner fid : Rest.str) :
  ~ In Rest.slash owner ->
  ~ In Rest.slash fid ->
  Rest.starts_with (b "~") fid = false ->
  url_path url = b "/~" ++ owner ++ Rest.slash :: fid ->
  parse_grid_id_args None None = Rest.Fail Rest.InputError_required /\
  parse_grid_id_args (Some None) None = Rest.Fail Rest.InputError_required /\
  parse_grid_id_args (Some (Some id)) (Some url) = Rest.Fail Rest.InputError_both /\
  parse_grid_id_args (Some (Some id)) None = Rest.Ok (Some id) /\
  parse_grid_id_args None (Some url) = Rest.Ok (Some (owner ++ b ":" ++ fid)) /\
  parse_grid_id_args (Some None) (Some url) = Rest.Ok (Some (owner ++ b ":" ++ fid)) /\
  (forall url', url_path url' = b "/~" ++ owner ->
     parse_grid_id_args None (Some url') = Rest.Fail Rest.ValueError).
Proof.
  intros Ho Hf Ht Hpath.
  assert (Hrep : Rest.replace (b "/~") [] (b "/~" ++ owner ++ Rest.slash :: fid)
                 = owner ++ Rest.slash :: fid).
  { change (Rest.replace (b "/~") [] (b "/~" ++ owner ++ Rest.slash :: fid))
      with (Rest.replace_from (b "/~") [] 0 (owner ++ Rest.slash :: fid)).
    apply replace_absent. apply no_slash_tilde; assumption. }
  assert (Hurl : forall g, (g = None \/ g = Some None) ->
            parse_grid_id_args g (Some url) = Rest.Ok (Some (owner ++ b ":" ++ fid))).
  { intros g [-> | ->]; unfold Rest.parse_grid_id_args; cbn [app];
      change (list_eqb Byte.eqb (b "grid_url") (b "grid_url")) with true;
      cbv iota; rewrite Hpath, Hrep, split_app, (@split_one Rest.slash owner Ho),
        (@split_one Rest.slash fid Hf); reflexivity. }
  repeat split; try reflexivity.
  - apply Hurl. auto.
  - apply Hurl. auto.
  - intros url' Hpath'. unfold Rest.parse_grid_id_args. cbn [app].
    change (list_eqb Byte.eqb (b "grid_url") (b "grid_url")) with true.
    cbv iota. rewrite Hpath'.
    change (Rest.replace (b "/~") [] (b "/~" ++ owner))
      with (Rest.replace_from (b "/~") [] 0 owner).
    rewrite replace_absent, (@split_one Rest.slash owner Ho); [reflexivity|].
    intros before after H. apply Ho. rewrite H.
    apply in_or_app. right. left. reflexivity.
Qed.

End GridId.

Lemma parse_grid_id_args_cases_witness :
  Rest.parse_grid_id_args (fun url => skipn 15 url) None
    (Some (b "https://plot.ly/~chris/3143"))
  = Rest.Ok (Some (b "chris:3143")).
Proof.
  destruct (@parse_grid_id_args_cases (fun url => skipn 15 url) []
              (b "https://plot.ly/~chris/3143") (b "chris") (b "3143"))
    as [_ [_ [_ [_ [H _]]]]].
  - vm_compute. intuition discriminate.
  - vm_compute. intuition discriminate.
  - reflexivity.
  - reflexivity.
  - exact H.
Defined.

(* ------------------------------------------------------------------ *)
(** * The url of a figure *)

Lemma firstn_prefix (A : Type) (s rest : list A) :
  firstn (List.length s) (s ++ rest) = s.
Proof. induction s as [|c s IH]; cbn; [reflexivity | rewrite IH; reflexivity]. Qed.

Lemma bytes_eqb_eq (s t : Rest.str) : list_eqb Byte.eqb s t = true <-> s = t.
Proof.
  revert t. induction s as [|c s IH]; intros [|d t]; cbn; split; intros H;
    try reflexivity; try discriminate.
  - apply andb_prop in H. destruct H as [H1 H2].
    apply Byte.byte_dec_bl in H1. apply IH in H2. congruence.
  - injection H as -> ->. apply andb_true_intro. split.
    + apply Byte.byte_dec_lb. reflexivity.
    + apply IH. reflexivity.
Qed.

Lemma starts_with_prefix (prefix rest : Rest.str) :
  Rest.starts_with prefix (prefix ++ rest) = true.
Proof.
  induction prefix as [|c prefix IH]; [reflexivity|]. cbn.
  rewrite IH, (Byte.byte_dec_lb eq_refl). reflexivity.
Qed.

(** After a match the characters of the match are passed over. *)
Lemma replace_from_skip (old new passed s : Rest.str) :
  Rest.replace_from old new (List.length passed) (passed ++ s)
  = Rest.replace_from old new 0 s.
Proof.
  induction passed as [|c passed IH]; [reflexivity|]. exact IH.
Qed.

(** An occurrence at the beginning is replaced, and the replacement goes
    on behind it. *)
Lemma replace_from_prefix (c : byte) (old new s : Rest.str) :
  Rest.replace_from (c :: old) new 0 ((c :: old) ++ s)
  = new ++ Rest.replace_from (c :: old) new 0 s.
Proof.
  cbn [app Rest.replace_from].
  change (c :: old ++ s) with ((c :: old) ++ s).
  rewrite starts_with_prefix. f_equal.
  replace (List.length (c :: old) - 1)%nat with (List.length old)
    by (cbn [List.length]; lia).
  apply replace_from_skip.
Qed.

(** Behind a slash-free piece and a slash, [/~] occurs only if what
    follows begins with a tilde or holds [/~]. *)
Lemma no_slash_tilde_behind (piece s : Rest.str) :
  ~ In Rest.slash piece ->
  Rest.starts_with (b "~") s = false ->
  (forall before after, s <> before ++ b "/~" ++ after) ->
  forall before after, piece ++ Rest.slash :: s <> before ++ b "/~" ++ after.
Proof.
  intros Hp Ht Hs. induction piece as [|c piece IH]; intros before after H.
  - destruct before as [|d before].
    + cbn in H. injection H as H. rewrite H in Ht. cbn in Ht. discriminate.
    + cbn in H. injection H as _ H. exact (Hs before after H).
  - destruct before as [|d before].
    + cbn in H. injection H as H _. apply Hp. left. exact H.
    + cbn [app] in H. injection H as _ H.
      apply (IH (fun Hin => Hp (or_intror Hin)) before after H).
Qed.

(** X21.  [get_figure], given a url and no file id: a url that does
    not start with the domain is refused; from a url made of the domain,
    [/~], an owner, a slash and an id (no slash in the owner and the id,
    no tilde at the head of the id) it takes the owner and the id, also
    when a slash and more, without a tilde, follow the id; and a url with
    no slash behind the owner raises [IndexError]. *)
Theorem get_figure_ids_of_url (domain owner fid more : Rest.str) :
  ~ In Rest.slash owner ->
  ~ In Rest.slash fid ->
  Rest.starts_with (b "~") fid = false ->
  ~ In "~"%byte more ->
  Rest.get_figure_ids domain (domain ++ b "/~" ++ owner ++ Rest.slash :: fid)
  = Rest.Ok (owner, fid) /\
  Rest.get_figure_ids domain
    (domain ++ b "/~" ++ owner ++ Rest.slash :: fid ++ Rest.slash :: more)
  = Rest.Ok (owner, fid) /\
  Rest.get_figure_ids domain (domain ++ b "/~" ++ owner)
  = Rest.Fail Rest.IndexError /\
  forall url, firstn (List.length domain) url <> domain ->
              Rest.get_figure_ids domain url = Rest.Fail Rest.PlotlyError_url.
Proof.
  intros Ho Hf Ht Hm.
  assert (Hhead : forall s,
             (forall before after, s <> before ++ b "/~" ++ after) ->
             Rest.get_figure_ids domain (domain ++ b "/~" ++ s)
             = match Rest.split Rest.slash s with
               | file_owner :: file_id :: _ => Rest.Ok (file_owner, file_id)
               | _ => Rest.Fail Rest.IndexError
               end).
  { intros s Hs. unfold Rest.get_figure_ids.
    rewrite firstn_prefix, (proj2 (bytes_eqb_eq domain domain) eq_refl).
    cbn [negb].
    assert (Hrep : Rest.replace (domain ++ b "/~") [] (domain ++ b "/~" ++ s) = s).
    { unfold Rest.replace.
      destruct (domain ++ b "/~") as [|c old] eqn:E.
      - destruct domain; discriminate.
      - rewrite app_assoc, E, replace_from_prefix. cbn [app].
        apply replace_absent. intros before after H.
        apply (Hs (before ++ domain) after).
        rewrite H, <- E, <- !app_assoc. reflexivity. }
    rewrite Hrep.
    destruct (Rest.split Rest.slash s) as [|x [|y l]]; reflexivity. }
  split; [|split; [|split]].
  - rewrite Hhead by (apply no_slash_tilde; assumption).
    rewrite split_app, (@split_one Rest.slash owner Ho),
      (@split_one Rest.slash fid Hf). reflexivity.
  - rewrite Hhead.
    + rewrite split_app, (@split_one Rest.slash owner Ho), split_app,
        (@split_one Rest.slash fid Hf).
      cbn [app]. destruct (Rest.split Rest.slash more); reflexivity.
    + apply no_slash_tilde_behind; [exact Ho | |].
      * destruct fid as [|x fid']; [reflexivity | exact Ht].
      * apply no_slash_tilde_behind; [exact Hf | |].
        -- destruct more as [|x more']; [reflexivity|].
           change (Rest.starts_with (b "~") (x :: more'))
             with (Byte.eqb "~" x && true).
           destruct (Byte.eqb "~" x) eqn:E; [|reflexivity].
           apply Byte.byte_dec_bl in E. subst x.
           exfalso. apply Hm. left. reflexivity.
        -- intros before after H. apply Hm. rewrite H.
           apply in_or_app. right. right. left. reflexivity.
  - rewrite Hhead.
    + rewrite (@split_one Rest.slash owner Ho). reflexivity.
    + intros before after H. apply Ho. rewrite H.
      apply in_or_app. right. left. reflexivity.
  - intros url Hurl. unfold Rest.get_figure_ids.
    destruct (list_eqb Byte.eqb (firstn (List.length domain) url) domain) eqn:E;
      [|reflexivity].
    apply bytes_eqb_eq in E. contradiction.
Qed.

(** A figure of the public server, with a path behind the id. *)
Lemma get_figure_ids_of_url_witness :
  Rest.get_figure_ids (b "https://plot.ly") (b "https://plot.ly/~chris/1638/embed")
  = Rest.Ok (b "chris", b "1638").
Proof.
  apply (@get_figure_ids_of_url (b "https://plot.ly") (b "chris") (b "1638")
           (b "embed")); cbn; try reflexivity; intuition discriminate.
Defined.

(* ------------------------------------------------------------------ *)
(** * Appending rows to a grid *)

Section Rows.
Variable cell : Type.
Variable empty_string : cell.

Local Abbreviation check_rows := (@Rest.check_rows cell).
Local Abbreviation extend_columns := (Rest.extend_columns empty_string).

Lemma check_rows_from_cases (row_i n : nat) (rows : list (list cell)) :
  match Rest.check_rows_from row_i n rows with
  | Rest.Ok _ => Forall (fun row => List.length row = n) rows
  | Rest.Fail e =>
      exists k row,
        nth_error rows k = Some row /\
        List.length row <> n /\
        e = Rest.InputError_row (row_i + k) (List.length row) n /\
        Forall (fun row => List.length row = n) (firstn k rows)
  end.
Proof.
  revert row_i. induction rows as [|row rows IH]; intros row_i; cbn.
  - constructor.
  - destruct (Nat.eqb_spec (List.length row) n) as [Heq|Hne].
    + specialize (IH (S row_i)).
      destruct (Rest.check_rows_from (S row_i) n rows) as [u|e].
      * constructor; assumption.
      * destruct IH as [k [r [Hk [Hlen [He Hall]]]]].
        exists (S k), r. cbn. repeat split; auto.
        rewrite He. f_equal. lia.
    + exists 0%nat, row. cbn. repeat split; auto.
      f_equal. lia.
Qed.

(** X12.  The check [append_rows] makes on the rows when it is given a
    grid with at least one column: it passes exactly when every row has as
    many entries as the grid has columns; otherwise it raises [InputError]
    for the first row that has not, naming its index, its length and the
    number of columns. *)
Theorem check_rows_first_bad_row (grid rows : list (list cell)) :
  grid <> [] ->
  match check_rows grid rows with
  | Rest.Ok _ => Forall (fun row => List.length row = List.length grid) rows
  | Rest.Fail e =>
      exists k row,
        nth_error rows k = Some row /\
        List.length row <> List.length grid /\
        e = Rest.InputError_row k (List.length row) (List.length grid) /\
        Forall (fun row => List.length row = List.length grid) (firstn k rows)
  end.
Proof.
  intros _. unfold Rest.check_rows. apply (check_rows_from_cases 0).
Qed.

Lemma fold_max_bounds (l : list nat) (n : nat) :
  (n <= fold_left Nat.max l n)%nat /\
  Forall (fun k => (k <= fold_left Nat.max l n)%nat) l.
Proof.
  revert n. induction l as [|k l IH]; intros n; cbn; [split; auto|].
  destruct (IH (Nat.max n k)) as [H1 H2]. split; [lia|].
  constructor; [lia | exact H2].
Qed.

Lemma heads_uniform (n : nat) (rows : list (list cell)) :
  Forall (fun row => List.length row = S n) rows ->
  Rest.heads rows
  = Some (map (fun row => nth 0 row empty_string) rows, map (@tl cell) rows).
Proof.
  induction 1 as [|row rows Hrow _ IH]; [reflexivity|].
  cbn [Rest.heads map]. rewrite IH. destruct row; [discriminate | reflexivity].
Qed.

Lemma zip_rows_uniform (n : nat) (rows : list (list cell)) :
  Forall (fun row => List.length row = n) rows ->
  Rest.zip_rows n rows
  = map (fun j => map (fun row => nth j row empty_string) rows) (seq 0 n).
Proof.
  revert rows. induction n as [|n IH]; intros rows Hall; [reflexivity|].
  cbn [Rest.zip_rows]. rewrite (heads_uniform Hall).
  cbn [seq map]. f_equal.
  rewrite IH.
  - rewrite <- seq_shift, map_map. apply map_ext. intros j.
    rewrite map_map. apply map_ext. intros row.
    destruct row; [destruct j|]; reflexivity.
  - rewrite Forall_forall in Hall |- *. intros r Hr.
    apply in_map_iff in Hr. destruct Hr as [row [<- Hin]].
    specialize (Hall row Hin). destruct row; [discriminate|].
    cbn in Hall |- *. lia.
Qed.

Lemma extend_each_nth (grid exts : list (list cell)) (j : nat) :
  List.length exts = List.length grid ->
  nth_error (Rest.extend_each grid exts) j
  = match nth_error grid j, nth_error exts j with
    | Some data, Some ext => Some (data ++ ext)
    | _, _ => None
    end.
Proof.
  revert exts j. induction grid as [|data grid IH]; intros exts j Hlen.
  - destruct j; reflexivity.
  - destruct exts as [|ext exts]; [discriminate|].
    destruct j as [|j]; [reflexivity|]. cbn. apply IH. cbn in Hlen. lia.
Qed.

Lemma extend_each_length (grid exts : list (list cell)) :
  List.length exts = List.length grid ->
  List.length (Rest.extend_each grid exts) = List.length grid.
Proof.
  revert exts. induction grid as [|data grid IH]; intros exts Hlen.
  - destruct exts; reflexivity.
  - destruct exts as [|ext exts]; [discriminate|].
    cbn. f_equal. apply IH. cbn in Hlen. lia.
Qed.


End Rows.

(** The second of two rows is too short for a grid of two columns. *)
Lemma check_rows_first_bad_row_witness :
  exists k row,
    nth_error [[10; 20]; [11]]%Z k = Some row /\
    List.length row <> 2%nat /\
    Rest.InputError_row 1 1 2 = Rest.InputError_row k (List.length row) 2 /\
    Forall (fun row => List.length row = 2%nat) (firstn k [[10; 20]; [11]]%Z).
Proof.
  exact (@check_rows_first_bad_row Z [[1; 2; 3]; [4]]%Z [[10; 20]; [11]]%Z
           ltac:(discriminate)).
Defined.


(* ------------------------------------------------------------------ *)
(** * Credentials, configuration and plot options *)

Lemma str_eqb_eq (s t : Rest.str) : Rest.str_eqb s t = true <-> s = t.
Proof. exact (bytes_eqb_eq s t). Qed.

Lemma str_eqb_refl (s : Rest.str) : Rest.str_eqb s s = true.
Proof. apply str_eqb_eq. reflexivity. Qed.

Lemma str_eqb_neq (s t : Rest.str) : s <> t -> Rest.str_eqb s t = false.
Proof.
  intros H. destruct (Rest.str_eqb s t) eqn:E; [|reflexivity].
  apply str_eqb_eq in E. contradiction.
Qed.

Lemma lookup_set (d : Rest.dict) (key : Rest.str) (v : Rest.value) (k : Rest.str) :
  Rest.lookup (Rest.set d key v) k
  = if Rest.str_eqb key k then Some v else Rest.lookup d k.
Proof.
  induction d as [|[k0 w] d IH]; cbn.
  - destruct (Rest.str_eqb key k); reflexivity.
  - destruct (Rest.str_eqb k0 key) eqn:E0; cbn.
    + apply str_eqb_eq in E0. subst k0.
      destruct (Rest.str_eqb key k); reflexivity.
    + destruct (Rest.str_eqb k0 k) eqn:E1.
      * apply str_eqb_eq in E1. subst k0. rewrite str_eqb_neq; [reflexivity|].
        intros ->. rewrite str_eqb_refl in E0. discriminate.
      * exact IH.
Qed.

Lemma keys_set (d : Rest.dict) (key : Rest.str) (v : Rest.value) :
  Rest.lookup d key <> None ->
  map fst (Rest.set d key v) = map fst d.
Proof.
  induction d as [|[k0 w] d IH]; cbn; intros H; [contradiction|].
  destruct (Rest.str_eqb k0 key); cbn; [reflexivity|].
  f_equal. apply IH. exact H.
Qed.

Lemma lookup_keys (d : Rest.dict) (k : Rest.str) :
  existsb (Rest.str_eqb k) (map fst d)
  = match Rest.lookup d k with Some _ => true | None => false end.
Proof.
  induction d as [|[k0 w] d IH]; cbn; [reflexivity|].
  destruct (Rest.str_eqb k0 k) eqn:E.
  - apply str_eqb_eq in E. subst k0. rewrite str_eqb_refl. reflexivity.
  - rewrite str_eqb_neq; [exact IH|].
    intros ->. rewrite str_eqb_refl in E. discriminate.
Qed.

Lemma override_loop (session : Rest.dict) (keys : list Rest.str) (d : Rest.dict) :
  (forall k, In k keys -> Rest.lookup d k <> None) ->
  map fst (fold_left (Rest.override_step session) keys d) = map fst d /\
  forall k,
    Rest.lookup (fold_left (Rest.override_step session) keys d) k
    = if existsb (Rest.str_eqb k) keys
         && (Rest.is_False (Rest.get session k) || Rest.truthy (Rest.get session k))
      then Some (Rest.get session k)
      else Rest.lookup d k.
Proof.
  revert d. induction keys as [|a keys IH]; intros d Hin.
  - split; reflexivity.
  - cbn [fold_left].
    set (d' := Rest.override_step session d a).
    assert (Hk : map fst d' = map fst d).
    { unfold d', Rest.override_step. cbn zeta. destruct (_ || _); [|reflexivity].
      apply keys_set. apply Hin. left. reflexivity. }
    assert (Hl : forall k, Rest.lookup d' k
                           = if Rest.str_eqb a k
                                && (Rest.is_False (Rest.get session a)
                                    || Rest.truthy (Rest.get session a))
                             then Some (Rest.get session a) else Rest.lookup d k).
    { intros k. unfold d', Rest.override_step. cbn zeta.
      destruct (_ || _); [|rewrite andb_false_r; reflexivity].
      rewrite andb_true_r. apply lookup_set. }
    destruct (IH d') as [IH1 IH2].
    { intros k Hk'. rewrite Hl.
      destruct (Rest.str_eqb a k && _); [discriminate|].
      apply Hin. right. exact Hk'. }
    split; [rewrite IH1; exact Hk|].
    intros k. rewrite IH2, Hl. cbn [existsb].
    destruct (Rest.str_eqb k a) eqn:E.
    + apply str_eqb_eq in E. subst a. rewrite str_eqb_refl. cbn.
      destruct (Rest.is_False (Rest.get session k) || Rest.truthy (Rest.get session k));
        [|rewrite andb_false_r]; cbn;
        destruct (existsb (Rest.str_eqb k) keys); reflexivity.
    + rewrite (str_eqb_neq (s:=a) (t:=k)); [reflexivity|].
      intros ->. rewrite str_eqb_refl in E. discriminate.
Qed.

Lemma keys_have_entries (d : Rest.dict) (k : Rest.str) :
  In k (map fst d) -> Rest.lookup d k <> None.
Proof.
  intros Hk. pose proof (lookup_keys d k) as E.
  destruct (Rest.lookup d k); [discriminate|].
  exfalso. induction d as [|[k1 w1] d IH]; [contradiction|].
  cbn in E, Hk. destruct Hk as [Hk|Hk].
  - subst k1. rewrite str_eqb_refl in E. discriminate.
  - apply IH; [exact Hk|].
    destruct (Rest.str_eqb k k1); [discriminate | exact E].
Qed.

Lemma session_overrides_keys (session d : Rest.dict) :
  map fst (Rest.override_from_session session d) = map fst d.
Proof.
  unfold Rest.override_from_session.
  apply (@override_loop session (map fst d) d). apply keys_have_entries.
Qed.

Lemma session_overrides_lookup (session d : Rest.dict) (key : Rest.str) :
  Rest.lookup (Rest.override_from_session session d) key
  = match Rest.lookup d key with
    | None => None
    | Some v =>
        if Rest.is_False (Rest.get session key)
           || Rest.truthy (Rest.get session key)
        then Some (Rest.get session key)
        else Some v
    end.
Proof.
  unfold Rest.override_from_session.
  destruct (@override_loop session (map fst d) d (keys_have_entries d)) as [_ H2].
  rewrite H2, lookup_keys.
  destruct (Rest.lookup d key); reflexivity.
Qed.

(** X14.  The loop of [get_credentials], [get_config] and
    [get_plot_options].  The result has the keys of the dictionary read
    from the file (or of the defaults), in their order.  The entry of a
    key is the session's when the session's is [False] or true, and the
    former entry otherwise, so for a key the session does not have or has
    with [None], [0] or an empty string.  A key that only the session has
    is left out. *)
Theorem session_overrides (session d : Rest.dict) :
  map fst (Rest.override_from_session session d) = map fst d /\
  forall key,
    Rest.lookup (Rest.override_from_session session d) key
    = match Rest.lookup d key with
      | None => None
      | Some v =>
          let session_value := Rest.get session key in
          if Rest.is_False session_value || Rest.truthy session_value
          then Some session_value
          else Some v
      end.
Proof.
  split; [apply session_overrides_keys | intros key; apply session_overrides_lookup].
Qed.

Lemma lookup_update (d other : Rest.dict) (k : Rest.str) :
  NoDup (map fst other) ->
  Rest.lookup (Rest.update d other) k
  = match Rest.lookup other k with
    | Some v => Some v
    | None => Rest.lookup d k
    end.
Proof.
  unfold Rest.update. revert d.
  induction other as [|[a v] other IH]; intros d Hnd; [reflexivity|].
  cbn [fold_left fst snd Rest.lookup map] in *.
  inversion Hnd as [|? ? Hnotin Hnd']; subst.
  rewrite (IH _ Hnd'), lookup_set.
  destruct (Rest.str_eqb a k) eqn:E; [|reflexivity].
  apply str_eqb_eq in E. subst a.
  pose proof (lookup_keys other k) as Hk.
  destruct (Rest.lookup other k); [|reflexivity].
  exfalso. apply Hnotin. apply existsb_exists in Hk.
  destruct Hk as [x [Hx Ex]]. apply str_eqb_eq in Ex. subst x. exact Hx.
Qed.

(** X15.  [_plot_option_logic] on the options of a call, a dictionary
    with one entry for a key.  The five default keys always have an entry
    in the result.  An option given in the call is the result's.  An
    option other than [fileopt] that the call does not give is the
    session's or default one.  When the call gives no [fileopt], the
    result's is ['overwrite'] if a file name is given, in the call or in
    the session, and the session has no [fileopt] entry; and else the
    session's [fileopt] if that is [False] or true, and ['new']
    otherwise. *)
Theorem plot_option_logic_cases (session plot_options : Rest.dict) :
  NoDup (map fst plot_options) ->
  let r := Rest._plot_option_logic session plot_options in
  (forall key, Rest.contains Rest.DEFAULT_PLOT_OPTIONS key = true ->
               Rest.contains r key = true) /\
  (forall key v, Rest.lookup plot_options key = Some v ->
                 Rest.lookup r key = Some v) /\
  (forall key, key <> b "fileopt" ->
               Rest.lookup plot_options key = None ->
               Rest.lookup r key
               = Rest.lookup (Rest.get_plot_options session) key) /\
  (Rest.lookup plot_options (b "fileopt") = None ->
   Rest.lookup r (b "fileopt")
   = if (Rest.contains plot_options (b "filename")
         || Rest.contains session (b "filename"))
        && negb (Rest.contains session (b "fileopt"))
     then Some (Rest.VStr (b "overwrite"))
     else if Rest.is_False (Rest.get session (b "fileopt"))
             || Rest.truthy (Rest.get session (b "fileopt"))
          then Some (Rest.get session (b "fileopt"))
          else Some (Rest.VStr (b "new"))).
Proof.
  intros Hnd r.
  assert (Hr : forall key,
             Rest.lookup r key
             = if Rest.str_eqb (b "fileopt") key
                  && ((Rest.contains plot_options (b "filename")
                       || Rest.contains session (b "filename"))
                      && negb (Rest.contains session (b "fileopt"))
                      && negb (Rest.contains plot_options (b "fileopt")))
               then Some (Rest.VStr (b "overwrite"))
               else match Rest.lookup plot_options key with
                    | Some v => Some v
                    | None => Rest.lookup (Rest.get_plot_options session) key
                    end).
  { intros key. unfold r, Rest._plot_option_logic.
    destruct ((Rest.contains plot_options (b "filename")
               || Rest.contains session (b "filename"))
              && negb (Rest.contains session (b "fileopt"))
              && negb (Rest.contains plot_options (b "fileopt"))).
    - rewrite lookup_set, andb_true_r.
      destruct (Rest.str_eqb (b "fileopt") key); [reflexivity|].
      apply lookup_update. exact Hnd.
    - rewrite andb_false_r. apply lookup_update. exact Hnd. }
  assert (Hdef : forall key,
             Rest.lookup (Rest.get_plot_options session) key
             = match Rest.lookup Rest.DEFAULT_PLOT_OPTIONS key with
               | None => None
               | Some v =>
                   if Rest.is_False (Rest.get session key)
                      || Rest.truthy (Rest.get session key)
                   then Some (Rest.get session key)
                   else Some v
               end).
  { intros key. apply (session_overrides_lookup session Rest.DEFAULT_PLOT_OPTIONS). }
  split; [|split; [|split]].
  - intros key Hkey. unfold Rest.contains at 1. rewrite Hr.
    unfold Rest.contains in Hkey.
    destruct (Rest.str_eqb (b "fileopt") key && _); [reflexivity|].
    destruct (Rest.lookup plot_options key); [reflexivity|].
    rewrite Hdef.
    destruct (Rest.lookup Rest.DEFAULT_PLOT_OPTIONS key); [|discriminate].
    destruct (Rest.is_False (Rest.get session key) || _); reflexivity.
  - intros key v Hkey. rewrite Hr, Hkey.
    destruct (Rest.str_eqb (b "fileopt") key) eqn:E; [|reflexivity].
    apply str_eqb_eq in E. subst key. unfold Rest.contains at 4.
    rewrite Hkey. cbn [negb]. rewrite !andb_false_r. reflexivity.
  - intros key Hne Hkey. rewrite Hr, Hkey.
    rewrite str_eqb_neq by congruence. reflexivity.
  - intros Hkey. rewrite Hr, Hkey, str_eqb_refl.
    unfold Rest.contains at 4. rewrite Hkey. cbn [negb andb].
    rewrite andb_true_r.
    destruct ((Rest.contains plot_options (b "filename") || _) && _);
      [reflexivity|].
    rewrite Hdef. reflexivity.
Qed.

(** A call that names the file, in a session that has a [fileopt]. *)
Lemma plot_option_logic_cases_witness :
  Rest.lookup
    (Rest._plot_option_logic [(b "fileopt", Rest.VStr (b "extend"))]
                             [(b "filename", Rest.VStr (b "a"))])
    (b "filename")
  = Some (Rest.VStr (b "a")).
Proof.
  apply (@plot_option_logic_cases [(b "fileopt", Rest.VStr (b "extend"))]
           [(b "filename", Rest.VStr (b "a"))]);
    [repeat constructor; intros [] | reflexivity].
Defined.

(** X16.  The credentials [_send_to_plotly] and [get_figure] check are
    those of [get_credentials].  The check passes exactly when the user
    name and the api key are both usable: the file has an entry for the
    key, and either the session's entry is true, or it is not [False] and
    the file's entry is true.  Otherwise [PlotlyLocalCredentialsError] is
    raised; a session entry [False] blocks the file's entry, and a session
    entry for a key the file does not have is not used. *)
Theorem credentials_valid_cases (credentials_file session_credentials : Rest.dict) :
  let usable key :=
    match Rest.lookup credentials_file key with
    | None => false
    | Some v =>
        let session_value := Rest.get session_credentials key in
        Rest.truthy session_value
        || negb (Rest.is_False session_value) && Rest.truthy v
    end in
  Rest.validate_credentials
    (Rest.get_credentials credentials_file session_credentials)
  = if usable (b "username") && usable (b "api_key")
    then Rest.Ok tt
    else Rest.Fail Rest.PlotlyLocalCredentialsError.
Proof.
  intros usable. unfold Rest.validate_credentials, Rest.get_credentials, Rest.get.
  rewrite !(session_overrides_lookup session_credentials credentials_file).
  unfold usable, Rest.get.
  generalize (Rest.lookup session_credentials (b "username"))
             (Rest.lookup session_credentials (b "api_key"))
             (Rest.lookup credentials_file (b "username"))
             (Rest.lookup credentials_file (b "api_key")).
  intros su sa fu fa.
  assert (Hone : forall (s f : option Rest.value),
             Rest.truthy
               match
                 match f with
                 | Some v =>
                     if Rest.is_False match s with Some v0 => v0 | None => Rest.VNone end
                        || Rest.truthy match s with Some v0 => v0 | None => Rest.VNone end
                     then Some match s with Some v0 => v0 | None => Rest.VNone end
                     else Some v
                 | None => None
                 end
               with Some v => v | None => Rest.VNone end
             = match f with
               | Some v =>
                   Rest.truthy match s with Some v0 => v0 | None => Rest.VNone end
                   || negb (Rest.is_False match s with Some v0 => v0 | None => Rest.VNone end)
                      && Rest.truthy v
               | None => false
               end).
  { intros s f. destruct f as [v|]; [|reflexivity].
    destruct s as [[|[]|z|[|c s]]|]; cbn; try reflexivity.
    destruct (z =? 0)%Z eqn:E; cbn; rewrite ?E; reflexivity. }
  cbn zeta. rewrite !Hone.
  destruct (match fu with Some _ => _ | None => _ end);
    destruct (match fa with Some _ => _ | None => _ end); reflexivity.
Qed.

(* ------------------------------------------------------------------ *)
(** * The ids of uploaded columns *)

Section FillIn.
Variable response_column : Type.
Variable resp_name resp_uid : response_column -> Rest.str.
Variable resp_eqb : response_column -> response_column -> bool.
Hypothesis resp_eqb_eq : forall x y, resp_eqb x y = true <-> x = y.

Local Abbreviation named n :=
  (fun resp_col : response_column => Rest.str_eqb (resp_name resp_col) n).
Local Abbreviation not_named n :=
  (fun resp_col : response_column => negb (Rest.str_eqb (resp_name resp_col) n)).

Lemma filter_all (A : Type) (p : A -> bool) (l : list A) :
  (forall y, In y l -> p y = true) -> filter p l = l.
Proof.
  induction l as [|y l IH]; intros H; [reflexivity|]. cbn.
  rewrite (H y (or_introl eq_refl)). f_equal.
  apply IH. intros z Hz. apply H. right. exact Hz.
Qed.

Lemma distinct_names_filter (keep : response_column -> bool)
      (columns : list response_column) :
  NoDup (map resp_name columns) ->
  NoDup (map resp_name (filter keep columns)).
Proof.
  intros Hnd. induction columns as [|y l IH]; [constructor|].
  cbn in *. inversion Hnd as [|? ? Hnot Hnd']; subst.
  destruct (keep y); [|apply IH; exact Hnd'].
  cbn. constructor; [|apply IH; exact Hnd'].
  intros Hin. apply Hnot. apply in_map_iff in Hin.
  destruct Hin as [z [Hz Hin]]. apply filter_In in Hin.
  apply in_map_iff. exists z. tauto.
Qed.

Lemma find_nowhere (A : Type) (p : A -> bool) (l : list A) :
  (forall y, In y l -> p y = false) -> find p l = None.
Proof.
  induction l as [|y l IH]; intros H; [reflexivity|]. cbn.
  rewrite (H y (or_introl eq_refl)). apply IH.
  intros z Hz. apply H. right. exact Hz.
Qed.

Lemma find_filter (A : Type) (p q : A -> bool) (l : list A) :
  (forall y, p y = true -> q y = true) ->
  find p (filter q l) = find p l.
Proof.
  intros H. induction l as [|y l IH]; [reflexivity|]. cbn.
  destruct (q y) eqn:Eq; cbn.
  - destruct (p y); [reflexivity | exact IH].
  - destruct (p y) eqn:Ep; [|exact IH].
    rewrite (H y Ep) in Eq. discriminate.
Qed.

Lemma filter_twice (A : Type) (p q : A -> bool) (l : list A) :
  filter p (filter q l) = filter (fun y => q y && p y) l.
Proof.
  induction l as [|y l IH]; [reflexivity|]. cbn.
  destruct (q y); cbn; [|exact IH].
  destruct (p y); [f_equal|]; exact IH.
Qed.

Lemma remove_by_name (x : response_column) (l : list response_column) :
  In x l ->
  NoDup (map resp_name l) ->
  Rest.remove resp_eqb x l = Rest.Ok (filter (not_named (resp_name x)) l).
Proof.
  induction l as [|y l IH]; intros Hin Hnd; [contradiction|].
  cbn in Hnd. inversion Hnd as [|? ? Hnot Hnd']; subst.
  cbn [Rest.remove filter].
  destruct (resp_eqb y x) eqn:E.
  - apply resp_eqb_eq in E. subst y. rewrite str_eqb_refl. cbn [negb].
    f_equal. symmetry. apply filter_all. intros z Hz.
    rewrite str_eqb_neq; [reflexivity|].
    intros Hname. apply Hnot. rewrite <- Hname.
    apply in_map. exact Hz.
  - destruct Hin as [->|Hin].
    + assert (resp_eqb x x = true) as Hx by (apply resp_eqb_eq; reflexivity).
      congruence.
    + rewrite (IH Hin Hnd'). rewrite str_eqb_neq; [reflexivity|].
      intros Hname. apply Hnot. rewrite Hname. apply in_map. exact Hin.
Qed.

Lemma skipn_nth_error (A : Type) (l : list A) (i : nat) (x : A) :
  nth_error l i = Some x -> skipn i l = x :: skipn (S i) l.
Proof.
  revert i. induction l as [|y l IH]; intros [|i] H; try discriminate.
  - injection H as ->. reflexivity.
  - cbn in H. cbn [skipn]. rewrite (IH i H). reflexivity.
Qed.

Lemma in_skipn (A : Type) (k : nat) (l : list A) (y : A) :
  In y (skipn k l) -> In y l.
Proof.
  revert l. induction k as [|k IH]; intros l H; [exact H|].
  destruct l as [|z l]; [contradiction|]. right. apply IH. exact H.
Qed.

Lemma fill_in_from_by_name (steps i : nat) (grid_id n req_id : Rest.str)
      (l : list response_column) :
  NoDup (map resp_name l) ->
  (List.length l - i <= steps)%nat ->
  Rest.fill_in_from resp_name resp_uid resp_eqb steps i grid_id n req_id l
  = Rest.Ok (match find (named n) (skipn i l) with
             | Some resp_col =>
                 (Rest.format_id grid_id (resp_uid resp_col),
                  filter (not_named n) l)
             | None => (req_id, l)
             end).
Proof.
  revert i req_id l. induction steps as [|steps IH]; intros i req_id l Hnd Hsteps.
  - cbn. rewrite skipn_all2 by lia. reflexivity.
  - cbn [Rest.fill_in_from]. destruct (nth_error l i) as [resp_col|] eqn:Ei.
    + rewrite (skipn_nth_error _ _ Ei). cbn [find].
      destruct (Rest.str_eqb (resp_name resp_col) n) eqn:En.
      * apply str_eqb_eq in En. subst n.
        rewrite (remove_by_name _ _ (nth_error_In _ _ Ei) Hnd).
        rewrite IH.
        -- rewrite find_nowhere; [reflexivity|].
           intros y Hy. apply in_skipn in Hy. rename Hy into Hy'.
           apply filter_In in Hy'. destruct Hy' as [_ Hy'].
           apply negb_true_iff in Hy'. exact Hy'.
        -- apply distinct_names_filter. exact Hnd.
        -- pose proof (filter_length_le (not_named (resp_name resp_col)) l).
           assert (i < List.length l)%nat
             by (apply nth_error_Some; rewrite Ei; discriminate).
           lia.
      * apply IH; [exact Hnd|].
        assert (i < List.length l)%nat
          by (apply nth_error_Some; rewrite Ei; discriminate).
        lia.
    + apply nth_error_None in Ei. rewrite skipn_all2 by exact Ei. reflexivity.
Qed.

(** X17.  [_fill_in_response_column_ids], when the columns of the
    response have distinct names and so have those of the request.  A
    request column whose name a response column has gets the id made of
    the grid id and that column's [uid]; the other request columns keep
    their id.  The response columns that are left in the list are those
    whose name no request column has. *)
Theorem fill_in_ids_by_name (request_columns : list Rest.Column)
        (response_columns : list response_column) (grid_id : Rest.str) :
  NoDup (map resp_name response_columns) ->
  NoDup (map Rest.name request_columns) ->
  Rest._fill_in_response_column_ids resp_name resp_uid resp_eqb
    request_columns response_columns grid_id
  = Rest.Ok
      (map (fun req_col =>
              match find (named (Rest.name req_col)) response_columns with
              | Some resp_col =>
                  {| Rest.name := Rest.name req_col;
                     Rest.id := Rest.format_id grid_id (resp_uid resp_col) |}
              | None => req_col
              end) request_columns,
       filter (fun resp_col =>
                 negb (existsb (fun req_col =>
                                  Rest.str_eqb (resp_name resp_col)
                                               (Rest.name req_col))
                               request_columns))
              response_columns).
Proof.
  revert response_columns.
  induction request_columns as [|req_col rest IH]; intros l Hl Hreq.
  - cbn. rewrite filter_all by reflexivity. reflexivity.
  - cbn [map] in Hreq. inversion Hreq as [|? ? Hnot Hrest]; subst.
    cbn [Rest._fill_in_response_column_ids].
    rewrite fill_in_from_by_name by (exact Hl || lia). cbn [skipn].
    assert (Hleft : (match find (named (Rest.name req_col)) l with
                     | Some resp_col =>
                         (Rest.format_id grid_id (resp_uid resp_col),
                          filter (not_named (Rest.name req_col)) l)
                     | None => (Rest.id req_col, l)
                     end)
                    = (match find (named (Rest.name req_col)) l with
                       | Some resp_col => Rest.format_id grid_id (resp_uid resp_col)
                       | None => Rest.id req_col
                       end,
                       filter (not_named (Rest.name req_col)) l)).
    { destruct (find (named (Rest.name req_col)) l) eqn:Ef; [reflexivity|].
      f_equal. symmetry. apply filter_all. intros y Hy.
      pose proof (List.find_none _ _ Ef y Hy) as Hy'. cbn in Hy'.
      rewrite Hy'. reflexivity. }
    rewrite Hleft.
    rewrite (IH _ (@distinct_names_filter _ l Hl) Hrest).
    f_equal. f_equal.
    + cbn [map]. f_equal.
      * destruct (find (named (Rest.name req_col)) l); [reflexivity|].
        destruct req_col; reflexivity.
      * apply map_ext_in. intros c Hc.
        rewrite find_filter; [reflexivity|].
        intros y Hy. cbn in Hy. apply str_eqb_eq in Hy.
        rewrite str_eqb_neq; [reflexivity|].
        intros Hname. apply Hnot. rewrite <- Hname, Hy.
        apply in_map. exact Hc.
    + rewrite filter_twice. apply filter_ext. intros y. cbn [existsb].
      rewrite negb_orb. reflexivity.
Qed.

End FillIn.

(** Two columns uploaded, which the response lists in the other order as
    pairs of a name and a uid. *)
Lemma fill_in_ids_by_name_witness :
  Rest._fill_in_response_column_ids fst snd
    (fun x y : Rest.str * Rest.str =>
       Rest.str_eqb (fst x) (fst y) && Rest.str_eqb (snd x) (snd y))
    [ {| Rest.name := b "time"; Rest.id := [] |};
      {| Rest.name := b "voltage"; Rest.id := [] |} ]
    [ (b "voltage", b "aa"); (b "time", b "bb") ]
    (b "chris:3")
  = Rest.Ok ([ {| Rest.name := b "time"; Rest.id := b "chris:3/bb" |};
               {| Rest.name := b "voltage"; Rest.id := b "chris:3/aa" |} ],
             []).
Proof.
  rewrite (@fill_in_ids_by_name (Rest.str * Rest.str) fst snd
             (fun x y => Rest.str_eqb (fst x) (fst y)
                         && Rest.str_eqb (snd x) (snd y))).
  - reflexivity.
  - intros [x1 x2] [y1 y2]. cbn [fst snd]. rewrite andb_true_iff, !str_eqb_eq.
    split; [intros [-> ->]; reflexivity | intros H; injection H; auto].
  - repeat constructor; cbn; intuition discriminate.
  - repeat constructor; cbn; intuition discriminate.
Defined.

(* ------------------------------------------------------------------ *)
(** * Static images *)

Section Image.
Import Rest.image.
Variables object size json : Type.
Variable version : Rest.str.
Variable headers : Rest.result Rest.dict.
Variable api_url : Rest.str -> Rest.result Rest.str.
Variable json_dumps : Rest.image.payload object size -> Rest.result Rest.str.
Variable ssl_verification : Rest.result Rest.value.
Variable post : Rest.str -> Rest.str -> Rest.dict -> Rest.value ->
                Rest.result Rest.image.response.
Variable json_loads : Rest.str -> Rest.result json.
Variable getitem : json -> Rest.str -> Rest.result json.
Variable splitext : Rest.str -> Rest.str * Rest.str.
Variable open_wb : Rest.str -> Rest.result unit.
Variable file_write : Rest.image.img json -> Rest.result unit.
Variable file_close : Rest.result unit.
Variable import_display : Rest.result unit.
Variable display : bool -> Rest.image.img json -> Rest.result unit.

Local Abbreviation get :=
  (Rest.image.get version headers api_url json_dumps ssl_verification post
                  json_loads getitem).
Local Abbreviation ishow :=
  (Rest.image.ishow version headers api_url json_dumps ssl_verification post
                    json_loads getitem import_display display).
Local Abbreviation save_as :=
  (Rest.image.save_as version headers api_url json_dumps ssl_verification post
                      json_loads getitem splitext open_wb file_write file_close).
Local Abbreviation run := (Rest.image.run object size json).
Local Abbreviation call := (Rest.image.call object size json).

Lemma run_bind_ret (A B : Type) (a : A) (k : A -> run B) :
  bind (ret object size json a) k = k a.
Proof. unfold bind, ret. destruct (k a). reflexivity. Qed.

Lemma run_bind_eval_ok (A B : Type) (a : A) (k : A -> run B) :
  bind (eval object size json (Rest.Ok a)) k = k a.
Proof. apply run_bind_ret. Qed.

Lemma run_bind_eval_fail (A B : Type) (e : Rest.error) (k : A -> run B) :
  bind (eval object size json (Rest.Fail e)) k = raise object size json e.
Proof. reflexivity. Qed.

Lemma run_bind_perform_ok (A B : Type) (c : call) (a : A) (k : A -> run B) :
  bind (perform c (Rest.Ok a)) k = (c :: fst (k a), snd (k a)).
Proof. unfold bind, perform. destruct (k a). reflexivity. Qed.

Lemma run_bind_perform_fail (A B : Type) (c : call) (e : Rest.error) (k : A -> run B) :
  bind (perform c (Rest.Fail e)) k = ([c], Raises (Error e)).
Proof. reflexivity. Qed.

Lemma run_bind_raises (A B : Type) (calls : list call) (r : raised json)
      (k : A -> run B) :
  bind (calls, Raises r) k = (calls, Raises r).
Proof. reflexivity. Qed.

Lemma run_bind_returns (A B : Type) (calls : list call) (a : A) (k : A -> run B) :
  bind (calls, Returns a) k = (calls ++ fst (k a), snd (k a)).
Proof. unfold bind. destruct (k a). reflexivity. Qed.

(** Reading the response makes no call. *)
Lemma read_no_call (res : response) :
  fst (read object size json_loads getitem res) = [].
Proof.
  unfold read, json_content.
  destruct (status_code res =? 200)%Z.
  - destruct (content_type res) as [t|]; [|reflexivity].
    destruct (among t image_content_types); [reflexivity|].
    destruct (is_in (b "json") t); [|reflexivity].
    destruct (json_loads (content res)) as [d|e];
      [rewrite run_bind_eval_ok | reflexivity].
    destruct (getitem d (b "image")); reflexivity.
  - destruct (content_type res) as [t|]; [|reflexivity].
    destruct (is_in (b "json") t); [|reflexivity].
    destruct (json_loads (content res)) as [d|e]; [|reflexivity].
    destruct (getitem d (b "error")); reflexivity.
Qed.

(** [get] either raises before it makes a call, or makes the one request,
    for the figure, the format and the sizes it was given, the format
    being one of the four. *)
Lemma get_calls (figure_or_data : figure_arg object) (format : option Rest.str)
      (width height : option size) :
  (exists r, get figure_or_data format width height = ([], Raises r)) \/
  (exists url p hdrs verify o,
      get figure_or_data format width height = ([Post url p hdrs verify], o) /\
      format = Some (payload_format p) /\
      among (payload_format p) formats = true /\
      payload_width p = width /\
      payload_height p = height /\
      match figure_or_data with
      | A_dict d => payload_figure p = Figure d
      | A_list l => payload_figure p = Data l
      | A_other => False
      end).
Proof.
  unfold Rest.image.get.
  destruct figure_or_data as [d|l|]; [| |left; eexists; reflexivity];
    (destruct format as [f|]; [|left; eexists; reflexivity];
     destruct (among f formats) eqn:Ef; cbn [negb];
       [|left; eexists; reflexivity];
     destruct headers as [h|e] eqn:Eh;
       [rewrite run_bind_eval_ok | left; eexists; reflexivity];
     destruct (api_url (b "images/")) as [url|e] eqn:Eu;
       [rewrite run_bind_eval_ok | left; eexists; reflexivity];
     destruct (json_dumps _) as [data|e] eqn:Ed;
       [rewrite run_bind_eval_ok | left; eexists; reflexivity];
     destruct ssl_verification as [verify|e] eqn:Ev;
       [rewrite run_bind_eval_ok | left; eexists; reflexivity];
     right;
     destruct (post url data _ verify) as [res|e];
       [rewrite run_bind_perform_ok, read_no_call | rewrite run_bind_perform_fail];
     eexists _, _, _, _, _; (split; [reflexivity|]); cbn; auto).
Qed.

(** What [save_as] does with the image [get] returned: the file is
    opened, then written, then closed, as far as these calls succeed. *)
Lemma file_calls (filename : Rest.str) (i : img json) :
  exists rest,
    fst (bind (perform (Open filename) (open_wb filename)) (fun _ =>
         bind (perform (Write i) (file_write i)) (fun _ =>
         perform (Close (object:=object) (size:=size) (json:=json)) file_close)))
    = Open filename :: rest /\
    (rest = [] \/ rest = [Write i] \/ rest = [Write i; Close]).
Proof.
  destruct (open_wb filename) as [[]|e].
  - rewrite run_bind_perform_ok. destruct (file_write i) as [[]|e].
    + rewrite run_bind_perform_ok. eexists. split; [reflexivity|].
      right. right. reflexivity.
    + rewrite run_bind_perform_fail. eexists. split; [reflexivity|].
      right. left. reflexivity.
  - rewrite run_bind_perform_fail. eexists. split; [reflexivity|].
    left. reflexivity.
Qed.

(** [save_as] from the call of [get] on, for the name and the format
    chosen. *)
Lemma save_calls (figure_or_data : figure_arg object) (filename : Rest.str)
      (format : option Rest.str) (width height : option size) :
  let calls :=
    fst (bind (get figure_or_data format width height) (fun img =>
         bind (perform (Open filename) (open_wb filename)) (fun _ =>
         bind (perform (Write img) (file_write img)) (fun _ =>
         perform (Close (object:=object) (size:=size) (json:=json))
                 file_close)))) in
  calls = [] \/
  exists url p hdrs verify,
    format = Some (payload_format p) /\
    among (payload_format p) formats = true /\
    (calls = [Post url p hdrs verify] \/
     exists i rest,
       calls = Post url p hdrs verify :: Open filename :: rest /\
       snd (get figure_or_data format width height) = Returns i /\
       (rest = [] \/ rest = [Write i] \/ rest = [Write i; Close])).
Proof.
  cbn zeta.
  destruct (get_calls figure_or_data format width height)
    as [[r Hget]|[url [p [hdrs [verify [o [Hget [Hf [Ha _]]]]]]]]];
    rewrite Hget.
  - left. reflexivity.
  - right. exists url, p, hdrs, verify. split; [exact Hf|]. split; [exact Ha|].
    destruct o as [i|r].
    + right. rewrite run_bind_returns. cbn [fst snd].
      destruct (file_calls filename i) as [rest [Hrest Hcases]].
      rewrite Hrest. exists i, rest. split; [reflexivity|].
      split; [reflexivity | exact Hcases].
    + left. reflexivity.
Qed.

(** The name and the format [save_as] goes on with. *)
Lemma save_as_unfold (figure_or_data : figure_arg object) (filename : Rest.str)
      (format : option Rest.str) (width height : option size) :
  let ext := snd (splitext filename) in
  let chosen :=
    if given format
    then (filename ++ b "." ++ match format with Some f => f | None => [] end,
          format)
    else match ext with
         | [] => (filename ++ b ".png", format)
         | _ :: _ => (filename, Some (tl ext))
         end in
  save_as figure_or_data filename format width height
  = bind (get figure_or_data (snd chosen) width height) (fun img =>
    bind (perform (Open (fst chosen)) (open_wb (fst chosen))) (fun _ =>
    bind (perform (Write img) (file_write img)) (fun _ =>
    perform Close file_close))).
Proof.
  unfold Rest.image.save_as.
  destruct (splitext filename) as [base ext]. cbn [snd].
  destruct format as [[|c f]|]; destruct ext as [|d ext];
    cbn [given negb andb dot]; rewrite ?run_bind_eval_ok, ?run_bind_ret; reflexivity.
Qed.

(** X18.  [save_as] for a file name without extension and no format
    (or an empty one): although ['.png'] is appended to the name, the
    format is passed on as it is, so the call raises, the invalid format
    error for a figure that is a dict or a list, before any request is
    made and before a file is opened. *)
Theorem save_as_needs_format (figure_or_data : figure_arg object)
        (filename : Rest.str) (format : option Rest.str)
        (width height : option size) :
  snd (splitext filename) = [] ->
  given format = false ->
  save_as figure_or_data filename format width height
  = ([], Raises (Error match figure_or_data with
                       | A_other => Rest.PlotlyEmptyDataError
                       | _ => Rest.PlotlyError_format
                       end)).
Proof.
  intros Hext Hformat. rewrite save_as_unfold. cbn zeta.
  rewrite Hext, Hformat. cbn [fst snd].
  unfold Rest.image.get.
  destruct figure_or_data; destruct format as [[|c f]|];
    try discriminate; reflexivity.
Qed.


Lemma not_post_file_calls (i : img json) (rest : list call) :
  rest = [] \/ rest = [Write i] \/ rest = [Write i; Close] ->
  Forall (fun c : call => match c with Post _ _ _ _ => False | _ => True end)
         rest.
Proof.
  intros [-> | [-> | ->]]; repeat constructor.
Qed.

(** X20.  [get], [ishow] and [save_as] make at most one request, as
    their first call outside, and only for a format among png, svg, jpeg
    and pdf; a request of [ishow] is never for a pdf. *)
Theorem requests_are_valid (figure_or_data : figure_arg object)
        (filename : Rest.str) (format : option Rest.str)
        (width height : option size) :
  one_request (fst (get figure_or_data format width height)) formats /\
  one_request (fst (ishow figure_or_data format width height))
              [b "png"; b "svg"; b "jpeg"] /\
  one_request (fst (save_as figure_or_data filename format width height))
              formats.
Proof.
  split; [|split].
  - destruct (get_calls figure_or_data format width height)
      as [[r Hget]|[url [p [hdrs [verify [o [Hget [Hf [Ha _]]]]]]]]];
      rewrite Hget; [left; reflexivity|].
    right. exists url, p, hdrs, verify, []. repeat split; auto.
  - unfold Rest.image.ishow.
    destruct (match format with
              | Some f => Rest.str_eqb f (b "pdf")
              | None => false
              end) eqn:Epdf; [left; reflexivity|].
    destruct (get_calls figure_or_data format width height)
      as [[r Hget]|[url [p [hdrs [verify [o [Hget [Hf [Ha _]]]]]]]]];
      rewrite Hget; [left; reflexivity|].
    right.
    assert (Hallowed : among (payload_format p) [b "png"; b "svg"; b "jpeg"] = true).
    { rewrite Hf in Epdf. unfold among, formats in *. cbn [existsb] in *.
      rewrite Epdf in Ha. rewrite !orb_false_r in Ha.
      rewrite orb_false_r. exact Ha. }
    destruct o as [i|r].
    + rewrite run_bind_returns. cbn [fst snd].
      destruct import_display as [[]|e].
      * rewrite run_bind_perform_ok.
        exists url, p, hdrs, verify. eexists. split; [reflexivity|].
        split; [exact Hallowed|].
        destruct (match format with
                  | Some f => Rest.str_eqb f (b "svg")
                  | None => false
                  end); repeat constructor.
      * rewrite run_bind_perform_fail.
        exists url, p, hdrs, verify. eexists. split; [reflexivity|].
        split; [exact Hallowed|]. repeat constructor.
    + exists url, p, hdrs, verify, []. repeat split; auto.
  - rewrite save_as_unfold. cbn zeta.
    set (chosen := if given format then _ else _).
    destruct (save_calls figure_or_data (fst chosen) (snd chosen) width height)
      as [Hnil|[url [p [hdrs [verify [Hf [Ha Hcalls]]]]]]].
    + left. exact Hnil.
    + right. cbn zeta in Hcalls.
      destruct Hcalls as [Hone|[i [rest [Hcalls [Hget Hrest]]]]].
      * rewrite Hone. exists url, p, hdrs, verify, []. repeat split; auto.
      * rewrite Hcalls. exists url, p, hdrs, verify. eexists.
        split; [reflexivity|]. split; [exact Ha|].
        constructor; [exact I|]. apply (not_post_file_calls Hrest).
Qed.

End Image.

(** The name [plot] has no extension. *)
Lemma save_as_needs_format_witness :
  Rest.image.Demo.save_as (Rest.image.A_dict tt) (b "plot") None None None
  = ([], Rest.image.Raises (Rest.image.Error Rest.PlotlyError_format)).
Proof.
  unfold Rest.image.Demo.save_as.
  apply (@save_as_needs_format unit Z unit); reflexivity.
Defined.

